(** * BitmapText: layout pass, page batching and dirty-flag protocol

    A shallow embedding of [packages/text-bitmap/src/BitmapText.ts] and the
    properties of its layout pass ([updateText]), of the buffer policy of the
    page batches, of the object pools and of the dirty-flag protocol of the
    owning object. *)

From Stdlib Require Import ZArith Ascii String Lia Sorted.
From stdpp Require Import gmap strings list.

Local Open Scope Z_scope.

(** ** JavaScript numbers

    Every [number] of the source is an IEEE double, and the vertex and UV
    arrays are [Float32Array]s.  The embedding is generic in the arithmetic:
    the operations the source uses are the fields of a class, and no law is
    assumed about them, so that every general theorem below holds for IEEE
    arithmetic as well as for exact arithmetic. *)

Class JsNumber (num : Type) := {
  nzero : num;                      (* the literal 0 *)
  ntwo : num;                       (* the literal 2 *)
  nnan : num;                       (* ToNumber(undefined) *)
  nundefined : num;                 (* [undefined], where a number is read *)
  nadd : num -> num -> num;         (* a + b *)
  nsub : num -> num -> num;         (* a - b *)
  nmul : num -> num -> num;         (* a * b *)
  ndiv : num -> num -> num;         (* a / b *)
  nmax : num -> num -> num;         (* Math.max(a, b) *)
  ngt : num -> num -> bool;         (* a > b *)
  nstricteq : num -> num -> bool;   (* a === b *)
  ntruthy : num -> bool;            (* ToBoolean(a) *)
  fround : num -> num;              (* the value read back from a Float32Array slot *)
  parseInt : string -> num;         (* parseInt(s, 10) *)
}.

(** ** Data model *)

Module Point.
Record t {num : Type} := mk { x : num; y : num }.
Arguments t : clear implicits.
Arguments mk {num}.
End Point.

Module Rectangle.
Record t {num : Type} := mk { width : num; height : num }.
Arguments t : clear implicits.
Arguments mk {num}.
End Rectangle.

Module TextureUvs.
Record t {num : Type} := mk {
  x0 : num; y0 : num; x1 : num; y1 : num;
  x2 : num; y2 : num; x3 : num; y3 : num }.
Arguments t : clear implicits.
Arguments mk {num}.
End TextureUvs.

Module BaseTexture.
(** Only the identity of a texture page matters to the layout. *)
Record t := mk { uid : N }.
End BaseTexture.

Module Texture.
Record t {num : Type} := mk {
  baseTexture : BaseTexture.t;
  frame : Rectangle.t num;
  height : num;
  _uvs : TextureUvs.t num }.
Arguments t : clear implicits.
Arguments mk {num}.
End Texture.

(** One glyph of a [BitmapFont]: [data.chars[charCode]]. *)
Module CharData.
Record t {num : Type} := mk {
  xOffset : num;
  yOffset : num;
  xAdvance : num;
  kerning : gmap Z num;
  texture : Texture.t num }.
Arguments t : clear implicits.
Arguments mk {num}.
End CharData.

(** A registered [BitmapFont]: the glyph metrics source. *)
Module BitmapFont.
Record t {num : Type} := mk {
  size : num;
  lineHeight : num;
  chars : gmap Z (CharData.t num) }.
Arguments t : clear implicits.
Arguments mk {num}.
End BitmapFont.

(** What [BitmapFont.available[name]] evaluates to when it is not
    [undefined].  The registry is a plain object, so that the lookup
    finds a registered font or, for a name that is not registered, a
    property that every object inherits from [Object.prototype]: a function,
    or the prototype itself, none of which has a [size], a [lineHeight] or
    [chars]. *)
Inductive FontData {num : Type} :=
| Registered (font : BitmapFont.t num)
| Inherited.
Arguments FontData : clear implicits.
Arguments Registered {num}.
Arguments Inherited {num}.

Coercion Registered : BitmapFont.t >-> FontData.

(** The names of the properties of [Object.prototype]. *)
Definition objectPrototype : list string :=
  [ "constructor"; "hasOwnProperty"; "isPrototypeOf"; "propertyIsEnumerable";
    "toLocaleString"; "toString"; "valueOf"; "__defineGetter__";
    "__defineSetter__"; "__lookupGetter__"; "__lookupSetter__"; "__proto__" ]%string.

(** [interface CharRenderData].  [ref] is the identity of the JavaScript
    object: the pool hands the same object out again, and the pass assigns
    all its other fields before it reads any of them. *)
Module CharRenderData.
Record t {num : Type} := mk {
  ref : nat;
  texture : Texture.t num;
  line : nat;
  charCode : Z;
  position : Point.t num }.
Arguments t : clear implicits.
Arguments mk {num}.
End CharRenderData.

(** [interface PageMeshData].  [mesh] is the index of the page's [Mesh] in
    the store of meshes; a [PageMeshData] keeps its mesh for life, so [mesh]
    also identifies the [PageMeshData] object.  A [Float32Array] is a list of
    numbers, a [Uint16Array] a list of integers below [2^16]. *)
Module PageMeshData.
Record t {num : Type} := mk {
  index : nat;
  indexCount : nat;
  vertexCount : nat;
  uvsCount : nat;
  total : nat;
  mesh : nat;
  vertices : option (list num);
  uvs : option (list num);
  indices : option (list Z) }.
Arguments t : clear implicits.
Arguments mk {num}.
End PageMeshData.

(** Modelled from the spec: the page mesh of @pixi/mesh, whose class is not
    part of this source file.  The GPU buffer contract gives each page mesh a
    settable [size] (draw-element count) and three buffers (position,
    texcoord, index) that accept a raw numeric array; the scene attachment
    contract gives it a parent; the texture is known by its page. *)
Module Mesh.
Record t {num : Type} := mk {
  texture : option N;          (* page of [mesh.texture]; [None] is [Texture.EMPTY] *)
  tint : Z;
  size : nat;
  parent : option nat;
  aVertexPosition : option (list num);
  aTextureCoord : option (list num);
  indexBuffer : option (list Z) }.
Arguments t : clear implicits.
Arguments mk {num}.
End Mesh.

(** [this._font]. *)
Module Font.
Record t {num : Type} := mk {
  name : option string;        (* [None] is [null] *)
  size : num;
  tint : Z;
  align : string }.
Arguments t : clear implicits.
Arguments mk {num}.
End Font.

(** The [BitmapText] object.  [oid] is the identity of the object, which
    the scene graph compares with a mesh's parent. *)
Record BitmapText {num : Type} := mkBitmapText {
  oid : nat;
  roundPixels : bool;
  dirty : bool;
  _textWidth : num;
  _textHeight : num;
  _text : string;
  _maxWidth : num;
  _maxLineHeight : num;
  _letterSpacing : num;
  _anchor : Point.t num;
  _font : Font.t num;
  _currentMeshes : list nat;
  _tint : Z }.
Arguments BitmapText : clear implicits.
Arguments mkBitmapText {num}.

(** What a [BitmapText] shares with every other one: the registry of fonts
    ([available] holds the registered fonts, the own properties of the
    registry), the two module-level pools and the meshes.  A pool is only
    pushed to and popped from, and is kept as a stack: the head of the list
    is the last element of the JavaScript array.  [layoutPasses] is a ghost
    counter of the layout passes that ran to completion. *)
Record World {num : Type} := mkWorld {
  available : gmap string (BitmapFont.t num);
  pageMeshDataPool : list (PageMeshData.t num);
  charRenderDataPool : list (CharRenderData.t num);
  nextRef : nat;
  meshes : list (Mesh.t num);
  ROUND_PIXELS : bool;
  layoutPasses : nat }.
Arguments World : clear implicits.
Arguments mkWorld {num}.

Inductive error :=
| TypeError          (* a property of [undefined] was read *)
| RemoveItemsRange   (* [removeItems] was called outside what its description covers *)
| OutOfFuel.         (* the bound on the iterations of the scan was reached *)

(** ** Strings *)

Definition charCode_of (a : ascii) : Z := Z.of_nat (nat_of_ascii a).

(** The code units of a string. *)
Fixpoint codeUnits (s : string) : list Z :=
  match s with
  | EmptyString => []
  | String a r => charCode_of a :: codeUnits r
  end.

(** [text.charCodeAt(i)]; [None] is [NaN], the result out of range. *)
Definition charCodeAt (s : string) (i : Z) : option Z :=
  if i <? 0 then None else codeUnits s !! Z.to_nat i.

(** [/(?:\s)/.test(char)] on the character with this code unit. *)
Definition isWhitespace (c : Z) : bool :=
  (c =? 9) || (c =? 10) || (c =? 11) || (c =? 12) || (c =? 13) || (c =? 32)
  || (c =? 160) || (c =? 5760) || ((8192 <=? c) && (c <=? 8202))
  || (c =? 8232) || (c =? 8233) || (c =? 8239) || (c =? 8287)
  || (c =? 12288) || (c =? 65279).

(** [char === '\r' || char === '\n'] *)
Definition isLineBreak (c : Z) : bool := (c =? 13) || (c =? 10).

Definition CR : ascii := ascii_of_nat 13.
Definition LF : ascii := ascii_of_nat 10.

(** [s.replace(/(?:\r\n|\r)/g, '\n')] *)
Fixpoint replaceLineBreaks (s : string) : string :=
  match s with
  | EmptyString => EmptyString
  | String a r =>
      if Ascii.eqb a CR then
        match r with
        | String b r' =>
            if Ascii.eqb b LF then String LF (replaceLineBreaks r')
            else String LF (replaceLineBreaks r)
        | EmptyString => String LF EmptyString
        end
      else String a (replaceLineBreaks r)
  end.

(** [this._text.replace(/(?:\r\n|\r)/g, '\n') || ' '] *)
Definition normalizedText (s : string) : string :=
  match replaceLineBreaks s with
  | EmptyString => " "%string
  | t => t
  end.

(** Modelled from the spec: [removeItems] of @pixi/utils, which is not part
    of this source file.  The soft wrap uses it to "remove all records from
    just after the bookmark through the current character": the call
    [removeItems(arr, startIdx, removeCount)] removes [removeCount] entries
    of [arr] from index [startIdx] on, or all the entries from [startIdx] on
    when there are fewer; it leaves the array alone when [startIdx] is at
    or past its end or [removeCount] is 0.  A negative start or count is not
    covered by that description, and gets no result. *)
Definition removeItems {A : Type} (arr : list A) (startIdx removeCount : Z)
  : option (list A) :=
  if (startIdx <? 0) || (removeCount <? 0) then None
  else if (Z.of_nat (length arr) <=? startIdx) || (removeCount =? 0) then Some arr
  else Some (take (Z.to_nat startIdx) arr
             ++ drop (Z.to_nat (startIdx + removeCount)) arr).

(** ** The layout pass: [updateText] *)

(** The local variables of the first loop of [updateText] (lines 207-221),
    with the loop counter [i]. *)
Record Scan {num : Type} := mkScan {
  i : Z;
  pos : Point.t num;
  chars : list (CharRenderData.t num);
  lineWidths : list num;
  prevCharCode : option Z;       (* [None] is [null] *)
  lastLineWidth : num;
  maxLineWidth : num;
  line : nat;
  lastBreakPos : Z;
  lastBreakWidth : num;
  spacesRemoved : Z;
  maxLineHeight : num }.
Arguments Scan : clear implicits.
Arguments mkScan {num}.

(** The pool of character records, with the source of fresh identities. *)
Record CharPool {num : Type} := mkCharPool {
  free : list (CharRenderData.t num);
  fresh : nat }.
Arguments CharPool : clear implicits.
Arguments mkCharPool {num}.

Inductive scanResult {num : Type} :=
| Scanned (s : Scan num) (p : CharPool num)
| ScanFailed (e : error) (p : CharPool num).
Arguments scanResult : clear implicits.

Section Layout.
Context {num : Type} `{JsNumber num}.

(** [charRenderDataPool.pop()], or a new object when the pool is empty
    (lines 259-269): the identity of the record and the pool left. *)
Definition takeCharRenderData (p : CharPool num) : nat * CharPool num :=
  match free p with
  | r :: rest => (CharRenderData.ref r, mkCharPool rest (fresh p))
  | [] => (fresh p, mkCharPool [] (S (fresh p)))
  end.

(** [prevCharCode && charData.kerning[prevCharCode]] (line 254): the
    kerning amount when the test holds. *)
Definition kerningFor (charData : CharData.t num) (prevCharCode : option Z)
  : option num :=
  match prevCharCode with
  | None => None
  | Some p =>
      if p =? 0 then None
      else match CharData.kerning charData !! p with
           | Some k => if ntruthy k then Some k else None
           | None => None
           end
  end.

(** [data.size], [data.lineHeight] and [data.chars] of the value that the
    lookup of the font gave: a property of [Object.prototype] has none of
    them, and the read gives [undefined] ([None], for [data.chars]). *)
Definition data_size (data : FontData num) : num :=
  match data with
  | Registered font => BitmapFont.size font
  | Inherited => nundefined
  end.

Definition data_lineHeight (data : FontData num) : num :=
  match data with
  | Registered font => BitmapFont.lineHeight font
  | Inherited => nundefined
  end.

Definition data_chars (data : FontData num) : option (gmap Z (CharData.t num)) :=
  match data with
  | Registered font => Some (BitmapFont.chars font)
  | Inherited => None
  end.

Section Scanning.
Variable data : FontData num.
Variable text : string.
Variable letterSpacing : num.
Variable maxWidth : num.

(** The body of the loop over the characters (lines 226-298), given
    [charCode = text.charCodeAt(i)] of line 225.  The result has [i] as
    the body leaves it; the loop adds 1.  Line 247 reads a property of
    [data.chars], and throws when that is [undefined]. *)
Definition scanBodyAt (charCode : option Z) (s : Scan num) (p : CharPool num)
  : scanResult num :=
  let isSpace := from_option isWhitespace false charCode in
  let lastBreakPos1 := if isSpace then i s else lastBreakPos s in
  let lastBreakWidth1 := if isSpace then lastLineWidth s else lastBreakWidth s in
  if from_option isLineBreak false charCode then
    Scanned
      (mkScan (i s)
         (Point.mk nzero (nadd (Point.y (pos s)) (data_lineHeight data)))
         (chars s)
         (lineWidths s ++ [lastLineWidth s])
         None
         (lastLineWidth s)
         (nmax (maxLineWidth s) (lastLineWidth s))
         (S (line s))
         lastBreakPos1 lastBreakWidth1
         (spacesRemoved s + 1)
         (maxLineHeight s)) p
  else
    match data_chars data with
    | None => ScanFailed TypeError p
    | Some glyphs =>
        match charCode ≫= (fun c => glyphs !! c) with
        | None =>
            Scanned
              (mkScan (i s) (pos s) (chars s) (lineWidths s) (prevCharCode s)
                 (lastLineWidth s) (maxLineWidth s) (line s)
                 lastBreakPos1 lastBreakWidth1 (spacesRemoved s) (maxLineHeight s)) p
        | Some charData =>
            let c := default 0 charCode in
            let x1 :=
              match kerningFor charData (prevCharCode s) with
              | Some k => nadd (Point.x (pos s)) k
              | None => Point.x (pos s)
              end in
            let '(ref, p') := takeCharRenderData p in
            let charRenderData :=
              CharRenderData.mk ref (CharData.texture charData) (line s) c
                (Point.mk
                   (nadd (nadd x1 (CharData.xOffset charData)) (ndiv letterSpacing ntwo))
                   (nadd (Point.y (pos s)) (CharData.yOffset charData))) in
            let chars1 := chars s ++ [charRenderData] in
            let x2 := nadd x1 (nadd (CharData.xAdvance charData) letterSpacing) in
            let maxLineHeight1 :=
              nmax (maxLineHeight s)
                (nadd (CharData.yOffset charData)
                   (Texture.height (CharData.texture charData))) in
            if negb (lastBreakPos1 =? -1) && ngt maxWidth nzero && ngt x2 maxWidth then
              let spacesRemoved1 := spacesRemoved s + 1 in
              match removeItems chars1 (1 + lastBreakPos1 - spacesRemoved1)
                      (1 + i s - lastBreakPos1) with
              | None => ScanFailed RemoveItemsRange p'
              | Some chars2 =>
                  Scanned
                    (mkScan lastBreakPos1
                       (Point.mk nzero (nadd (Point.y (pos s)) (data_lineHeight data)))
                       chars2
                       (lineWidths s ++ [lastBreakWidth1])
                       None
                       x2
                       (nmax (maxLineWidth s) lastBreakWidth1)
                       (S (line s))
                       (-1) lastBreakWidth1
                       spacesRemoved1
                       maxLineHeight1) p'
              end
            else
              Scanned
                (mkScan (i s) (Point.mk x2 (Point.y (pos s))) chars1 (lineWidths s)
                   (Some c) x2 (maxLineWidth s) (line s)
                   lastBreakPos1 lastBreakWidth1 (spacesRemoved s) maxLineHeight1) p'
        end
    end.

(** Lines 225-298 for the current [i]. *)
Definition scanBody (s : Scan num) (p : CharPool num) : scanResult num :=
  scanBodyAt (charCodeAt text (i s)) s p.

(** [i++] *)
Definition nextIndex (s : Scan num) : Scan num :=
  mkScan (i s + 1) (pos s) (chars s) (lineWidths s) (prevCharCode s)
    (lastLineWidth s) (maxLineWidth s) (line s) (lastBreakPos s)
    (lastBreakWidth s) (spacesRemoved s) (maxLineHeight s).

Definition textLength : Z := Z.of_nat (String.length text).

(** [for (let i = 0; i < textLength; i++) { ... }], with a bound on the
    number of iterations: the soft wrap moves [i] back. *)
Fixpoint scanLoop (fuel : nat) (s : Scan num) (p : CharPool num)
  : scanResult num :=
  if i s <? textLength then
    match fuel with
    | O => ScanFailed OutOfFuel p
    | S fuel' =>
        match scanBody s p with
        | Scanned s' p' => scanLoop fuel' (nextIndex s') p'
        | ScanFailed e p' => ScanFailed e p'
        end
    end
  else Scanned s p.

(** The state in which the loop is entered (lines 207-221). *)
Definition scanStart : Scan num :=
  mkScan 0 (Point.mk nzero nzero) [] [] None nzero nzero O (-1) nzero 0 nzero.

(** Iterations that are always enough (see [scanLoop_fuel]). *)
Definition scanFuel : nat := (S (String.length text) * S (String.length text))%nat.

(** Lines 301-312: the width of the last line. *)
Definition flushLastLine (s : Scan num) : Scan num :=
  let lastChar := charCodeAt text (textLength - 1) in
  if from_option isLineBreak false lastChar then s
  else
    let lastLineWidth1 :=
      if from_option isWhitespace false lastChar
      then lastBreakWidth s else lastLineWidth s in
    mkScan (i s) (pos s) (chars s) (lineWidths s ++ [lastLineWidth1])
      (prevCharCode s) lastLineWidth1 (nmax (maxLineWidth s) lastLineWidth1)
      (line s) (lastBreakPos s) (lastBreakWidth s) (spacesRemoved s)
      (maxLineHeight s).

(** Lines 223-312. *)
Definition scan (p : CharPool num) : scanResult num :=
  match scanLoop scanFuel scanStart p with
  | Scanned s p' => Scanned (flushLastLine s) p'
  | ScanFailed e p' => ScanFailed e p'
  end.
End Scanning.

(** *** Alignment (lines 314-330) *)

(** [array[i]] as an operand of arithmetic: [undefined] becomes [NaN]. *)
Definition numberAt (array : list num) (i : nat) : num :=
  default nnan (array !! i).

Definition alignOffset (align : string) (maxLineWidth : num)
    (lineWidths : list num) (i : nat) : num :=
  if String.eqb align "right" then
    nsub maxLineWidth (numberAt lineWidths i)
  else if String.eqb align "center" then
    ndiv (nsub maxLineWidth (numberAt lineWidths i)) ntwo
  else nzero.

(** [for (let i = 0; i <= line; i++)] *)
Definition lineAlignOffsets (align : string) (s : Scan num) : list num :=
  map (alignOffset align (maxLineWidth s) (lineWidths s)) (seq 0 (S (line s))).

(** *** Page batches (lines 334-384)

    [pagesMeshData] is an object with the uid of a page as key; a
    [for ... in] loop visits integer keys in ascending order, so the
    object is kept as a list of entries in ascending order of key. *)

Definition Pages : Type := list (N * PageMeshData.t num).

Fixpoint pagesLookup (uid : N) (pages : Pages) : option (PageMeshData.t num) :=
  match pages with
  | [] => None
  | (k, v) :: rest => if (k =? uid)%N then Some v else pagesLookup uid rest
  end.

(** [pagesMeshData[uid] = v] *)
Fixpoint pagesSet (uid : N) (v : PageMeshData.t num) (pages : Pages) : Pages :=
  match pages with
  | [] => [(uid, v)]
  | (k, w) :: rest =>
      if (k =? uid)%N then (uid, v) :: rest
      else if (uid <? k)%N then (uid, v) :: (k, w) :: rest
      else (k, w) :: pagesSet uid v rest
  end.

(** [pagesMeshData[uid]] changed in place by [f]. *)
Fixpoint pagesAlter (f : PageMeshData.t num -> PageMeshData.t num) (uid : N)
    (pages : Pages) : Pages :=
  match pages with
  | [] => []
  | (k, w) :: rest =>
      if (k =? uid)%N then (k, f w) :: rest else (k, w) :: pagesAlter f uid rest
  end.

Record Batching := mkBatching {
  pagesMeshData : Pages;
  meshesToAdd : list nat;
  pagePool : list (PageMeshData.t num);
  store : list (Mesh.t num) }.

(** [new Mesh(geometry, material)] with [new MeshMaterial(Texture.EMPTY)]. *)
Definition newMesh : Mesh.t num :=
  Mesh.mk None 16777215 0 None None None None.

(** [pageMeshDataPool.pop()], or a new object with a new mesh
    (lines 346-366). *)
Definition takePageMeshData (pool : list (PageMeshData.t num))
    (st : list (Mesh.t num))
  : PageMeshData.t num * list (PageMeshData.t num) * list (Mesh.t num) :=
  match pool with
  | pageMeshData :: rest => (pageMeshData, rest, st)
  | [] =>
      (PageMeshData.mk 0 0 0 0 0 (length st) None None None, [], st ++ [newMesh])
  end.

(** Lines 369-373. *)
Definition resetPageMeshData (d : PageMeshData.t num) : PageMeshData.t num :=
  PageMeshData.mk 0 0 0 0 0 (PageMeshData.mesh d)
    (PageMeshData.vertices d) (PageMeshData.uvs d) (PageMeshData.indices d).

(** Lines 375-376: the texture and the tint of the page mesh. *)
Definition stampMesh (uid : N) (tint : Z) (m : Mesh.t num) : Mesh.t num :=
  Mesh.mk (Some uid) tint (Mesh.size m) (Mesh.parent m)
    (Mesh.aVertexPosition m) (Mesh.aTextureCoord m) (Mesh.indexBuffer m).

(** [pagesMeshData[baseTextureUid].total++] *)
Definition countGlyph (d : PageMeshData.t num) : PageMeshData.t num :=
  PageMeshData.mk (PageMeshData.index d) (PageMeshData.indexCount d)
    (PageMeshData.vertexCount d) (PageMeshData.uvsCount d)
    (S (PageMeshData.total d)) (PageMeshData.mesh d)
    (PageMeshData.vertices d) (PageMeshData.uvs d) (PageMeshData.indices d).

Definition pageOf (c : CharRenderData.t num) : N :=
  BaseTexture.uid (Texture.baseTexture (CharRenderData.texture c)).

(** The body of the loop of lines 339-384. *)
Definition batchChar (tint : Z) (b : Batching) (c : CharRenderData.t num)
  : Batching :=
  let uid := pageOf c in
  let b1 :=
    match pagesLookup uid (pagesMeshData b) with
    | Some _ => b
    | None =>
        let '(pageMeshData, pool', st') := takePageMeshData (pagePool b) (store b) in
        let m := PageMeshData.mesh pageMeshData in
        mkBatching
          (pagesSet uid (resetPageMeshData pageMeshData) (pagesMeshData b))
          (meshesToAdd b ++ [m])
          pool'
          (alter (stampMesh uid tint) m st')
    end in
  mkBatching (pagesAlter countGlyph uid (pagesMeshData b1))
    (meshesToAdd b1) (pagePool b1) (store b1).

Definition batchChars (tint : Z) (chars : list (CharRenderData.t num))
    (pool : list (PageMeshData.t num)) (st : list (Mesh.t num)) : Batching :=
  fold_left (batchChar tint) chars (mkBatching [] [] pool st).

(** *** Scene attachment (lines 386-404) *)

Definition setParent (q : option nat) (m : Mesh.t num) : Mesh.t num :=
  Mesh.mk (Mesh.texture m) (Mesh.tint m) (Mesh.size m) q
    (Mesh.aVertexPosition m) (Mesh.aTextureCoord m) (Mesh.indexBuffer m).

Definition parentOf (st : list (Mesh.t num)) (m : nat) : option nat :=
  st !! m ≫= Mesh.parent.

(** Modelled from the spec: [removeChild] of the Container base class,
    which is not part of this source file; the scene attachment contract
    names it [detach(node)].  A child of this object loses its parent;
    any other node is left alone. *)
Definition removeChild (this : nat) (st : list (Mesh.t num)) (m : nat)
  : list (Mesh.t num) :=
  if bool_decide (parentOf st m = Some this) then alter (setParent None) m st
  else st.

(** Modelled from the spec: [addChild] of the Container base class, which
    is not part of this source file; the scene attachment contract names
    it [attach(node)].  The node becomes a child of this object. *)
Definition addChild (this : nat) (st : list (Mesh.t num)) (m : nat)
  : list (Mesh.t num) :=
  alter (setParent (Some this)) m st.

(** Lines 388-394. *)
Definition detachStale (this : nat) (currentMeshes meshesToAdd : list nat)
    (st : list (Mesh.t num)) : list (Mesh.t num) :=
  fold_left
    (fun st m => if bool_decide (m ∈ meshesToAdd) then st else removeChild this st m)
    currentMeshes st.

(** Lines 396-402. *)
Definition attachNew (this : nat) (meshesToAdd : list nat)
    (st : list (Mesh.t num)) : list (Mesh.t num) :=
  fold_left
    (fun st m =>
       if bool_decide (parentOf st m = Some this) then st else addChild this st m)
    meshesToAdd st.

(** *** Buffer capacity (lines 406-422) *)

(** [pageMeshData.indices?.length > 6 * total] *)
Definition fitsCurrentBuffers (d : PageMeshData.t num) : bool :=
  match PageMeshData.indices d with
  | Some ix => (6 * PageMeshData.total d <? length ix)%nat
  | None => false
  end.

(** Lines 412-417: the buffers of a page for this pass. *)
Definition sizeBuffers (d : PageMeshData.t num) : PageMeshData.t num :=
  let total := PageMeshData.total d in
  if fitsCurrentBuffers d then d
  else
    PageMeshData.mk (PageMeshData.index d) (PageMeshData.indexCount d)
      (PageMeshData.vertexCount d) (PageMeshData.uvsCount d) total
      (PageMeshData.mesh d)
      (Some (replicate (4 * 2 * total) nzero))
      (Some (replicate (4 * 2 * total) nzero))
      (Some (replicate (6 * total) 0)).

(** [pageMeshData.mesh.size = 6 * total] *)
Definition setMeshSize (n : nat) (m : Mesh.t num) : Mesh.t num :=
  Mesh.mk (Mesh.texture m) (Mesh.tint m) n (Mesh.parent m)
    (Mesh.aVertexPosition m) (Mesh.aTextureCoord m) (Mesh.indexBuffer m).

Definition sizePages (pages : Pages) : Pages :=
  map (fun kv => (kv.1, sizeBuffers kv.2)) pages.

Definition sizeMeshes (pages : Pages) (st : list (Mesh.t num))
  : list (Mesh.t num) :=
  fold_left
    (fun st kv =>
       alter (setMeshSize (6 * PageMeshData.total kv.2)) (PageMeshData.mesh kv.2) st)
    pages st.

(** *** Emission of the quads (lines 424-468) *)

(** The value a [Uint16Array] slot holds after [v] is stored into it. *)
Definition toUint16 (v : Z) : Z := v mod 65536.

(** Lines 438-443, for the glyph in slot [index] of its page. *)
Definition quadIndices (index : nat) : list Z :=
  let k := Z.of_nat index in
  map toUint16 [0 + k * 4; 1 + k * 4; 2 + k * 4; 0 + k * 4; 2 + k * 4; 3 + k * 4].

(** Lines 445-455: the four corners, as a [Float32Array] holds them. *)
Definition quadVertices (scale : num) (offsets : list num)
    (char : CharRenderData.t num) : list num :=
  let xPos :=
    nmul (nadd (Point.x (CharRenderData.position char))
            (numberAt offsets (CharRenderData.line char))) scale in
  let yPos := nmul (Point.y (CharRenderData.position char)) scale in
  let textureFrame := Texture.frame (CharRenderData.texture char) in
  map fround
    [ xPos; yPos;
      nadd xPos (nmul (Rectangle.width textureFrame) scale); yPos;
      nadd xPos (nmul (Rectangle.width textureFrame) scale);
      nadd yPos (nmul (Rectangle.height textureFrame) scale);
      xPos; nadd yPos (nmul (Rectangle.height textureFrame) scale) ].

(** Lines 457-467. *)
Definition quadUvs (char : CharRenderData.t num) : list num :=
  let textureUvs := Texture._uvs (CharRenderData.texture char) in
  map fround
    [ TextureUvs.x0 textureUvs; TextureUvs.y0 textureUvs;
      TextureUvs.x1 textureUvs; TextureUvs.y1 textureUvs;
      TextureUvs.x2 textureUvs; TextureUvs.y2 textureUvs;
      TextureUvs.x3 textureUvs; TextureUvs.y3 textureUvs ].

(** The writes of one glyph into its page: [const index = pageMesh.index++]
    and the assignments to slots [index * 6 + k] and [index * 8 + k] of the
    three arrays.  An assignment past the end of a typed array does
    nothing.  The capacity step has given the page its arrays. *)
Definition emitQuad (scale : num) (offsets : list num)
    (char : CharRenderData.t num) (d : PageMeshData.t num) : PageMeshData.t num :=
  let index := PageMeshData.index d in
  PageMeshData.mk (S index) (PageMeshData.indexCount d)
    (PageMeshData.vertexCount d) (PageMeshData.uvsCount d)
    (PageMeshData.total d) (PageMeshData.mesh d)
    (list_inserts (index * 8) (quadVertices scale offsets char)
       <$> PageMeshData.vertices d)
    (list_inserts (index * 8) (quadUvs char) <$> PageMeshData.uvs d)
    (list_inserts (index * 6) (quadIndices index) <$> PageMeshData.indices d).

Definition emitChar (scale : num) (offsets : list num) (pages : Pages)
    (char : CharRenderData.t num) : Pages :=
  pagesAlter (emitQuad scale offsets char) (pageOf char) pages.

Definition emitChars (scale : num) (offsets : list num)
    (chars : list (CharRenderData.t num)) (pages : Pages) : Pages :=
  fold_left (emitChar scale offsets) chars pages.

(** *** Anchor and publication (lines 473-514) *)

(** [this.anchor.x !== 0 || this.anchor.y !== 0] *)
Definition anchored (anchor : Point.t num) : bool :=
  negb (nstricteq (Point.x anchor) nzero) || negb (nstricteq (Point.y anchor) nzero).

(** [vertices[k] -= offset] on a [Float32Array]. *)
Definition subtractAt (k : nat) (offset : num) (vertices : list num) : list num :=
  match vertices !! k with
  | Some v => <[k := fround (nsub v offset)]> vertices
  | None => vertices
  end.

(** Lines 485-498: [n] more iterations, from [vertexCount] on. *)
Fixpoint applyAnchor (n vertexCount : nat) (anchorOffsetX anchorOffsetY : num)
    (vertices : list num) : list num :=
  match n with
  | O => vertices
  | S n' =>
      applyAnchor n' (vertexCount + 8) anchorOffsetX anchorOffsetY
        (subtractAt (vertexCount + 7) anchorOffsetY
        (subtractAt (vertexCount + 6) anchorOffsetX
        (subtractAt (vertexCount + 5) anchorOffsetY
        (subtractAt (vertexCount + 4) anchorOffsetX
        (subtractAt (vertexCount + 3) anchorOffsetY
        (subtractAt (vertexCount + 2) anchorOffsetX
        (subtractAt (vertexCount + 1) anchorOffsetY
        (subtractAt vertexCount anchorOffsetX vertices))))))))
  end.

(** Lines 478-499, for one page. *)
Definition anchorPage (anchor : Point.t num) (textWidth textHeight : num)
    (d : PageMeshData.t num) : PageMeshData.t num :=
  if anchored anchor then
    PageMeshData.mk (PageMeshData.index d) (PageMeshData.indexCount d)
      (PageMeshData.vertexCount d) (PageMeshData.uvsCount d)
      (PageMeshData.total d) (PageMeshData.mesh d)
      (applyAnchor (PageMeshData.total d) 0
         (nmul textWidth (Point.x anchor)) (nmul textHeight (Point.y anchor))
         <$> PageMeshData.vertices d)
      (PageMeshData.uvs d) (PageMeshData.indices d)
  else d.

Definition anchorPages (anchor : Point.t num) (textWidth textHeight : num)
    (pages : Pages) : Pages :=
  map (fun kv => (kv.1, anchorPage anchor textWidth textHeight kv.2)) pages.

(** Lines 503-509: the arrays of the page become the data of the three
    buffers of its mesh. *)
Definition publishBuffers (d : PageMeshData.t num) (m : Mesh.t num) : Mesh.t num :=
  Mesh.mk (Mesh.texture m) (Mesh.tint m) (Mesh.size m) (Mesh.parent m)
    (PageMeshData.vertices d) (PageMeshData.uvs d) (PageMeshData.indices d).

Definition publishPages (pages : Pages) (st : list (Mesh.t num))
  : list (Mesh.t num) :=
  fold_left (fun st kv => alter (publishBuffers kv.2) (PageMeshData.mesh kv.2) st)
    pages st.

(** Line 501 is inside the loop over the pages: it runs when there is a
    page. *)
Definition newMaxLineHeight (pages : Pages) (old : num) (maxLineHeight scale : num)
  : num :=
  match pages with
  | [] => old
  | _ :: _ => nmul maxLineHeight scale
  end.

(** *** Back to the pools (lines 516-525) *)

Definition pushAll {A : Type} (items pool : list A) : list A :=
  fold_left (fun pool item => item :: pool) items pool.

(** *** The whole pass *)

Inductive result {A : Type} :=
| Done (a : A) (o : BitmapText num) (w : World num)
| Failed (e : error) (o : BitmapText num) (w : World num).
Arguments result : clear implicits.

(** The property key that a font name is: [null] is the key "null". *)
Definition fontKey (name : option string) : string := default "null"%string name.

(** [BitmapFont.available[name]]: the registered font of that name, or the
    property of that name of [Object.prototype]; [None] is [undefined]. *)
Definition lookupFont (w : World num) (name : string) : option (FontData num) :=
  match available w !! name with
  | Some font => Some (Registered font)
  | None => if bool_decide (name ∈ objectPrototype) then Some Inherited else None
  end.

Definition withCharPool (w : World num) (p : CharPool num) : World num :=
  mkWorld (available w) (pageMeshDataPool w) (free p) (fresh p) (meshes w)
    (ROUND_PIXELS w) (layoutPasses w).

(** All that a pass computes before it changes the object: lines 205-468
    and 470-499, from the scan on. *)
Record Pass := mkPass {
  scanned : Scan num;
  charPool : CharPool num;
  batching : Batching;            (* after line 384 *)
  attached : list (Mesh.t num);   (* the meshes after line 422 *)
  emitted : Pages;                (* [pagesMeshData] after line 468 *)
  textWidth' : num;               (* line 470 *)
  textHeight' : num;              (* line 471 *)
  finalPages : Pages }.           (* [pagesMeshData] after line 499 *)

Definition scaleOf (o : BitmapText num) (data : FontData num) : num :=
  ndiv (Font.size (_font o)) (data_size data).

(** [const maxWidth = this._maxWidth * data.size / this._font.size] *)
Definition maxWidthOf (o : BitmapText num) (data : FontData num) : num :=
  ndiv (nmul (_maxWidth o) (data_size data)) (Font.size (_font o)).

Definition scanText (o : BitmapText num) (data : FontData num)
    (p : CharPool num) : scanResult num :=
  scan data (normalizedText (_text o)) (_letterSpacing o) (maxWidthOf o data) p.

Definition layoutAfterScan (o : BitmapText num) (w : World num)
    (data : FontData num) (s : Scan num) (p : CharPool num) : Pass :=
  let scale := scaleOf o data in
  let offsets := lineAlignOffsets (Font.align (_font o)) s in
  let b := batchChars (_tint o) (chars s) (pageMeshDataPool w) (meshes w) in
  let st1 := detachStale (oid o) (_currentMeshes o) (meshesToAdd b) (store b) in
  let st2 := attachNew (oid o) (meshesToAdd b) st1 in
  let sized := sizePages (pagesMeshData b) in
  let st3 := sizeMeshes sized st2 in
  let pages := emitChars scale offsets (chars s) sized in
  let textWidth := nmul (maxLineWidth s) scale in
  let textHeight :=
    nmul (nadd (Point.y (pos s)) (data_lineHeight data)) scale in
  mkPass s p b st3 pages textWidth textHeight
    (anchorPages (_anchor o) textWidth textHeight pages).

(** Lines 404, 470-471, 501-525: the object and the world after the pass. *)
Definition commitPass (o : BitmapText num) (w : World num)
    (data : FontData num) (ps : Pass) : BitmapText num * World num :=
  (mkBitmapText (oid o) (roundPixels o) (dirty o)
     (textWidth' ps) (textHeight' ps) (_text o) (_maxWidth o)
     (newMaxLineHeight (finalPages ps) (_maxLineHeight o)
        (maxLineHeight (scanned ps)) (scaleOf o data))
     (_letterSpacing o) (_anchor o) (_font o)
     (meshesToAdd (batching ps)) (_tint o),
   mkWorld (available w)
     (pushAll (map snd (finalPages ps)) (pagePool (batching ps)))
     (pushAll (chars (scanned ps)) (free (charPool ps)))
     (fresh (charPool ps))
     (publishPages (finalPages ps) (attached ps))
     (ROUND_PIXELS w)
     (S (layoutPasses w))).

(** [updateText()] *)
Definition updateText (o : BitmapText num) (w : World num) : result unit :=
  match lookupFont w (fontKey (Font.name (_font o))) with
  | None => Failed TypeError o w
  | Some data =>
      match scanText o data (mkCharPool (charRenderDataPool w) (nextRef w)) with
      | ScanFailed e p => Failed e o (withCharPool w p)
      | Scanned s p =>
          let '(o', w') := commitPass o w data (layoutAfterScan o w data s p) in
          Done tt o' w'
      end
  end.
End Layout.

Arguments result : clear implicits.
Arguments Pass : clear implicits.
Arguments Batching : clear implicits.

(** ** The object: constructor, [validate], accessors *)

Inductive AnchorArg {num : Type} :=
| AnchorNumber (value : num)
| AnchorPoint (value : Point.t num).
Arguments AnchorArg : clear implicits.

Inductive SizeArg {num : Type} :=
| SizeNumber (size : num)
| SizeString (size : string).
Arguments SizeArg : clear implicits.

(** [IBitmapTextFontDescriptor | string], or nothing. *)
Inductive FontArg {num : Type} :=
| FontUndefined
| FontString (value : string)
| FontDescriptor (name : string) (size : SizeArg num).
Arguments FontArg : clear implicits.

(** [Partial<IBitmapTextStyle>] *)
Record Style {num : Type} := mkStyle {
  style_font : FontArg num;
  style_align : option string;
  style_tint : option Z }.
Arguments Style : clear implicits.
Arguments mkStyle {num}.

(** [value.split(' ')] *)
Fixpoint splitSpaces (s : string) : list string :=
  match s with
  | EmptyString => [EmptyString]
  | String a r =>
      if Ascii.eqb a " "%char then EmptyString :: splitSpaces r
      else match splitSpaces r with
           | h :: t => String a h :: t
           | [] => [String a EmptyString]
           end
  end.

Section Object.
Context {num : Type} `{JsNumber num}.

Definition setDirty (b : bool) (o : BitmapText num) : BitmapText num :=
  mkBitmapText (oid o) (roundPixels o) b (_textWidth o) (_textHeight o)
    (_text o) (_maxWidth o) (_maxLineHeight o) (_letterSpacing o)
    (_anchor o) (_font o) (_currentMeshes o) (_tint o).

(** [validate()] (lines 556-563) *)
Definition validate (o : BitmapText num) (w : World num) : result num unit :=
  if dirty o then
    match updateText o w with
    | Done _ o' w' => Done tt (setDirty false o') w'
    | Failed e o' w' => Failed e o' w'
    end
  else Done tt o w.

(** A getter that validates first (lines 722-727, 736-741, 769-774). *)
Definition measure (field : BitmapText num -> num) (o : BitmapText num)
    (w : World num) : result num num :=
  match validate o w with
  | Done _ o' w' => Done (field o') o' w'
  | Failed e o' w' => Failed e o' w'
  end.

Definition get_maxLineHeight := measure _maxLineHeight.
Definition get_textWidth := measure _textWidth.
Definition get_textHeight := measure _textHeight.

(** [updateTransform()] and [getLocalBounds()] validate and then hand
    over to the Container base class. *)
Definition updateTransform := validate.
Definition getLocalBounds := validate.

Definition setMeshTint (value : Z) (m : Mesh.t num) : Mesh.t num :=
  Mesh.mk (Mesh.texture m) value (Mesh.size m) (Mesh.parent m)
    (Mesh.aVertexPosition m) (Mesh.aTextureCoord m) (Mesh.indexBuffer m).

(** [set tint(value)] (lines 575-585) *)
Definition set_tint (value : Z) (o : BitmapText num) (w : World num)
  : BitmapText num * World num :=
  if _tint o =? value then (o, w)
  else
    (mkBitmapText (oid o) (roundPixels o) (dirty o) (_textWidth o)
       (_textHeight o) (_text o) (_maxWidth o) (_maxLineHeight o)
       (_letterSpacing o) (_anchor o) (_font o) (_currentMeshes o) value,
     mkWorld (available w) (pageMeshDataPool w) (charRenderDataPool w)
       (nextRef w)
       (fold_left (fun st m => alter (setMeshTint value) m st)
          (_currentMeshes o) (meshes w))
       (ROUND_PIXELS w) (layoutPasses w)).

Definition withFont (f : Font.t num) (o : BitmapText num) : BitmapText num :=
  mkBitmapText (oid o) (roundPixels o) (dirty o) (_textWidth o) (_textHeight o)
    (_text o) (_maxWidth o) (_maxLineHeight o) (_letterSpacing o)
    (_anchor o) f (_currentMeshes o) (_tint o).

(** [set align(value)] (lines 598-603) *)
Definition set_align (value : string) (o : BitmapText num) : BitmapText num :=
  let f := _font o in
  setDirty true
    (withFont
       (Font.mk (Font.name f) (Font.size f) (Font.tint f)
          (if String.eqb value "" then "left"%string else value)) o).

(** Modelled from the spec: the observable point of @pixi/math, which is
    not part of this source file.  The anchor is "two-axis, observable:
    mutating it marks the object dirty": a change of either coordinate
    stores both and runs the callback given at line 175. *)
Definition observableSet (x y : num) (o : BitmapText num) : BitmapText num :=
  if negb (nstricteq (Point.x (_anchor o)) x)
     || negb (nstricteq (Point.y (_anchor o)) y)
  then
    mkBitmapText (oid o) (roundPixels o) true (_textWidth o) (_textHeight o)
      (_text o) (_maxWidth o) (_maxLineHeight o) (_letterSpacing o)
      (Point.mk x y) (_font o) (_currentMeshes o) (_tint o)
  else o.

(** [set anchor(value)] (lines 621-631) *)
Definition set_anchor (value : AnchorArg num) (o : BitmapText num)
  : BitmapText num :=
  match value with
  | AnchorNumber v => observableSet v v o
  | AnchorPoint p => observableSet (Point.x p) (Point.y p) o
  end.

Definition sizeOfArg (size : SizeArg num) : num :=
  match size with
  | SizeNumber n => n
  | SizeString s => parseInt s
  end.

(** [set font(value)] (lines 643-669) *)
Definition set_font (value : FontArg num) (o : BitmapText num) (w : World num)
  : result num unit :=
  let f := _font o in
  match value with
  | FontUndefined => Done tt o w
  | FontString EmptyString => Done tt o w
  | FontString value =>
      let valueSplit := splitSpaces value in
      let name :=
        if (length valueSplit =? 1)%nat then default EmptyString (head valueSplit)
        else String.concat " " (tail valueSplit) in
      let o1 := withFont (Font.mk (Some name) (Font.size f) (Font.tint f) (Font.align f)) o in
      if (2 <=? length valueSplit)%nat then
        Done tt
          (setDirty true
             (withFont
                (Font.mk (Some name) (parseInt (default EmptyString (head valueSplit)))
                   (Font.tint f) (Font.align f)) o)) w
      else
        match lookupFont w name with
        | None => Failed TypeError o1 w
        | Some data =>
            Done tt
              (setDirty true
                 (withFont
                    (Font.mk (Some name) (data_size data)
                       (Font.tint f) (Font.align f)) o)) w
        end
  | FontDescriptor name size =>
      Done tt
        (setDirty true
           (withFont (Font.mk (Some name) (sizeOfArg size) (Font.tint f) (Font.align f)) o))
        w
  end.

(** [set text(text)] (lines 681-691) *)
Definition set_text (text : string) (o : BitmapText num) : BitmapText num :=
  if String.eqb (_text o) text then o
  else
    mkBitmapText (oid o) (roundPixels o) true (_textWidth o) (_textHeight o)
      text (_maxWidth o) (_maxLineHeight o) (_letterSpacing o)
      (_anchor o) (_font o) (_currentMeshes o) (_tint o).

(** [set maxWidth(value)] (lines 705-713) *)
Definition set_maxWidth (value : num) (o : BitmapText num) : BitmapText num :=
  if nstricteq (_maxWidth o) value then o
  else
    mkBitmapText (oid o) (roundPixels o) true (_textWidth o) (_textHeight o)
      (_text o) value (_maxLineHeight o) (_letterSpacing o)
      (_anchor o) (_font o) (_currentMeshes o) (_tint o).

(** [set letterSpacing(value)] (lines 753-760) *)
Definition set_letterSpacing (value : num) (o : BitmapText num) : BitmapText num :=
  if negb (nstricteq (_letterSpacing o) value) then
    mkBitmapText (oid o) (roundPixels o) true (_textWidth o) (_textHeight o)
      (_text o) (_maxWidth o) (_maxLineHeight o) value
      (_anchor o) (_font o) (_currentMeshes o) (_tint o)
  else o.

(** [new BitmapText(text, style)] (lines 92-196); [this] is the identity
    of the new object. *)
Definition constructor (this : nat) (text : string) (style : Style num)
    (w : World num) : result num unit :=
  let o0 :=
    mkBitmapText this false false nzero nzero EmptyString nzero nzero nzero
      (Point.mk nzero nzero)
      (Font.mk None nzero (default 16777215 (style_tint style))
         (match style_align style with
          | Some a => if String.eqb a "" then "left"%string else a
          | None => "left"%string
          end))
      [] 16777215 in
  match set_font (style_font style) o0 w with
  | Failed e o' w' => Failed e o' w'
  | Done _ o1 w1 =>
      updateText
        (mkBitmapText this (ROUND_PIXELS w1) false nzero nzero text nzero nzero
           nzero (Point.mk nzero nzero) (_font o1) [] 16777215) w1
  end.
End Object.

(** ** Notions used in the statements *)

Section Notions.
Context {num : Type} `{JsNumber num}.

(** The character has a glyph in the font. *)
Definition hasGlyph (data : BitmapFont.t num) (c : Z) : bool :=
  bool_decide (is_Some (BitmapFont.chars data !! c)).



(** The loop over a list of code units, without the loop counter: what
    [scanLoop] does when no soft wrap moves the counter back. *)
Fixpoint scanList (data : FontData num) (letterSpacing maxWidth : num)
    (cs : list Z) (s : Scan num) (p : CharPool num) : scanResult num :=
  match cs with
  | [] => Scanned s p
  | c :: cs' =>
      match scanBodyAt data letterSpacing maxWidth (Some c) s p with
      | Scanned s' p' => scanList data letterSpacing maxWidth cs' (nextIndex s') p'
      | ScanFailed e p' => ScanFailed e p'
      end
  end.

(** A character record without its identity. *)
Definition glyphOf (c : CharRenderData.t num) : CharRenderData.t num :=
  CharRenderData.mk 0 (CharRenderData.texture c) (CharRenderData.line c)
    (CharRenderData.charCode c) (CharRenderData.position c).

(** The state of the scan without the identities of the records. *)
Definition glyphsOf (s : Scan num) : Scan num :=
  mkScan (i s) (pos s) (map glyphOf (chars s)) (lineWidths s) (prevCharCode s)
    (lastLineWidth s) (maxLineWidth s) (line s) (lastBreakPos s)
    (lastBreakWidth s) (spacesRemoved s) (maxLineHeight s).

(** Two scans end alike: with the same error, or with the same state up
    to the identities of the records. *)
Definition sameScan (r1 r2 : scanResult num) : Prop :=
  match r1, r2 with
  | Scanned s1 _, Scanned s2 _ => glyphsOf s1 = glyphsOf s2
  | ScanFailed e1 _, ScanFailed e2 _ => e1 = e2
  | _, _ => False
  end.

(** The glyphs of a page, in the order of the text. *)
Definition pageGlyphs (uid : N) (chars : list (CharRenderData.t num))
  : list (CharRenderData.t num) :=
  filter (fun c => pageOf c = uid) chars.

(** The three arrays of a [PageMeshData] go together: an index array of
    [6 * n] slots comes with vertex and UV arrays of [8 * n] slots. *)
Definition coherent (d : PageMeshData.t num) : Prop :=
  forall ix, PageMeshData.indices d = Some ix ->
    exists v u, PageMeshData.vertices d = Some v /\ PageMeshData.uvs d = Some u
      /\ (6 * length v = 8 * length ix)%nat /\ length u = length v.

(** What holds of the page batches after the glyphs [done] have been
    counted. *)
Definition counted (done : list (CharRenderData.t num)) (b : Batching num) : Prop :=
  NoDup (map fst (pagesMeshData b))
  /\ Forall coherent (pagePool b)
  /\ Forall (fun kv =>
               PageMeshData.index kv.2 = O
               /\ PageMeshData.total kv.2 = length (pageGlyphs kv.1 done)
               /\ coherent kv.2) (pagesMeshData b)
  /\ (forall uid, uid ∈ map fst (pagesMeshData b) <-> uid ∈ map pageOf done).

(** The contents of the three arrays of a page that holds the glyphs
    [gs], slot after slot. *)
Definition expectedVertices (scale : num) (offsets : list num)
    (gs : list (CharRenderData.t num)) : list num :=
  concat (map (quadVertices scale offsets) gs).

Definition expectedUvs (gs : list (CharRenderData.t num)) : list num :=
  concat (map quadUvs gs).

Definition expectedIndices (n : nat) : list Z :=
  concat (map quadIndices (seq 0 n)).

(** The vertices after the anchor offsets were subtracted from each. *)
Definition shifted (offsetX offsetY : num) (vertices : list num) : list num :=
  imap (fun k a => fround (nsub a (if Nat.even k then offsetX else offsetY)))
    vertices.

(** The page holds the glyphs [gs] in its first slots, and has room for
    [total] glyphs. *)
Definition written (scale : num) (offsets : list num)
    (gs : list (CharRenderData.t num)) (d : PageMeshData.t num) : Prop :=
  PageMeshData.index d = length gs
  /\ exists v u ix,
      PageMeshData.vertices d = Some v /\ PageMeshData.uvs d = Some u
      /\ PageMeshData.indices d = Some ix
      /\ take (length gs * 8) v = expectedVertices scale offsets gs
      /\ take (length gs * 8) u = expectedUvs gs
      /\ take (length gs * 6) ix = expectedIndices (length gs)
      /\ (6 * length v = 8 * length ix)%nat /\ length u = length v
      /\ (6 * PageMeshData.total d <= length ix)%nat.

(** What holds of the pages after the glyphs [done] of [all] have been
    emitted. *)
Definition emittedSoFar (scale : num) (offsets : list num)
    (all done : list (CharRenderData.t num)) (pages : Pages (num:=num)) : Prop :=
  NoDup (map fst pages)
  /\ Forall (fun kv =>
               PageMeshData.total kv.2 = length (pageGlyphs kv.1 all)
               /\ written scale offsets (pageGlyphs kv.1 done) kv.2) pages.

(** [o] with another anchor. *)
Definition withAnchor (anchor : Point.t num) (o : BitmapText num) : BitmapText num :=
  mkBitmapText (oid o) (roundPixels o) (dirty o) (_textWidth o) (_textHeight o)
    (_text o) (_maxWidth o) (_maxLineHeight o) (_letterSpacing o)
    anchor (_font o) (_currentMeshes o) (_tint o).

(** What [updateText] computes for [o] in [w], when it completes. *)
Definition passOf (o : BitmapText num) (w : World num) : option (Pass num) :=
  match lookupFont w (fontKey (Font.name (_font o))) with
  | None => None
  | Some data =>
      match scanText o data (mkCharPool (charRenderDataPool w) (nextRef w)) with
      | Scanned s p => Some (layoutAfterScan o w data s p)
      | ScanFailed _ _ => None
      end
  end.

(** The slots of the three arrays of a page below the draw size of its
    mesh: 8 vertex and UV slots and 6 index slots for each glyph. *)
Definition logical (d : PageMeshData.t num)
  : option (list num) * option (list num) * option (list Z) :=
  (take (PageMeshData.total d * 8) <$> PageMeshData.vertices d,
   take (PageMeshData.total d * 8) <$> PageMeshData.uvs d,
   take (PageMeshData.total d * 6) <$> PageMeshData.indices d).

(** The vertices that a pass writes for the glyphs [gs] of a page. *)
Definition finalVertices (o : BitmapText num) (data : FontData num)
    (s : Scan num) (gs : list (CharRenderData.t num)) : list num :=
  let scale := scaleOf o data in
  let textWidth := nmul (maxLineWidth s) scale in
  let textHeight :=
    nmul (nadd (Point.y (pos s)) (data_lineHeight data)) scale in
  let vs := expectedVertices scale (lineAlignOffsets (Font.align (_font o)) s) gs in
  if anchored (_anchor o)
  then shifted (nmul textWidth (Point.x (_anchor o)))
         (nmul textHeight (Point.y (_anchor o))) vs
  else vs.

(** Each of the three measurement reads of [o] in [w] returns the field of
    [o'] and leaves the object [o'] in the world [w']. *)
Definition readsGive (o : BitmapText num) (w : World num)
    (o' : BitmapText num) (w' : World num) : Prop :=
  get_textWidth o w = Done (_textWidth o') o' w'
  /\ get_textHeight o w = Done (_textHeight o') o' w'
  /\ get_maxLineHeight o w = Done (_maxLineHeight o') o' w'.

(** The bookmark as the body has it after lines 228-232. *)
Definition bookmark (text : string) (s : Scan num) : Z :=
  if from_option isWhitespace false (charCodeAt text (i s)) then i s
  else lastBreakPos s.

(** The bound of the loop: [n - low] soft wraps are left at most, and
    [n - i] iterations until the next one. *)
Definition low (s : Scan num) : Z :=
  if lastBreakPos s =? -1 then i s else lastBreakPos s.

Definition remaining (text : string) (s : Scan num) : Z :=
  let n := textLength text in
  (n - low s) * (n + 1) + (n - i s).

Definition atLoopHead (s : Scan num) : Prop :=
  0 <= i s /\ -1 <= lastBreakPos s < i s.

(** The number of soft breaks, at the positions [breaks] of the text,
    before position [p]. *)
Definition breaksBefore (breaks : list nat) (p : nat) : nat :=
  length (filter (fun w => (w < p)%nat) breaks).

(** The characters of the first [k] positions of a text that is broken at
    the positions [breaks]: the character code and the line of each
    position that is no break. *)
Definition wrappedGlyphs (codes : list Z) (breaks : list nat) (k : nat)
  : list (Z * nat) :=
  map (fun p => (default 0 (codes !! p), breaksBefore breaks p))
    (filter (fun p => p ∉ breaks) (seq 0 k)).

Definition glyphKey (c : CharRenderData.t num) : Z * nat :=
  (CharRenderData.charCode c, CharRenderData.line c).

(** The state at the head of the loop, at position [k] of a text whose
    characters all have glyphs and are no line breaks, after soft breaks at
    the positions [breaks]. *)
Definition wrappedUpTo (codes : list Z) (k : nat) (breaks : list nat)
    (s : Scan num) : Prop :=
  i s = Z.of_nat k
  /\ NoDup breaks
  /\ (forall w, w ∈ breaks ->
        (w < k)%nat /\ from_option isWhitespace false (codes !! w) = true)
  /\ map glyphKey (chars s) = wrappedGlyphs codes breaks k
  /\ line s = length breaks
  /\ spacesRemoved s = Z.of_nat (length breaks)
  /\ (lastBreakPos s = -1
      \/ exists b, lastBreakPos s = Z.of_nat b /\ (b < k)%nat
           /\ (forall w, w ∈ breaks -> (w < b)%nat)
           /\ from_option isWhitespace false (codes !! b) = true).

(** The pen's y on line [n]: [pos.y += data.lineHeight] was run [n] times
    from 0. *)
Definition lineTop (data : FontData num) (n : nat) : num :=
  Nat.iter n (fun y => nadd y (data_lineHeight data)) nzero.

(** [Math.max] folded over the widths of the lines, from 0. *)
Definition widest (lineWidths : list num) : num :=
  fold_left nmax lineWidths nzero.

(** The record is a glyph of the font, placed on its line. *)
Definition glyphOfFont (data : FontData num) (r : CharRenderData.t num) : Prop :=
  isLineBreak (CharRenderData.charCode r) = false
  /\ exists charData,
      data_chars data ≫= (fun glyphs => glyphs !! CharRenderData.charCode r)
      = Some charData
      /\ CharRenderData.texture r = CharData.texture charData
      /\ Point.y (CharRenderData.position r)
         = nadd (lineTop data (CharRenderData.line r)) (CharData.yOffset charData).

(** What each iteration of the scan keeps, about the lines. *)
Definition linesKept (data : FontData num) (text : string) (s : Scan num) : Prop :=
  length (lineWidths s) = line s
  /\ maxLineWidth s = widest (lineWidths s)
  /\ Point.y (pos s) = lineTop data (line s)
  /\ Forall (fun r => (CharRenderData.line r <= line s)%nat /\ glyphOfFont data r)
       (chars s)
  /\ (from_option isLineBreak false (charCodeAt text (i s - 1)) = true ->
      Forall (fun r => (CharRenderData.line r < line s)%nat) (chars s)).
(** The characters that get a record when no line is wrapped, from line
    [line] on: those with metrics that are no line break, each with the line
    that the line breaks before it put it on. *)
Fixpoint plainGlyphs (data : BitmapFont.t num) (codes : list Z) (line : nat)
  : list (Z * nat) :=
  match codes with
  | [] => []
  | c :: rest =>
      if isLineBreak c then plainGlyphs data rest (S line)
      else if hasGlyph data c then (c, line) :: plainGlyphs data rest line
      else plainGlyphs data rest line
  end.
(** The meshes of the page batches, page after page. *)
Definition pageMeshes (pages : Pages (num:=num)) : list nat :=
  map (fun kv => PageMeshData.mesh kv.2) pages.

(** The pools and the store of meshes go together: no two pooled batches
    have the same mesh, every pooled batch has its mesh in the store, no two
    pooled records are the same object, and the identities of the pooled
    records have been given out. *)
Definition wellFormed (w : World num) : Prop :=
  NoDup (map PageMeshData.mesh (pageMeshDataPool w))
  /\ Forall (fun d => (PageMeshData.mesh d < length (meshes w))%nat)
       (pageMeshDataPool w)
  /\ NoDup (map CharRenderData.ref (charRenderDataPool w))
  /\ Forall (fun r => (CharRenderData.ref r < nextRef w)%nat) (charRenderDataPool w).

(** The meshes of the first [n] pages of a pass: those of the batches at
    the top of the pool, and new ones at the end of the store when the pool
    has fewer. *)
Definition meshesFor (pool : list (PageMeshData.t num)) (st : list (Mesh.t num))
    (n : nat) : list nat :=
  map PageMeshData.mesh (take n pool) ++ seq (length st) (n - length pool).

(** What holds of the page batches and of the meshes while the glyphs are
    counted, in a pass that started with the pool [pool] and the meshes
    [st]. *)
Definition batched (tint : Z) (pool : list (PageMeshData.t num))
    (st : list (Mesh.t num)) (b : Batching num) : Prop :=
  let n := length (pagesMeshData b) in
  NoDup (map fst (pagesMeshData b))
  /\ pagePool b = drop n pool
  /\ meshesToAdd b = meshesFor pool st n
  /\ length (store b) = (length st + (n - length pool))%nat
  /\ pageMeshes (pagesMeshData b) ≡ₚ meshesToAdd b
  /\ (forall uid d, (uid, d) ∈ pagesMeshData b ->
        exists m, store b !! PageMeshData.mesh d = Some m
          /\ Mesh.texture m = Some uid /\ Mesh.tint m = tint)
  /\ (forall k, k ∉ meshesToAdd b -> store b !! k = st !! k).

(** The mesh of a page after a pass of the object [o]. *)
Definition publishedMesh (o : BitmapText num) (uid : N) (d : PageMeshData.t num)
  : Mesh.t num :=
  Mesh.mk (Some uid) (_tint o) (6 * PageMeshData.total d) (Some (oid o))
    (PageMeshData.vertices d) (PageMeshData.uvs d) (PageMeshData.indices d).
(** The records of the scan and of the pool are different objects, whose
    identities have been given out. *)
Definition distinctRecords (s : Scan num) (p : CharPool num) : Prop :=
  NoDup (map CharRenderData.ref (chars s ++ free p))
  /\ Forall (fun r => (CharRenderData.ref r < fresh p)%nat) (chars s ++ free p).
(** [Math.max] of the heights (y offset plus height of the texture) of
    the characters that have metrics and are no line break, folded from
    [height] on. *)
Definition tallest (data : BitmapFont.t num) (codes : list Z) (height : num) : num :=
  fold_left
    (fun h c =>
       if isLineBreak c then h
       else match BitmapFont.chars data !! c with
            | Some charData =>
                nmax h (nadd (CharData.yOffset charData)
                          (Texture.height (CharData.texture charData)))
            | None => h
            end)
    codes height.

(** What the layout of a line shows of a record: the character, its
    texture and its x. *)
Definition placedAt (r : CharRenderData.t num) : Z * Texture.t num * num :=
  (CharRenderData.charCode r, CharRenderData.texture r,
   Point.x (CharRenderData.position r)).

(** The characters, textures and x of the records of a text that is not
    wrapped, from the pen at [x] after the character [prev] on: a line
    break takes the pen back to 0 and forgets the previous character. *)
Fixpoint placedFrom (data : BitmapFont.t num) (letterSpacing : num)
    (codes : list Z) (x : num) (prev : option Z) : list (Z * Texture.t num * num) :=
  match codes with
  | [] => []
  | c :: rest =>
      if isLineBreak c then placedFrom data letterSpacing rest nzero None
      else
        match BitmapFont.chars data !! c with
        | None => placedFrom data letterSpacing rest x prev
        | Some charData =>
            let x1 :=
              match kerningFor charData prev with
              | Some k => nadd x k
              | None => x
              end in
            (c, CharData.texture charData,
             nadd (nadd x1 (CharData.xOffset charData)) (ndiv letterSpacing ntwo))
            :: placedFrom data letterSpacing rest
                 (nadd x1 (nadd (CharData.xAdvance charData) letterSpacing)) (Some c)
        end
  end.

(** The slots of the three arrays of a page from the draw size of its
    mesh on. *)
Definition beyond (d : PageMeshData.t num)
  : option (list num) * option (list num) * option (list Z) :=
  (drop (PageMeshData.total d * 8) <$> PageMeshData.vertices d,
   drop (PageMeshData.total d * 8) <$> PageMeshData.uvs d,
   drop (PageMeshData.total d * 6) <$> PageMeshData.indices d).

End Notions.

(** ** Exact arithmetic

    An instance of the arithmetic for concrete inputs: integers, on which
    double arithmetic is exact as long as the values stay small and the
    divisions leave no remainder, and which a [Float32Array] holds without
    rounding.  [None] is [NaN], and [undefined], which the arithmetic reads
    as [NaN]; a division that is not exact has no value here. *)

Module Exact.
Definition num : Type := option Z.

Definition lift2 (f : Z -> Z -> Z) (a b : num) : num :=
  match a, b with
  | Some x, Some y => Some (f x y)
  | _, _ => None
  end.

Definition div (a b : num) : num :=
  match a, b with
  | Some x, Some y =>
      if (y =? 0) || negb (x mod y =? 0) then None else Some (x / y)
  | _, _ => None
  end.

Definition gt (a b : num) : bool :=
  match a, b with
  | Some x, Some y => y <? x
  | _, _ => false
  end.

Definition stricteq (a b : num) : bool :=
  match a, b with
  | Some x, Some y => x =? y
  | _, _ => false
  end.

Definition truthy (a : num) : bool :=
  match a with
  | Some x => negb (x =? 0)
  | None => false
  end.

Definition digit (a : ascii) : option Z :=
  let c := charCode_of a in
  if (48 <=? c) && (c <=? 57) then Some (c - 48) else None.

Fixpoint digits (acc : Z) (s : string) : Z :=
  match s with
  | EmptyString => acc
  | String a r =>
      match digit a with
      | Some d => digits (acc * 10 + d) r
      | None => acc
      end
  end.

(** [parseInt] on a string that starts with a digit; [NaN] otherwise. *)
Definition parse (s : string) : num :=
  match s with
  | EmptyString => None
  | String a _ =>
      match digit a with
      | Some _ => Some (digits 0 s)
      | None => None
      end
  end.

#[export] Instance number : JsNumber num := {|
  nzero := Some 0;
  ntwo := Some 2;
  nnan := None;
  nundefined := None;
  nadd := lift2 Z.add;
  nsub := lift2 Z.sub;
  nmul := lift2 Z.mul;
  ndiv := div;
  nmax := lift2 Z.max;
  ngt := gt;
  nstricteq := stricteq;
  ntruthy := truthy;
  fround := fun a => a;
  parseInt := parse |}.
End Exact.

(** ** A small font and world for concrete runs *)

Module Sample.
Import Exact.

Definition uvs : TextureUvs.t num :=
  TextureUvs.mk (Some 0) (Some 0) (Some 1) (Some 0) (Some 1) (Some 1) (Some 0) (Some 1).

(** A glyph of 8 by 12 on the given page. *)
Definition glyphTexture (page : N) : Texture.t num :=
  Texture.mk (BaseTexture.mk page) (Rectangle.mk (Some 8) (Some 12)) (Some 12) uvs.

(** Every glyph advances the pen by 10. *)
Definition glyph (page : N) : CharData.t num :=
  CharData.mk (Some 0) (Some 0) (Some 10) ∅ (glyphTexture page).

(** Space, "a" and "c" on page 1, "b" on page 2; authored at size 16 with a
    line height of 20. *)
Definition font : BitmapFont.t num :=
  BitmapFont.mk (Some 16) (Some 20)
    (list_to_map [(32, glyph 1); (97, glyph 1); (98, glyph 2); (99, glyph 1)]).

(** The world before any [BitmapText] exists: empty pools, no mesh. *)
Definition world : World num :=
  mkWorld {[ "sample"%string := font ]} [] [] 0 [] false 0.

Definition style : Style num :=
  mkStyle (FontString "16px sample") None None.

(** A [BitmapText] that has not been laid out, with the font at its
    authored size. *)
Definition object (text : string) (maxWidth : num) : BitmapText num :=
  mkBitmapText 0 false true (Some 0) (Some 0) text maxWidth (Some 0) (Some 0)
    (Point.mk (Some 0) (Some 0))
    (Font.mk (Some "sample"%string) (Some 16) 16777215 "left") [] 16777215.
Definition newline : string := String LF EmptyString.

(** The object and the world that [new BitmapText(text, style)] leaves. *)
Definition constructed (text : string) : BitmapText num * World num :=
  match constructor 0 text style world with
  | Done _ o w => (o, w)
  | Failed _ o w => (o, w)
  end.

(** A page batch whose arrays hold exactly one glyph. *)
Definition fullBatch : PageMeshData.t num :=
  PageMeshData.mk 0 0 0 0 1 0
    (Some [Some 0; Some 0; Some 8; Some 0; Some 8; Some 12; Some 0; Some 12])
    (Some [Some 0; Some 0; Some 1; Some 0; Some 1; Some 1; Some 0; Some 1])
    (Some [0; 1; 2; 0; 2; 3]).
End Sample.


(** ** Termination of the scan *)

Section Totality.
Context {num : Type} `{JsNumber num}.
Variable data : FontData num.
Variable text : string.
Variable letterSpacing maxWidth : num.

Lemma scanBody_index s p s' p' :
  scanBody data text letterSpacing maxWidth s p = Scanned s' p' ->
  (i s' = i s /\ lastBreakPos s' = bookmark text s)
  \/ (bookmark text s <> -1 /\ i s' = bookmark text s /\ lastBreakPos s' = -1).
Proof.
  unfold scanBody, scanBodyAt, bookmark.
  destruct (from_option isLineBreak false (charCodeAt text (i s))).
  { intros [= <- <-]. left. done. }
  destruct (data_chars data) as [glyphs|]; [|done].
  destruct (charCodeAt text (i s) ≫= _) as [charData|].
  2:{ intros [= <- <-]. left. done. }
  destruct (takeCharRenderData p) as [ref q].
  destruct (negb _ && _ && _) eqn:Hwrap.
  - destruct (removeItems _ _ _); [|done].
    intros [= <- <-]. right. simpl.
    apply andb_prop in Hwrap as [Hwrap _].
    apply andb_prop in Hwrap as [Hwrap _].
    apply negb_true_iff, Z.eqb_neq in Hwrap. done.
  - intros [= <- <-]. left. done.
Qed.

Lemma scanBody_not_OutOfFuel s p q :
  scanBody data text letterSpacing maxWidth s p <> ScanFailed OutOfFuel q.
Proof. unfold scanBody, scanBodyAt. repeat (case_match; try done). Qed.

Lemma scanBody_progress s p s' p' :
  atLoopHead s -> i s < textLength text ->
  scanBody data text letterSpacing maxWidth s p = Scanned s' p' ->
  atLoopHead (nextIndex s') /\ remaining text (nextIndex s') < remaining text s.
Proof.
  intros [Hi Hb] Hlt Hbody.
  apply scanBody_index in Hbody.
  unfold atLoopHead, remaining, low, nextIndex, bookmark in *. simpl.
  destruct (from_option isWhitespace false (charCodeAt text (i s)));
    destruct Hbody as [[-> ->]|(Hne & -> & ->)]; simpl;
    repeat (match goal with |- context [?a =? ?b] => destruct (Z.eqb_spec a b) end);
    split; try nia; try lia.
Qed.

Lemma scanLoop_fuel fuel : forall s p,
  atLoopHead s -> remaining text s < Z.of_nat fuel ->
  forall q, scanLoop data text letterSpacing maxWidth fuel s p <> ScanFailed OutOfFuel q.
Proof.
  induction fuel as [|fuel IH]; intros s p Hinv Hm q; simpl.
  - destruct (Z.ltb_spec (i s) (textLength text)); [|done].
    exfalso. destruct Hinv as [Hi Hb]. unfold remaining, low in Hm.
    destruct (Z.eqb_spec (lastBreakPos s) (-1)); nia.
  - destruct (Z.ltb_spec (i s) (textLength text)); [|done].
    destruct (scanBody _ _ _ _ s p) as [s' p'|e p'] eqn:Hbody.
    + destruct (scanBody_progress _ _ _ _ Hinv ltac:(done) Hbody) as [Hinv' Hm'].
      apply IH; [done|lia].
    + intros [= -> _]. by apply scanBody_not_OutOfFuel in Hbody.
Qed.

(** The scan always ends within its bound. *)
Lemma scan_terminates p q :
  scan data text letterSpacing maxWidth p <> ScanFailed OutOfFuel q.
Proof.
  unfold scan.
  destruct (scanLoop _ _ _ _ _ _ p) as [s p'|e p'] eqn:Hl; [done|].
  intros [= -> ->]. revert Hl. apply scanLoop_fuel.
  - unfold atLoopHead, scanStart; simpl. lia.
  - unfold remaining, low, scanStart, scanFuel, textLength; simpl. nia.
Qed.

(** A value without [chars] takes no record from the pool. *)
Lemma scanLoop_pool_kept fuel :
  data_chars data = None ->
  forall s p,
    match scanLoop data text letterSpacing maxWidth fuel s p with
    | Scanned _ q | ScanFailed _ q => q = p
    end.
Proof.
  intros Hdata. induction fuel as [|fuel IH]; intros s p; simpl.
  - by destruct (_ <? _).
  - destruct (_ <? _); [|done].
    unfold scanBody, scanBodyAt. rewrite Hdata.
    destruct (from_option isLineBreak false _); [|done]. apply IH.
Qed.

(** A value with [chars] gives no TypeError. *)
Lemma scanLoop_no_TypeError fuel :
  is_Some (data_chars data) ->
  forall s p q,
    scanLoop data text letterSpacing maxWidth fuel s p <> ScanFailed TypeError q.
Proof.
  intros [glyphs Hdata]. induction fuel as [|fuel IH]; intros s p q; simpl.
  - by destruct (_ <? _).
  - destruct (_ <? _); [|done].
    destruct (scanBody _ _ _ _ s p) as [s' p'|e p'] eqn:Hbody; [apply IH|].
    intros [= -> _]. revert Hbody. unfold scanBody, scanBodyAt. rewrite Hdata.
    repeat (case_match; try done).
Qed.

(** The scan stops with a TypeError before any record was taken from the
    pool. *)
Lemma scan_TypeError p q :
  scan data text letterSpacing maxWidth p = ScanFailed TypeError q -> q = p.
Proof.
  unfold scan.
  destruct (scanLoop _ _ _ _ _ _ p) as [s p'|e p'] eqn:Hl; [done|].
  intros [= -> ->].
  destruct (data_chars data) as [glyphs|] eqn:Hdata.
  - by apply scanLoop_no_TypeError in Hl.
  - pose proof (scanLoop_pool_kept (scanFuel text) Hdata scanStart p) as Hp.
    by rewrite Hl in Hp.
Qed.
End Totality.

(** ** Stores and pages *)

Section StoreFacts.
Context {A : Type}.

(** A store after the same idempotent change was made at each of a list of
    indices. *)
Lemma lookup_fold_alter (f : A -> A) (ms : list nat) (st : list A) (k : nat) :
  (forall a, f (f a) = f a) ->
  fold_left (fun st m => alter f m st) ms st !! k
  = (if bool_decide (k ∈ ms) then f else id) <$> st !! k.
Proof.
  intros Hidem. revert st. induction ms as [|m ms IH]; intros st; simpl.
  - by destruct (st !! k).
  - rewrite IH. destruct (decide (k = m)) as [->|Hne].
    + rewrite list_lookup_alter_eq. rewrite (bool_decide_eq_true_2 (m ∈ m :: ms)) by left.
      destruct (st !! m); simpl; [|by case_bool_decide].
      case_bool_decide; simpl; by rewrite ?Hidem.
    + rewrite list_lookup_alter_ne by done.
      destruct (st !! k); simpl; [|by repeat case_bool_decide].
      rewrite (bool_decide_ext (k ∈ m :: ms) (k ∈ ms)); [done|].
      rewrite elem_of_cons. tauto.
Qed.
End StoreFacts.

Section PagesFacts.
Context {num : Type} `{JsNumber num}.
Implicit Types (pages : Pages (num:=num)) (d : PageMeshData.t num).

Lemma pagesLookup_elem_of uid pages d :
  pagesLookup uid pages = Some d -> (uid, d) ∈ pages.
Proof.
  induction pages as [|[k v] pages IH]; simpl; [done|].
  destruct (N.eqb_spec k uid) as [->|_].
  - intros [= ->]. left.
  - intros Hl. right. by apply IH.
Qed.

Lemma pagesLookup_None uid pages :
  pagesLookup uid pages = None <-> uid ∉ map fst pages.
Proof.
  induction pages as [|[k v] pages IH]; simpl.
  - split; [|done]. intros _. apply not_elem_of_nil.
  - destruct (N.eqb_spec k uid) as [->|Hne].
    + split; [done|]. intros Hn. destruct Hn. left.
    + rewrite IH. rewrite not_elem_of_cons. split; [by split|tauto].
Qed.

Lemma elem_of_pagesLookup uid pages d :
  NoDup (map fst pages) -> (uid, d) ∈ pages -> pagesLookup uid pages = Some d.
Proof.
  induction pages as [|[k v] pages IH]; simpl; intros Hnd Hin.
  - by apply elem_of_nil in Hin.
  - apply NoDup_cons in Hnd as [Hk Hnd]. apply elem_of_cons in Hin as [[= -> ->]|Hin].
    + by rewrite N.eqb_refl.
    + destruct (N.eqb_spec k uid) as [->|_]; [|by apply IH].
      destruct Hk. apply (list_elem_of_fmap_2 fst _ _ Hin).
Qed.

Lemma pagesAlter_fst f uid pages :
  map fst (pagesAlter f uid pages) = map fst pages.
Proof.
  induction pages as [|[k v] pages IH]; simpl; [done|].
  destruct (k =? uid)%N; simpl; congruence.
Qed.

Lemma pagesAlter_map f uid pages :
  NoDup (map fst pages) ->
  pagesAlter f uid pages
  = map (fun kv => if (kv.1 =? uid)%N then (kv.1, f kv.2) else kv) pages.
Proof.
  induction pages as [|[k v] pages IH]; simpl; intros Hnd; [done|].
  apply NoDup_cons in Hnd as [Hk Hnd].
  destruct (N.eqb_spec k uid) as [->|Hne]; [|by rewrite IH].
  f_equal. clear IH. induction pages as [|[k' v'] pages IH]; simpl; [done|].
  simpl in Hk. apply not_elem_of_cons in Hk as [Hk Hk'].
  apply NoDup_cons in Hnd as [_ Hnd].
  destruct (N.eqb_spec k' uid) as [->|_]; [done|]. by rewrite <- IH.
Qed.

Lemma pagesSet_perm uid d pages :
  pagesLookup uid pages = None -> pagesSet uid d pages ≡ₚ (uid, d) :: pages.
Proof.
  induction pages as [|[k v] pages IH]; simpl; [done|].
  destruct (N.eqb_spec k uid) as [->|_]; [done|]. intros Hl.
  destruct (uid <? k)%N; [done|]. rewrite IH by done. apply Permutation_swap.
Qed.

Lemma pagesLookup_sizePages uid pages :
  pagesLookup uid (sizePages pages) = sizeBuffers <$> pagesLookup uid pages.
Proof.
  induction pages as [|[k v] pages IH]; simpl; [done|].
  by destruct (k =? uid)%N.
Qed.

Lemma pagesLookup_anchorPages anchor tw th uid pages :
  pagesLookup uid (anchorPages anchor tw th pages)
  = anchorPage anchor tw th <$> pagesLookup uid pages.
Proof.
  induction pages as [|[k v] pages IH]; simpl; [done|].
  by destruct (k =? uid)%N.
Qed.
End PagesFacts.

(** ** The scan does not depend on the pool *)

Section Simulation.
Context {num : Type} `{JsNumber num}.
Variable data : FontData num.
Variable letterSpacing maxWidth : num.

Lemma removeItems_fmap {A B : Type} (f : A -> B) (l : list A) (a b : Z) :
  removeItems (map f l) a b = option_map (map f) (removeItems l a b).
Proof.
  unfold removeItems. rewrite length_map.
  destruct (_ || _); [done|]. destruct (_ || _); [done|]. simpl.
  change (map f) with (fmap (M:=list) f). by rewrite fmap_app, fmap_take, fmap_drop.
Qed.

Lemma glyphsOf_fields (s1 s2 : Scan num) :
  glyphsOf s1 = glyphsOf s2 ->
  i s1 = i s2 /\ pos s1 = pos s2 /\ map glyphOf (chars s1) = map glyphOf (chars s2)
  /\ lineWidths s1 = lineWidths s2 /\ prevCharCode s1 = prevCharCode s2
  /\ lastLineWidth s1 = lastLineWidth s2 /\ maxLineWidth s1 = maxLineWidth s2
  /\ line s1 = line s2 /\ lastBreakPos s1 = lastBreakPos s2
  /\ lastBreakWidth s1 = lastBreakWidth s2 /\ spacesRemoved s1 = spacesRemoved s2
  /\ maxLineHeight s1 = maxLineHeight s2.
Proof. intros [= ]. by split_and!. Qed.

Lemma scanBodyAt_sameScan c s1 s2 p1 p2 :
  glyphsOf s1 = glyphsOf s2 ->
  sameScan (scanBodyAt data letterSpacing maxWidth c s1 p1)
           (scanBodyAt data letterSpacing maxWidth c s2 p2).
Proof.
  intros Hg. apply glyphsOf_fields in Hg
    as (Hi & Hpos & Hch & Hlw & Hpc & Hllw & Hmlw & Hl & Hlb & Hlbw & Hsr & Hmh).
  unfold scanBodyAt.
  rewrite <- Hi, <- Hpos, <- Hlw, <- Hpc, <- Hllw, <- Hmlw, <- Hl, <- Hlb, <- Hlbw,
    <- Hsr, <- Hmh.
  destruct (from_option isLineBreak false c).
  { simpl. unfold glyphsOf; simpl. by rewrite Hch. }
  destruct (data_chars data) as [glyphs|]; [|done].
  destruct (c ≫= _) as [charData|].
  2:{ simpl. unfold glyphsOf; simpl. by rewrite Hch. }
  destruct (takeCharRenderData p1) as [ref1 q1].
  destruct (takeCharRenderData p2) as [ref2 q2].
  set (r1 := CharRenderData.mk ref1 _ _ _ _).
  set (r2 := CharRenderData.mk ref2 _ _ _ _).
  assert (Hch' : map glyphOf (chars s1 ++ [r1]) = map glyphOf (chars s2 ++ [r2])).
  { rewrite !map_app. by rewrite Hch. }
  destruct (negb _ && _ && _).
  - pose proof (removeItems_fmap glyphOf (chars s1 ++ [r1])
                  (1 + (if from_option isWhitespace false c then i s1 else lastBreakPos s1)
                   - (spacesRemoved s1 + 1))
                  (1 + i s1
                   - (if from_option isWhitespace false c then i s1 else lastBreakPos s1)))
    as E1.
    pose proof (removeItems_fmap glyphOf (chars s2 ++ [r2])
                  (1 + (if from_option isWhitespace false c then i s1 else lastBreakPos s1)
                   - (spacesRemoved s1 + 1))
                  (1 + i s1
                   - (if from_option isWhitespace false c then i s1 else lastBreakPos s1)))
    as E2.
    rewrite Hch' in E1. rewrite E1 in E2.
    destruct (removeItems (chars s1 ++ [r1]) _ _) as [l1|];
      destruct (removeItems (chars s2 ++ [r2]) _ _) as [l2|]; simpl in *; try done.
    injection E2 as E2. unfold glyphsOf; simpl. by rewrite E2.
  - simpl. unfold glyphsOf; simpl. by rewrite Hch'.
Qed.

Lemma glyphsOf_nextIndex (s1 s2 : Scan num) :
  glyphsOf s1 = glyphsOf s2 -> glyphsOf (nextIndex s1) = glyphsOf (nextIndex s2).
Proof. intros [= ]. unfold glyphsOf, nextIndex; simpl. congruence. Qed.

Lemma scanLoop_sameScan text fuel : forall s1 s2 p1 p2,
  glyphsOf s1 = glyphsOf s2 ->
  sameScan (scanLoop data text letterSpacing maxWidth fuel s1 p1)
           (scanLoop data text letterSpacing maxWidth fuel s2 p2).
Proof.
  induction fuel as [|fuel IH]; intros s1 s2 p1 p2 Hg; simpl;
    assert (Hi : i s1 = i s2) by (by injection Hg); rewrite <- Hi;
    destruct (i s1 <? textLength text); try done.
  unfold scanBody. rewrite <- Hi.
  pose proof (scanBodyAt_sameScan (charCodeAt text (i s1)) s1 s2 p1 p2 Hg) as Hb.
  destruct (scanBodyAt _ _ _ _ s1 p1) as [t1 q1|e1 q1];
    destruct (scanBodyAt _ _ _ _ s2 p2) as [t2 q2|e2 q2]; simpl in Hb; try done.
  apply IH. by apply glyphsOf_nextIndex.
Qed.

Lemma scan_sameScan text p1 p2 :
  sameScan (scan data text letterSpacing maxWidth p1)
           (scan data text letterSpacing maxWidth p2).
Proof.
  unfold scan.
  pose proof (scanLoop_sameScan text (scanFuel text) scanStart scanStart p1 p2 eq_refl) as Hl.
  destruct (scanLoop _ _ _ _ _ _ p1) as [t1 q1|e1 q1];
    destruct (scanLoop _ _ _ _ _ _ p2) as [t2 q2|e2 q2]; simpl in *; try done.
  apply glyphsOf_fields in Hl
    as (Hi & Hpos & Hch & Hlw & Hpc & Hllw & Hmlw & Hl & Hlb & Hlbw & Hsr & Hmh).
  unfold flushLastLine, glyphsOf.
  rewrite <- Hi, <- Hpos, <- Hlw, <- Hpc, <- Hllw, <- Hmlw, <- Hl, <- Hlb, <- Hlbw,
    <- Hsr, <- Hmh.
  destruct (from_option isLineBreak false _); simpl; rewrite Hch; f_equal; congruence.
Qed.
End Simulation.

(** ** The scan without soft wrap *)

Section NoWrap.
Context {num : Type} `{JsNumber num}.
Variable data : BitmapFont.t num.
Variable letterSpacing maxWidth : num.

Lemma codeUnits_length text : length (codeUnits text) = String.length text.
Proof. induction text; simpl; congruence. Qed.



Hypothesis noWrap : ngt maxWidth nzero = false.

Lemma scanBodyAt_noWrap c s p :
  exists s' p',
    scanBodyAt data letterSpacing maxWidth c s p = Scanned s' p' /\ i s' = i s
    /\ length (chars s')
       = (length (chars s)
          + if from_option (fun c => negb (isLineBreak c) && hasGlyph data c) false c
            then 1 else 0)%nat.
Proof.
  unfold scanBodyAt, hasGlyph.
  destruct c as [c|]; cbn [from_option mbind option_bind default data_chars negb andb].
  2:{ do 2 eexists. split_and!; [done|done|simpl; lia]. }
  destruct (isLineBreak c); cbn [negb andb].
  { do 2 eexists. split_and!; [done|done|simpl; lia]. }
  destruct (BitmapFont.chars data !! c) as [charData|] eqn:Hc.
  2:{ do 2 eexists. split_and!; [done|done|].
      rewrite bool_decide_eq_false_2 by (by intros [? ?]). simpl. lia. }
  rewrite bool_decide_eq_true_2 by eauto.
  destruct (takeCharRenderData p) as [ref q].
  rewrite noWrap, andb_false_r. cbn [andb].
  do 2 eexists. split_and!; [done|done|cbn [chars]].
  rewrite length_app. simpl. lia.
Qed.



Lemma scanList_noWrap cs : forall s p,
  exists s' p',
    scanList data letterSpacing maxWidth cs s p = Scanned s' p'
    /\ length (chars s')
       = (length (chars s)
          + length (filter (fun c => negb (isLineBreak c) && hasGlyph data c = true) cs))%nat.
Proof.
  induction cs as [|c cs IH]; intros s p; simpl.
  - do 2 eexists. split; [done|]. simpl. lia.
  - destruct (scanBodyAt_noWrap (Some c) s p) as (s1 & p1 & -> & _ & Hlen).
    destruct (IH (nextIndex s1) p1) as (s2 & p2 & -> & Hlen2).
    do 2 eexists. split; [done|]. rewrite Hlen2. simpl. rewrite Hlen. simpl.
    destruct (negb (isLineBreak c) && hasGlyph data c) eqn:Hk; simpl.
    + rewrite filter_cons_True by done. simpl. lia.
    + rewrite filter_cons_False by (by rewrite Hk). lia.
Qed.


Lemma scanLoop_noWrap text fuel : forall s p,
  0 <= i s -> (textLength text - i s <= Z.of_nat fuel) ->
  scanLoop data text letterSpacing maxWidth fuel s p
  = scanList data letterSpacing maxWidth (drop (Z.to_nat (i s)) (codeUnits text)) s p.
Proof.
  induction fuel as [|fuel IH]; intros s p Hi Hf; simpl.
  - destruct (Z.ltb_spec (i s) (textLength text)); [lia|].
    rewrite drop_ge; [done|]. rewrite codeUnits_length. unfold textLength in *. lia.
  - destruct (Z.ltb_spec (i s) (textLength text)) as [Hlt|Hge].
    + unfold textLength in Hlt.
      destruct (lookup_lt_is_Some_2 (codeUnits text) (Z.to_nat (i s))) as [c Hc].
      { rewrite codeUnits_length. lia. }
      rewrite (drop_S _ _ _ Hc). simpl. unfold scanBody, charCodeAt.
      destruct (Z.ltb_spec (i s) 0); [lia|]. rewrite Hc.
      destruct (scanBodyAt_noWrap (Some c) s p) as (s1 & p1 & -> & Hi1 & _).
      rewrite IH; simpl; [|lia|unfold textLength in *; lia].
      rewrite Hi1. by replace (Z.to_nat (i s + 1)) with (S (Z.to_nat (i s))) by lia.
    + rewrite drop_ge; [done|]. rewrite codeUnits_length. unfold textLength in *. lia.
Qed.

Lemma scanFuel_enough text : textLength text - 0 <= Z.of_nat (scanFuel text).
Proof. unfold scanFuel, textLength. nia. Qed.






End NoWrap.

(** ** Page batches *)

Section Batch.
Context {num : Type} `{JsNumber num}.
Variable tint : Z.

Lemma pageGlyphs_snoc uid done (c : CharRenderData.t num) :
  pageGlyphs uid (done ++ [c])
  = pageGlyphs uid done ++ (if decide (pageOf c = uid) then [c] else []).
Proof.
  unfold pageGlyphs. by rewrite filter_app.
Qed.

Lemma pageGlyphs_nil uid (chars : list (CharRenderData.t num)) :
  uid ∉ map pageOf chars -> pageGlyphs uid chars = [].
Proof.
  induction chars as [|c chars IH]; simpl; [done|].
  intros Hn. apply not_elem_of_cons in Hn as [Hne Hn].
  unfold pageGlyphs. rewrite filter_cons_False by done. by apply IH.
Qed.

Lemma takePageMeshData_coherent pool st d pool' st' :
  Forall coherent pool ->
  takePageMeshData (num:=num) pool st = (d, pool', st') ->
  coherent d /\ Forall coherent pool'.
Proof.
  unfold takePageMeshData. destruct pool as [|x pool]; intros Hall.
  - intros [= <- <- <-]. split; [|done]. intros ix. simpl. done.
  - intros [= <- <- <-]. by apply Forall_cons in Hall.
Qed.

Lemma batchChar_counted done (b : Batching num) (c : CharRenderData.t num) :
  counted done b -> counted (done ++ [c]) (batchChar tint b c).
Proof.
  intros (Hnd & Hpool & Hall & Hkeys). unfold batchChar.
  set (uid := pageOf c).
  assert (Hstep : forall b1 : Batching num,
    NoDup (map fst (pagesMeshData b1)) ->
    Forall coherent (pagePool b1) ->
    Forall (fun kv =>
              PageMeshData.index kv.2 = O
              /\ PageMeshData.total kv.2 = length (pageGlyphs kv.1 done)
              /\ coherent kv.2) (pagesMeshData b1) ->
    (forall k, k ∈ map fst (pagesMeshData b1) <-> k = uid \/ k ∈ map pageOf done) ->
    counted (done ++ [c])
      (mkBatching (pagesAlter countGlyph uid (pagesMeshData b1))
         (meshesToAdd b1) (pagePool b1) (store b1))).
  { intros b1 Hnd1 Hpool1 Hall1 Hkeys1. unfold counted; simpl.
    rewrite pagesAlter_fst. split_and!; [done|done| |].
    - rewrite pagesAlter_map by done. apply Forall_fmap.
      eapply Forall_impl; [exact Hall1|]. intros [k d] (Hi & Ht & Hc); simpl in *.
      rewrite pageGlyphs_snoc, length_app. fold uid.
      destruct (N.eqb_spec k uid) as [->|Hne]; simpl.
      + rewrite decide_True by done. simpl. split_and!; [done|lia|done].
      + rewrite decide_False by done. simpl. split_and!; [done|lia|done].
    - intros k. rewrite Hkeys1, map_app. simpl. rewrite elem_of_app, list_elem_of_singleton.
      fold uid. tauto. }
  destruct (pagesLookup uid (pagesMeshData b)) as [d|] eqn:Hl.
  - apply Hstep; try done. intros k. rewrite Hkeys. split; [by right|].
    intros [->|?]; [|done]. apply Hkeys.
    apply pagesLookup_elem_of in Hl. apply (list_elem_of_fmap_2 fst _ _ Hl).
  - destruct (takePageMeshData (pagePool b) (store b)) as [[d pool'] st'] eqn:Ht.
    destruct (takePageMeshData_coherent _ _ _ _ _ Hpool Ht) as [Hd Hpool'].
    apply Hstep; simpl.
    + rewrite (pagesSet_perm _ _ _ Hl). simpl. apply NoDup_cons. split; [|done].
      by apply pagesLookup_None.
    + done.
    + rewrite (pagesSet_perm _ _ _ Hl). apply Forall_cons. split; [|done]. simpl.
      split_and!; [done| |done].
      apply pagesLookup_None in Hl. rewrite Hkeys in Hl.
      by rewrite pageGlyphs_nil.
    + intros k. rewrite (pagesSet_perm _ _ _ Hl). simpl. rewrite elem_of_cons, Hkeys. done.
Qed.

Lemma batchChars_counted cs : forall done (b : Batching num),
  counted done b -> counted (done ++ cs) (fold_left (batchChar tint) cs b).
Proof.
  induction cs as [|c cs IH]; intros done b Hb; simpl.
  - by rewrite app_nil_r.
  - replace (done ++ c :: cs) with ((done ++ [c]) ++ cs) by (by rewrite <- app_assoc).
    apply IH. by apply batchChar_counted.
Qed.

Lemma batchChars_start (chars : list (CharRenderData.t num)) pool st :
  Forall coherent pool -> counted chars (batchChars tint chars pool st).
Proof.
  intros Hpool. apply (batchChars_counted chars [] (mkBatching [] [] pool st)).
  unfold counted; simpl. split_and!; [constructor|done|done|done].
Qed.
End Batch.

Section Emission.
Context {num : Type} `{JsNumber num}.
Variable scale : num.
Variable offsets : list num.

Lemma take_inserts_block {A : Type} (k n : nat) (q v E : list A) :
  length q = n -> (k * n + n <= length v)%nat -> take (k * n) v = E ->
  take (S k * n) (list_inserts (k * n) q v) = E ++ q.
Proof.
  intros Hq Hlen HE.
  rewrite <- (take_drop (k * n) v) at 1. rewrite HE.
  assert (HlenE : length E = (k * n)%nat).
  { rewrite <- HE. rewrite length_take. lia. }
  replace (k * n)%nat with (length E + 0)%nat at 1 by lia.
  rewrite list_inserts_app_r.
  rewrite <- (take_drop n (drop (k * n) v)).
  rewrite list_inserts_0_r.
  2:{ rewrite length_take, length_drop. lia. }
  rewrite app_assoc. apply take_app_length'. rewrite length_app. simpl. lia.
Qed.

Lemma expectedIndices_S n : expectedIndices (S n) = expectedIndices n ++ quadIndices n.
Proof.
  unfold expectedIndices. rewrite seq_S, map_app, concat_app. simpl.
  by rewrite ?app_nil_r.
Qed.

Lemma emitQuad_written gs c (d : PageMeshData.t num) :
  written scale offsets gs d -> (length gs < PageMeshData.total d)%nat ->
  written scale offsets (gs ++ [c]) (emitQuad scale offsets c d)
  /\ PageMeshData.total (emitQuad scale offsets c d) = PageMeshData.total d.
Proof.
  intros (Hi & v & u & ix & Hv & Hu & Hix & Ev & Eu & Eix & Hc1 & Hc2 & Hcap) Hlt.
  split; [|done]. unfold written, emitQuad. rewrite Hv, Hu, Hix, Hi.
  cbn -[list_inserts Nat.mul quadVertices quadUvs quadIndices].
  rewrite length_app. cbn [length]. split; [lia|].
  do 3 eexists. split_and!; try reflexivity.
  - replace (length gs + 1)%nat with (S (length gs)) by lia.
    unfold expectedVertices. rewrite map_app, concat_app.
    cbn [map concat]. rewrite app_nil_r.
    apply take_inserts_block; [done|lia|done].
  - replace (length gs + 1)%nat with (S (length gs)) by lia.
    unfold expectedUvs. rewrite map_app, concat_app.
    cbn [map concat]. rewrite app_nil_r.
    apply take_inserts_block; [done|lia|done].
  - replace (length gs + 1)%nat with (S (length gs)) by lia.
    rewrite expectedIndices_S.
    apply take_inserts_block; [done|lia|done].
  - rewrite !length_inserts. done.
  - rewrite !length_inserts. done.
  - rewrite length_inserts. done.
Qed.

Variable all : list (CharRenderData.t num).

Lemma emitChar_emittedSoFar done c rest pages :
  all = done ++ c :: rest ->
  emittedSoFar scale offsets all done pages ->
  emittedSoFar scale offsets all (done ++ [c]) (emitChar scale offsets pages c).
Proof.
  intros Hall [Hnd Hinv]. unfold emittedSoFar, emitChar.
  rewrite pagesAlter_fst. split; [done|].
  rewrite pagesAlter_map by done. apply Forall_fmap.
  eapply Forall_impl; [exact Hinv|]. intros [k d] [Ht Hw]; simpl in *.
  rewrite pageGlyphs_snoc.
  destruct (N.eqb_spec k (pageOf c)) as [->|Hne]; simpl.
  - rewrite decide_True by done.
    assert (Hlt : (length (pageGlyphs (pageOf c) done) < PageMeshData.total d)%nat).
    { rewrite Ht, Hall. unfold pageGlyphs. rewrite filter_app, length_app.
      rewrite filter_cons_True by done. simpl. lia. }
    destruct (emitQuad_written _ c d Hw Hlt) as [Hw' Ht']. split; [congruence|done].
  - rewrite decide_False by done. by rewrite app_nil_r.
Qed.

Lemma emitChars_emittedSoFar rest : forall done pages,
  all = done ++ rest ->
  emittedSoFar scale offsets all done pages ->
  emittedSoFar scale offsets all all (emitChars scale offsets rest pages).
Proof.
  induction rest as [|c rest IH]; intros done pages Hall Hinv; simpl.
  - rewrite app_nil_r in Hall. by subst done.
  - apply (IH (done ++ [c])).
    + by rewrite <- app_assoc.
    + by eapply emitChar_emittedSoFar.
Qed.

Lemma sizeBuffers_written (d : PageMeshData.t num) :
  PageMeshData.index d = O -> coherent d -> written scale offsets [] (sizeBuffers d)
  /\ PageMeshData.total (sizeBuffers d) = PageMeshData.total d.
Proof.
  intros Hi Hc. unfold sizeBuffers.
  destruct (fitsCurrentBuffers d) eqn:Hfit.
  - split; [|done]. unfold fitsCurrentBuffers in Hfit.
    destruct (PageMeshData.indices d) as [ix|] eqn:Hix; [|done].
    apply Nat.ltb_lt in Hfit.
    destruct (Hc ix Hix) as (v & u & Hv & Hu & Hl1 & Hl2).
    split; [done|]. exists v, u, ix. simpl. rewrite !take_0.
    split_and!; try done. lia.
  - split; [|done]. split; [done|]. simpl. do 3 eexists.
    split_and!; try reflexivity; rewrite ?length_replicate; lia.
Qed.
End Emission.

Section Anchor.
Context {num : Type} `{JsNumber num}.
Variable offsetX offsetY : num.

Local Arguments Nat.mul : simpl never.

Lemma subtractAt_lookup k offset (v : list num) j :
  subtractAt k offset v !! j
  = (if decide (j = k) then (fun a => fround (nsub a offset)) else id) <$> v !! j.
Proof.
  unfold subtractAt. destruct (v !! k) as [a|] eqn:Hk.
  - destruct (decide (j = k)) as [->|Hne].
    + rewrite list_lookup_insert_eq by (by eapply lookup_lt_Some). by rewrite Hk.
    + rewrite list_lookup_insert_ne by done. by destruct (v !! j).
  - destruct (decide (j = k)) as [->|Hne]; [by rewrite Hk|]. by destruct (v !! j).
Qed.

Lemma subtractAt_length k offset (v : list num) :
  length (subtractAt k offset v) = length v.
Proof. unfold subtractAt. destruct (v !! k); [apply length_insert|done]. Qed.

Lemma even_sub_8 a : (8 <= a)%nat -> Nat.even (a - 8) = Nat.even a.
Proof.
  intros Ha. replace a with ((a - 8) + 8)%nat at 2 by lia.
  rewrite Nat.even_add. simpl. by destruct (Nat.even (a - 8)).
Qed.

Lemma applyAnchor_lookup n : forall vertexCount (v : list num) k,
  applyAnchor n vertexCount offsetX offsetY v !! k
  = (fun a =>
       if (vertexCount <=? k)%nat && (k <? vertexCount + 8 * n)%nat
       then fround (nsub a (if Nat.even (k - vertexCount) then offsetX else offsetY))
       else a) <$> v !! k.
Proof.
  induction n as [|n IH]; intros vc v k; simpl.
  - destruct (v !! k); simpl; [|done].
    destruct (Nat.leb_spec vc k); simpl; [|done].
    destruct (Nat.ltb_spec k (vc + 8 * 0)); [lia|done].
  - rewrite IH. rewrite !subtractAt_lookup.
    destruct (v !! k) as [a|]; simpl; [|done]. f_equal.
    destruct (Nat.leb_spec (vc + 8) k) as [Hge|Hlt]; simpl.
    + repeat (rewrite decide_False by lia). simpl.
      destruct (Nat.leb_spec vc k); [|lia]. simpl.
      replace (k - (vc + 8))%nat with ((k - vc) - 8)%nat by lia.
      rewrite even_sub_8 by lia.
      destruct (Nat.ltb_spec k (vc + 8 + 8 * n)), (Nat.ltb_spec k (vc + 8 * S n));
        try lia; done.
    + destruct (Nat.leb_spec vc k) as [Hge|Hlt']; simpl.
      * destruct (Nat.ltb_spec k (vc + 8 * S n)); [|lia].
        assert (Hk : exists t, (t < 8)%nat /\ k = (vc + t)%nat) by (exists (k - vc)%nat; lia).
        destruct Hk as (t & Ht & ->).
        replace (vc + t - vc)%nat with t by lia.
        do 8 (destruct t as [|t]; [repeat (case_decide; try lia); simpl; done|]). lia.
      * repeat (rewrite decide_False by lia). done.
Qed.

Lemma applyAnchor_length n : forall vertexCount (v : list num),
  length (applyAnchor n vertexCount offsetX offsetY v) = length v.
Proof.
  induction n as [|n IH]; intros vc v; simpl; [done|].
  rewrite IH. by rewrite !subtractAt_length.
Qed.

Lemma take_applyAnchor n (v : list num) :
  take (n * 8) (applyAnchor n 0 offsetX offsetY v)
  = shifted offsetX offsetY (take (n * 8) v).
Proof.
  apply list_eq. intros k. unfold shifted. rewrite list_lookup_imap, !lookup_take.
  case_decide; [|done]. rewrite applyAnchor_lookup.
  destruct (v !! k); simpl; [|done]. f_equal.
  simpl. rewrite Nat.sub_0_r. destruct (Nat.ltb_spec k (8 * n)); [done|lia].
Qed.
End Anchor.

Section PassContent.
Context {num : Type} `{JsNumber num}.

Lemma anchorPages_fst anchor tw th (pages : Pages (num:=num)) :
  map fst (anchorPages anchor tw th pages) = map fst pages.
Proof. unfold anchorPages. rewrite map_map. done. Qed.

Lemma sizePages_fst (pages : Pages (num:=num)) :
  map fst (sizePages pages) = map fst pages.
Proof. unfold sizePages. rewrite map_map. done. Qed.

Lemma emitChars_fst scale offsets cs : forall pages : Pages (num:=num),
  map fst (emitChars scale offsets cs pages) = map fst pages.
Proof.
  induction cs as [|c cs IH]; intros pages; simpl; [done|].
  rewrite IH. apply pagesAlter_fst.
Qed.

(** The pages of a pass: one for each page of the glyphs, holding the quads
    of its glyphs in the order of the text. *)
Lemma pass_content (o : BitmapText num) (w : World num) (data : FontData num)
    (s : Scan num) (p : CharPool num) :
  Forall coherent (pageMeshDataPool w) ->
  let ps := layoutAfterScan o w data s p in
  NoDup (map fst (finalPages ps))
  /\ (forall uid, uid ∈ map fst (finalPages ps) <-> uid ∈ map pageOf (chars s))
  /\ Forall (fun kv =>
        let gs := pageGlyphs kv.1 (chars s) in
        PageMeshData.total kv.2 = length gs
        /\ coherent kv.2
        /\ exists v u ix,
            PageMeshData.vertices kv.2 = Some v /\ PageMeshData.uvs kv.2 = Some u
            /\ PageMeshData.indices kv.2 = Some ix
            /\ take (length gs * 8) v = finalVertices o data s gs
            /\ take (length gs * 8) u = expectedUvs gs
            /\ take (length gs * 6) ix = expectedIndices (length gs))
       (finalPages ps)
  /\ Forall coherent (pagePool (batching ps)).
Proof.
  intros Hpool ps.
  destruct (batchChars_start (_tint o) (chars s) _ (meshes w) Hpool)
    as (Hnd & Hpool' & Hall & Hkeys).
  set (b := batchChars (_tint o) (chars s) (pageMeshDataPool w) (meshes w)) in *.
  set (scale := scaleOf o data).
  set (offsets := lineAlignOffsets (Font.align (_font o)) s).
  assert (Hsized : emittedSoFar scale offsets (chars s) [] (sizePages (pagesMeshData b))).
  { split; [by rewrite sizePages_fst|]. unfold sizePages. apply Forall_fmap.
    eapply Forall_impl; [exact Hall|]. intros [k d] (Hi & Ht & Hc); simpl in *.
    destruct (sizeBuffers_written scale offsets d Hi Hc) as [Hw Ht'].
    split; [congruence|done]. }
  pose proof (emitChars_emittedSoFar scale offsets (chars s) (chars s) [] _
                eq_refl Hsized) as [Hnd' Hem].
  subst ps. unfold layoutAfterScan. cbn [finalPages batching].
  fold b. fold scale. fold offsets.
  rewrite anchorPages_fst, emitChars_fst, sizePages_fst.
  split_and!; [done|done| |done].
  unfold anchorPages. apply Forall_fmap.
  eapply Forall_impl; [exact Hem|]. intros [k d]; simpl.
  intros (Ht & Hi & v & u & ix & Hv & Hu & Hix & Ev & Eu & Eix & Hc1 & Hc2 & Hcap).
  unfold finalVertices, anchorPage. fold scale. fold offsets.
  destruct (anchored (_anchor o)); simpl.
  - rewrite Hv, Hu, Hix, Ht. simpl. split_and!; [done| |].
    + intros ix' [= <-]. do 2 eexists.
      split_and!; [done|done| |]; by rewrite applyAnchor_length.
    + do 3 eexists. split_and!; [done|done|done| |done|done].
      rewrite take_applyAnchor. by rewrite Ev.
  - split_and!; [done| |].
    + intros ix'. rewrite Hix. intros [= <-]. by exists v, u.
    + by exists v, u, ix.
Qed.
End PassContent.

(** ** The lookup of the font *)

Section FontLookup.
Context {num : Type} `{JsNumber num}.

Lemma lookupFont_registered (w : World num) (name : string) (font : BitmapFont.t num) :
  available w !! name = Some font -> lookupFont w name = Some (Registered font).
Proof. intros Hf. unfold lookupFont. by rewrite Hf. Qed.

Lemma lookupFont_None (w : World num) (name : string) :
  lookupFont w name = None <-> available w !! name = None /\ name ∉ objectPrototype.
Proof.
  unfold lookupFont. destruct (available w !! name) as [font|].
  - split; [done|]. by intros [? _].
  - destruct (bool_decide_reflect (name ∈ objectPrototype)); split; try done.
    by intros [_ ?].
Qed.

Lemma lookupFont_inherited (w : World num) (name : string) :
  lookupFont w name = Some Inherited
  <-> available w !! name = None /\ name ∈ objectPrototype.
Proof.
  unfold lookupFont. destruct (available w !! name) as [font|].
  - split; [done|]. by intros [? _].
  - destruct (bool_decide_reflect (name ∈ objectPrototype)); split; try done.
    by intros [_ ?].
Qed.

Lemma lookupFont_Some_registered (w : World num) (name : string)
    (font : BitmapFont.t num) :
  lookupFont w name = Some (Registered font) <-> available w !! name = Some font.
Proof.
  split; [|apply lookupFont_registered].
  unfold lookupFont. destruct (available w !! name) as [font'|].
  - by intros [= ->].
  - by destruct (bool_decide _).
Qed.

Lemma null_not_inherited : "null"%string ∉ objectPrototype.
Proof.
  intros Hin. unfold objectPrototype in Hin.
  repeat (apply elem_of_cons in Hin as [Hin|Hin]; [discriminate Hin|]).
  by apply elem_of_nil in Hin.
Qed.

Lemma withCharPool_same (w : World num) :
  withCharPool w (mkCharPool (charRenderDataPool w) (nextRef w)) = w.
Proof. by destruct w. Qed.
End FontLookup.

(** ** The claims *)

Section PassAndBuffers.
Context {num : Type} `{JsNumber num}.

(** When the lookup of the font name of the object finds nothing (the
    name is not registered and names no property of [Object.prototype]), the
    layout pass fails at once with a TypeError and leaves the object and
    the world (pools, meshes, count of passes) as they were; [validate] and
    the three measurement reads of a dirty object fail in the same way, and
    the object stays dirty. *)
Lemma unregistered_font_fails (o : BitmapText num) (w : World num) :
  lookupFont w (fontKey (Font.name (_font o))) = None ->
  updateText o w = Failed TypeError o w
  /\ (dirty o = true ->
      validate o w = Failed TypeError o w
      /\ get_textWidth o w = Failed TypeError o w
      /\ get_textHeight o w = Failed TypeError o w
      /\ get_maxLineHeight o w = Failed TypeError o w).
Proof.
  intros Hfont.
  assert (Hu : updateText o w = Failed TypeError o w).
  { unfold updateText. by rewrite Hfont. }
  split; [done|]. intros Hd.
  unfold get_textWidth, get_textHeight, get_maxLineHeight, measure, validate.
  by rewrite Hd, Hu.
Qed.

(** A pass whose font is found and whose scan completes. *)
Lemma updateText_done o w data s p :
  lookupFont w (fontKey (Font.name (_font o))) = Some data ->
  scanText o data (mkCharPool (charRenderDataPool w) (nextRef w)) = Scanned s p ->
  updateText o w
  = Done tt (commitPass o w data (layoutAfterScan o w data s p)).1
      (commitPass o w data (layoutAfterScan o w data s p)).2.
Proof. intros Hf Hs. unfold updateText. rewrite Hf, Hs. done. Qed.

(** C10.  When the scan of a pass yields no glyph record, the pass
    completes, keeps [maxLineHeight] as the previous pass stored it, stores
    the text width and height of the current input, and attaches no
    mesh. *)
Theorem no_glyph_keeps_maxLineHeight (o : BitmapText num) (w : World num)
    (data : BitmapFont.t num) (s : Scan num) (p : CharPool num) :
  available w !! fontKey (Font.name (_font o)) = Some data ->
  scanText o data (mkCharPool (charRenderDataPool w) (nextRef w)) = Scanned s p ->
  chars s = [] ->
  exists o' w',
    updateText o w = Done tt o' w'
    /\ _maxLineHeight o' = _maxLineHeight o
    /\ _textWidth o' = nmul (maxLineWidth s) (scaleOf o data)
    /\ _textHeight o'
       = nmul (nadd (Point.y (pos s)) (BitmapFont.lineHeight data)) (scaleOf o data)
    /\ _currentMeshes o' = [].
Proof.
  intros Hf Hs Hc. do 2 eexists.
  split; [by apply updateText_done; [apply lookupFont_registered|]|].
  unfold commitPass, layoutAfterScan; simpl. rewrite Hc. simpl. done.
Qed.

(** The test of line 412. *)
Lemma fitsCurrentBuffers_spec (d : PageMeshData.t num) :
  fitsCurrentBuffers d = true <->
  exists ix, PageMeshData.indices d = Some ix /\ (6 * PageMeshData.total d < length ix)%nat.
Proof.
  unfold fitsCurrentBuffers. destruct (PageMeshData.indices d) as [ix|].
  - rewrite Nat.ltb_lt. split; [eauto|]. by intros (? & [= <-] & ?).
  - split; [done|]. by intros (? & ? & ?).
Qed.

Lemma lookup_fold_alter_last {A B : Type} (key : B -> nat) (f : B -> A -> A)
    (items : list B) (st : list A) (b : B) :
  NoDup (map key items) -> b ∈ items -> 
  fold_left (fun st x => alter (f x) (key x) st) items st !! key b
  = f b <$> st !! key b.
Proof.
  revert st. induction items as [|x items IH]; intros st Hnd Hin; simpl.
  - by apply elem_of_nil in Hin.
  - apply NoDup_cons in Hnd as [Hx Hnd]. apply elem_of_cons in Hin as [->|Hin].
    + clear IH.
      assert (Hgen : forall st' : list A,
                 fold_left (fun st x0 => alter (f x0) (key x0) st) items st' !! key x
                 = st' !! key x).
      { induction items as [|y items IH]; intros st'; simpl; [done|].
        simpl in Hx. apply not_elem_of_cons in Hx as [Hxy Hx].
        apply NoDup_cons in Hnd as [_ Hnd].
        rewrite IH by done. by apply list_lookup_alter_ne. }
      rewrite Hgen. apply list_lookup_alter_eq.
    + rewrite IH by done. rewrite list_lookup_alter_ne; [done|].
      intros Heq. apply Hx. rewrite Heq. by apply list_elem_of_fmap_2.
Qed.

(** C2, amended.  For every page batch of a pass: its three buffers are
    kept as they are when its index array has more than [6 * total] slots;
    when it has [6 * total] slots or fewer, or no index array, the buffers
    are fresh and zero-filled, of [8 * total], [8 * total] and [6 * total]
    slots; in both cases the glyph count and the mesh are kept, and the draw
    size of the mesh is set to [6 * total]. *)
Theorem buffer_policy (pages : Pages) (st : list (Mesh.t num)) (uid : N)
    (d : PageMeshData.t num) :
  (uid, d) ∈ pages ->
  NoDup (map (fun kv => PageMeshData.mesh kv.2) pages) ->
  let d' := sizeBuffers d in
  (uid, d') ∈ sizePages pages
  /\ PageMeshData.total d' = PageMeshData.total d
  /\ PageMeshData.mesh d' = PageMeshData.mesh d
  /\ (forall ix, PageMeshData.indices d = Some ix ->
      (6 * PageMeshData.total d < length ix)%nat -> d' = d)
  /\ ((forall ix, PageMeshData.indices d = Some ix ->
       (length ix <= 6 * PageMeshData.total d)%nat) ->
      PageMeshData.vertices d' = Some (replicate (8 * PageMeshData.total d) nzero)
      /\ PageMeshData.uvs d' = Some (replicate (8 * PageMeshData.total d) nzero)
      /\ PageMeshData.indices d' = Some (replicate (6 * PageMeshData.total d) 0))
  /\ (forall m, st !! PageMeshData.mesh d = Some m ->
      Mesh.size <$> sizeMeshes (sizePages pages) st !! PageMeshData.mesh d
      = Some (6 * PageMeshData.total d)%nat).
Proof.
  intros Hin Hnd d'.
  assert (Hin' : (uid, d') ∈ sizePages pages).
  { unfold sizePages. apply (list_elem_of_fmap_2 (fun kv => (kv.1, sizeBuffers kv.2)) _ _ Hin). }
  assert (Ht : PageMeshData.total d' = PageMeshData.total d).
  { unfold d', sizeBuffers. by destruct (fitsCurrentBuffers d). }
  assert (Hm : PageMeshData.mesh d' = PageMeshData.mesh d).
  { unfold d', sizeBuffers. by destruct (fitsCurrentBuffers d). }
  split; [done|]. split; [done|]. split; [done|]. split; [|split].
  - intros ix Hix Hlt. unfold d', sizeBuffers.
    rewrite (proj2 (fitsCurrentBuffers_spec d)); eauto.
  - intros Hle. unfold d', sizeBuffers.
    destruct (fitsCurrentBuffers d) eqn:Hfit; [|done].
    apply fitsCurrentBuffers_spec in Hfit as (ix & Hix & Hlt).
    specialize (Hle ix Hix). lia.
  - intros m Hst. unfold sizeMeshes.
    rewrite <- Hm.
    rewrite (lookup_fold_alter_last (fun kv : N * PageMeshData.t num => PageMeshData.mesh kv.2)
               (fun kv => setMeshSize (6 * PageMeshData.total kv.2)) _ _ (uid, d')).
    + simpl. rewrite Hm, Hst. simpl. by rewrite Ht.
    + unfold sizePages. rewrite <- list_fmap_compose.
      erewrite list_fmap_ext; [exact Hnd|]. intros ? [k x] _. simpl.
      unfold sizeBuffers. by destruct (fitsCurrentBuffers x).
    + done.
Qed.
End PassAndBuffers.

Section Tint.
Context {num : Type} `{JsNumber num}.

(** C8.  Setting the tint to a new value gives every attached page mesh
    that tint and leaves its texture, size, parent and buffers alone; the
    other meshes, the pools, the count of layout passes, the dirty flag, the
    text, the style and the measurements of the object are unchanged. *)
Theorem set_tint_restamps (value : Z) (o o' : BitmapText num) (w w' : World num) :
  _tint o <> value ->
  set_tint value o w = (o', w') ->
  (forall m mesh, m ∈ _currentMeshes o -> meshes w !! m = Some mesh ->
     exists mesh', meshes w' !! m = Some mesh' /\ Mesh.tint mesh' = value
       /\ Mesh.texture mesh' = Mesh.texture mesh /\ Mesh.size mesh' = Mesh.size mesh
       /\ Mesh.parent mesh' = Mesh.parent mesh
       /\ Mesh.aVertexPosition mesh' = Mesh.aVertexPosition mesh
       /\ Mesh.aTextureCoord mesh' = Mesh.aTextureCoord mesh
       /\ Mesh.indexBuffer mesh' = Mesh.indexBuffer mesh)
  /\ (forall m, m ∉ _currentMeshes o -> meshes w' !! m = meshes w !! m)
  /\ length (meshes w') = length (meshes w)
  /\ _tint o' = value
  /\ dirty o' = dirty o
  /\ layoutPasses w' = layoutPasses w
  /\ (_text o', _font o', _maxWidth o', _letterSpacing o', _anchor o')
     = (_text o, _font o, _maxWidth o, _letterSpacing o, _anchor o)
  /\ (_textWidth o', _textHeight o', _maxLineHeight o')
     = (_textWidth o, _textHeight o, _maxLineHeight o)
  /\ (oid o', roundPixels o', _currentMeshes o') = (oid o, roundPixels o, _currentMeshes o)
  /\ (available w', pageMeshDataPool w', charRenderDataPool w', nextRef w', ROUND_PIXELS w')
     = (available w, pageMeshDataPool w, charRenderDataPool w, nextRef w, ROUND_PIXELS w).
Proof.
  intros Hne. unfold set_tint.
  destruct (Z.eqb_spec (_tint o) value) as [|_]; [done|].
  intros [= <- <-]; simpl.
  assert (Hidem : forall a : Mesh.t num,
             setMeshTint value (setMeshTint value a) = setMeshTint value a) by done.
  repeat split.
  - intros m mesh Hin Hm. rewrite lookup_fold_alter by done.
    rewrite bool_decide_eq_true_2 by done. rewrite Hm. simpl.
    eexists; split; [done|]. done.
  - intros m Hin. rewrite lookup_fold_alter by done.
    rewrite bool_decide_eq_false_2 by done. by destruct (meshes w !! m).
  - generalize (meshes w). induction (_currentMeshes o) as [|m ms IH]; intros st; simpl; [done|].
    rewrite IH. apply length_alter.
Qed.
End Tint.

Section Protocol.
Context {num : Type} `{JsNumber num}.

Lemma updateText_frame (o o' : BitmapText num) (w w' : World num) :
  updateText o w = Done tt o' w' ->
  layoutPasses w' = S (layoutPasses w) /\ dirty o' = dirty o.
Proof.
  unfold updateText. destruct (lookupFont w _) as [data|]; [|done].
  destruct (scanText _ _ _) as [s p|]; [|done].
  intros [= <- <-]. done.
Qed.

Lemma set_font_frame (value : FontArg num) (o o' : BitmapText num) (w w' : World num) :
  set_font value o w = Done tt o' w' ->
  w' = w /\ (value <> FontUndefined -> value <> FontString EmptyString -> dirty o' = true).
Proof.
  unfold set_font. destruct value as [|[|a value]|name size].
  - intros [= <- <-]. done.
  - intros [= <- <-]. done.
  - destruct (2 <=? _)%nat.
    + intros [= <- <-]. done.
    + destruct (lookupFont w _); [|done]. intros [= <- <-]. done.
  - intros [= <- <-]. done.
Qed.

Lemma reads_clean (o : BitmapText num) (w : World num) :
  dirty o = false -> readsGive o w o w.
Proof.
  intros Hd. unfold readsGive, get_textWidth, get_textHeight, get_maxLineHeight,
    measure, validate. by rewrite Hd.
Qed.

(** C3, amended.  A change of the text, of the max width, of the letter
    spacing or of the anchor, every assignment of [align], and every
    assignment of a font that is not empty and completes, sets [dirty].  A
    measurement read of a dirty object whose pass completes runs one pass
    (the count of passes grows by one), returns the new field and clears
    [dirty]; a read of a clean object runs no pass and changes nothing, so
    a second read runs none.  The constructor runs one pass itself and
    leaves the object clean: the first read after construction runs no
    pass. *)
Theorem dirty_flag_protocol (o : BitmapText num) (w : World num) :
  (forall text, _text o <> text -> dirty (set_text text o) = true)
  /\ (forall value, nstricteq (_maxWidth o) value = false ->
      dirty (set_maxWidth value o) = true)
  /\ (forall value, nstricteq (_letterSpacing o) value = false ->
      dirty (set_letterSpacing value o) = true)
  /\ (forall value, dirty (set_align value o) = true)
  /\ (forall value,
        _anchor (set_anchor value o) <> _anchor o -> dirty (set_anchor value o) = true)
  /\ (forall value o' w',
        set_font value o w = Done tt o' w' ->
        value <> FontUndefined -> value <> FontString EmptyString ->
        dirty o' = true /\ w' = w)
  /\ (forall o1 w1,
        dirty o = true -> updateText o w = Done tt o1 w1 ->
        readsGive o w (setDirty false o1) w1
        /\ dirty (setDirty false o1) = false
        /\ layoutPasses w1 = S (layoutPasses w))
  /\ (dirty o = false -> readsGive o w o w)
  /\ (forall o' w',
        validate o w = Done tt o' w' -> dirty o' = false /\ readsGive o' w' o' w')
  /\ (forall this text style o' w',
        constructor this text style w = Done tt o' w' ->
        dirty o' = false
        /\ layoutPasses w' = S (layoutPasses w)
        /\ readsGive o' w' o' w').
Proof.
  assert (Hread : forall (o' : BitmapText num) (w' : World num),
             validate o w = Done tt o' w' -> dirty o' = false).
  { intros o' w'. unfold validate. destruct (dirty o) eqn:Hd.
    - destruct (updateText o w); [|done]. by intros [= <- _].
    - by intros [= <- _]. }
  assert (Hnew : forall this text style (o' : BitmapText num) (w' : World num),
             constructor this text style w = Done tt o' w' ->
             dirty o' = false /\ layoutPasses w' = S (layoutPasses w)).
  { intros this text style o' w'. unfold constructor.
    destruct (set_font _ _ w) as [[] o1 w1|] eqn:Hf; [|done].
    intros Hu. apply updateText_frame in Hu as [-> ->].
    by apply set_font_frame in Hf as [-> _]. }
  split_and!.
  - intros text Hne. unfold set_text.
    destruct (String.eqb_spec (_text o) text); done.
  - intros value Hne. unfold set_maxWidth. by rewrite Hne.
  - intros value Hne. unfold set_letterSpacing. by rewrite Hne.
  - done.
  - intros value Hne. destruct value as [v|p]; simpl in *; unfold observableSet in *;
      (destruct (negb _ || negb _); [done|by destruct Hne]).
  - intros value o' w' Hf Hu He. apply set_font_frame in Hf as [-> Hd]. auto.
  - intros o1 w1 Hd Hu. split_and!; [|done|by eapply updateText_frame].
    unfold readsGive, get_textWidth, get_textHeight, get_maxLineHeight,
      measure, validate. by rewrite Hd, Hu.
  - apply reads_clean.
  - intros o' w' Hv. split; [by eapply Hread|]. apply reads_clean. by eapply Hread.
  - intros this text style o' w' Hc. destruct (Hnew _ _ _ _ _ Hc) as [Hd Hp].
    split_and!; [done|done|]. by apply reads_clean.
Qed.
End Protocol.

Section DroppedCharacters.
Context {num : Type} `{JsNumber num}.

End DroppedCharacters.

Section Outcomes.
Context {num : Type} `{JsNumber num}.

(** X1.  A pass ends: it completes, or it fails with a TypeError (the
    lookup of the font gave [undefined], or a value without [chars]) and
    leaves the object and the world as they were, or [removeItems] was
    called outside its description. *)
Lemma updateText_outcome (o : BitmapText num) (w : World num) :
  (exists o' w', updateText o w = Done tt o' w')
  \/ updateText o w = Failed TypeError o w
  \/ (exists w', updateText o w = Failed RemoveItemsRange o w').
Proof.
  unfold updateText. destruct (lookupFont w _) as [data|]; [|by right; left].
  destruct (scanText o data _) as [s p|e p] eqn:Hs.
  - left. destruct (commitPass _ _ _ _). eauto.
  - right. destruct e.
    + left. apply scan_TypeError in Hs as ->. by rewrite withCharPool_same.
    + right. eauto.
    + exfalso. by apply scan_terminates in Hs.
Qed.

Lemma elem_of_pushAll {A : Type} (x : A) (items pool : list A) :
  x ∈ pushAll items pool <-> x ∈ items \/ x ∈ pool.
Proof.
  unfold pushAll. revert pool. induction items as [|y items IH]; intros pool; simpl.
  - rewrite elem_of_nil. tauto.
  - rewrite IH, !elem_of_cons. tauto.
Qed.

(** X2.  What a completed pass hands back to the pools: its page batches,
    and the records that are in the sequence when it ends. *)
Lemma pools_after_pass (o o' : BitmapText num) (w w' : World num) :
  updateText o w = Done tt o' w' ->
  exists ps,
    passOf o w = Some ps
    /\ (forall kv, kv ∈ finalPages ps -> kv.2 ∈ pageMeshDataPool w')
    /\ (forall c, c ∈ chars (scanned ps) -> c ∈ charRenderDataPool w').
Proof.
  unfold updateText, passOf. destruct (lookupFont w _) as [data|]; [|done].
  destruct (scanText o data _) as [s p|e p]; [|done].
  intros [= <- <-]. eexists. split; [done|]. simpl. split.
  - intros kv Hin. apply elem_of_pushAll. left. by apply (list_elem_of_fmap_2 snd).
  - intros c Hin. apply elem_of_pushAll. by left.
Qed.
End Outcomes.

Section AnchorShift.
Context {num : Type} `{JsNumber num}.

(** C5.  With an anchor that is not (0, 0), every page buffer of the pass
    is the buffer that the scaled emission wrote, with
    [textWidth * anchor.x] subtracted from every x and
    [textHeight * anchor.y] from every y of the vertices of its glyphs (the
    slots below [8 * total]), in place: the length, the other slots, the UVs
    and the indices are the same.  The pass of the same object with an
    anchor that line 478 takes for (0, 0) keeps the emitted buffers, so this
    is the shift between the two outputs; both passes give the same text
    width and height. *)
Theorem anchor_shifts_vertices (o0 : BitmapText num) (anchor : Point.t num)
    (w : World num) (data : BitmapFont.t num) (s : Scan num) (p : CharPool num) :
  anchored anchor = true ->
  anchored (_anchor o0) = false ->
  available w !! fontKey (Font.name (_font o0)) = Some data ->
  scanText o0 data (mkCharPool (charRenderDataPool w) (nextRef w)) = Scanned s p ->
  let o := withAnchor anchor o0 in
  let ps := layoutAfterScan o w data s p in
  let ps0 := layoutAfterScan o0 w data s p in
  let offsetX := nmul (textWidth' ps) (Point.x anchor) in
  let offsetY := nmul (textHeight' ps) (Point.y anchor) in
  updateText o w = Done tt (commitPass o w data ps).1 (commitPass o w data ps).2
  /\ updateText o0 w = Done tt (commitPass o0 w data ps0).1 (commitPass o0 w data ps0).2
  /\ textWidth' ps = textWidth' ps0
  /\ textHeight' ps = textHeight' ps0
  /\ emitted ps = emitted ps0
  /\ finalPages ps0 = emitted ps0
  /\ forall uid d0,
      pagesLookup uid (finalPages ps0) = Some d0 ->
      exists d,
        pagesLookup uid (finalPages ps) = Some d
        /\ PageMeshData.total d = PageMeshData.total d0
        /\ PageMeshData.mesh d = PageMeshData.mesh d0
        /\ PageMeshData.uvs d = PageMeshData.uvs d0
        /\ PageMeshData.indices d = PageMeshData.indices d0
        /\ forall v0,
            PageMeshData.vertices d0 = Some v0 ->
            exists v,
              PageMeshData.vertices d = Some v
              /\ length v = length v0
              /\ forall k a,
                  v0 !! k = Some a ->
                  v !! k
                  = Some (if (k <? 8 * PageMeshData.total d0)%nat
                          then fround (nsub a (if Nat.even k then offsetX else offsetY))
                          else a).
Proof.
  intros Ha Ha0 Hfont Hscan o ps ps0 offsetX offsetY.
  assert (Hplain : forall pages : Pages (num:=num),
             anchorPages (_anchor o0) (textWidth' ps0) (textHeight' ps0) pages = pages).
  { intros pages. unfold anchorPages, anchorPage. rewrite Ha0.
    induction pages as [|[k d] pages IH]; simpl; [done|]. by rewrite IH. }
  split_and!.
  - by apply updateText_done; [apply lookupFont_registered|].
  - by apply updateText_done; [apply lookupFont_registered|].
  - done.
  - done.
  - done.
  - unfold ps0, layoutAfterScan. cbn [finalPages emitted]. apply Hplain.
  - intros uid d0 Hl.
    assert (Hl' : pagesLookup uid (emitted ps) = Some d0).
    { revert Hl. unfold ps0, layoutAfterScan. cbn [finalPages emitted].
      fold (textWidth' ps0). by rewrite Hplain. }
    unfold ps at 1. unfold layoutAfterScan. cbn [finalPages].
    rewrite pagesLookup_anchorPages.
    change (pagesLookup uid (emitChars _ _ _ _)) with (pagesLookup uid (emitted ps)).
    rewrite Hl'. simpl. eexists. split; [done|].
    unfold anchorPage. cbn [_anchor o withAnchor]. rewrite Ha. simpl.
    split_and!; try done.
    intros v0 Hv0. rewrite Hv0. simpl. eexists. split_and!; [done| |].
    + apply applyAnchor_length.
    + intros k a Hk. rewrite applyAnchor_lookup, Hk. simpl. by rewrite Nat.sub_0_r.
Qed.
End AnchorShift.

Section Idempotence.
Context {num : Type} `{JsNumber num}.

Lemma pushAll_Forall {A : Type} (P : A -> Prop) (items pool : list A) :
  Forall P items -> Forall P pool -> Forall P (pushAll items pool).
Proof.
  unfold pushAll. revert pool. induction items as [|x items IH]; intros pool Hi Hp; simpl.
  - done.
  - apply Forall_cons in Hi as [Hx Hi]. apply IH; [done|]. by apply Forall_cons.
Qed.

Lemma pageOf_glyphOf (c : CharRenderData.t num) : pageOf (glyphOf c) = pageOf c.
Proof. done. Qed.

Lemma pageGlyphs_glyphOf uid (cs : list (CharRenderData.t num)) :
  pageGlyphs uid (map glyphOf cs) = map glyphOf (pageGlyphs uid cs).
Proof.
  induction cs as [|c cs IH]; simpl; [done|]. unfold pageGlyphs in *.
  destruct (decide (pageOf c = uid)).
  - rewrite !filter_cons_True by done. simpl. by rewrite IH.
  - rewrite !filter_cons_False by done. done.
Qed.

Lemma expectedVertices_glyphOf scale offsets (gs : list (CharRenderData.t num)) :
  expectedVertices scale offsets (map glyphOf gs) = expectedVertices scale offsets gs.
Proof. unfold expectedVertices. rewrite map_map. done. Qed.

Lemma expectedUvs_glyphOf (gs : list (CharRenderData.t num)) :
  expectedUvs (map glyphOf gs) = expectedUvs gs.
Proof. unfold expectedUvs. rewrite map_map. done. Qed.

(** The glyphs of a page in two scans that end alike. *)
Lemma sameGlyphs_page uid (s1 s2 : Scan num) :
  glyphsOf s1 = glyphsOf s2 ->
  map glyphOf (pageGlyphs uid (chars s1)) = map glyphOf (pageGlyphs uid (chars s2)).
Proof.
  intros Hg. apply glyphsOf_fields in Hg as (_ & _ & Hch & _).
  by rewrite <- !pageGlyphs_glyphOf, Hch.
Qed.

Lemma finalVertices_same (o1 o2 : BitmapText num) data (s1 s2 : Scan num) gs1 gs2 :
  _anchor o1 = _anchor o2 -> _font o1 = _font o2 ->
  glyphsOf s1 = glyphsOf s2 -> map glyphOf gs1 = map glyphOf gs2 ->
  finalVertices o1 data s1 gs1 = finalVertices o2 data s2 gs2.
Proof.
  intros Ha Hf Hg Hgs. apply glyphsOf_fields in Hg
    as (Hi & Hpos & Hch & Hlw & Hpc & Hllw & Hmlw & Hl & Hlb & Hlbw & Hsr & Hmh).
  unfold finalVertices, scaleOf, lineAlignOffsets.
  rewrite <- Ha, <- Hf, <- Hpos, <- Hmlw, <- Hlw, <- Hl.
  rewrite <- (expectedVertices_glyphOf _ _ gs1), <- (expectedVertices_glyphOf _ _ gs2).
  by rewrite Hgs.
Qed.

Lemma pages_nil_iff (pages : Pages (num:=num)) (cs : list (CharRenderData.t num)) :
  (forall uid, uid ∈ map fst pages <-> uid ∈ map pageOf cs) ->
  pages = [] <-> cs = [].
Proof.
  intros Hk. split; intros ->.
  - destruct cs as [|c cs]; [done|]. specialize (Hk (pageOf c)). simpl in Hk.
    destruct Hk as [_ Hk]. specialize (Hk ltac:(left)). by apply elem_of_nil in Hk.
  - destruct pages as [|[k d] pages]; [done|]. specialize (Hk k). simpl in Hk.
    destruct Hk as [Hk _]. specialize (Hk ltac:(left)). by apply elem_of_nil in Hk.
Qed.

Lemma newMaxLineHeight_nil (pages : Pages (num:=num)) old mlh scale :
  pages = [] -> newMaxLineHeight pages old mlh scale = old.
Proof. by intros ->. Qed.

Lemma newMaxLineHeight_cons (pages : Pages (num:=num)) old mlh scale :
  pages <> [] -> newMaxLineHeight pages old mlh scale = nmul mlh scale.
Proof. by destruct pages. Qed.

(** C4, amended.  When a pass completes in a world whose pooled batches
    have coherent arrays, the next pass on unchanged inputs completes too
    and gives the same text width, text height and max line height, the
    same pages, and for each page the same glyph count and the same
    contents of the three arrays below the draw size of the mesh
    ([8 * total] vertex and UV slots and [6 * total] index slots).  The
    pooled batches are coherent again after the pass. *)
Theorem second_pass_same_logical_content (o o1 : BitmapText num) (w w1 : World num) :
  Forall coherent (pageMeshDataPool w) ->
  updateText o w = Done tt o1 w1 ->
  exists o2 w2 ps1 ps2,
    updateText o1 w1 = Done tt o2 w2
    /\ passOf o w = Some ps1 /\ passOf o1 w1 = Some ps2
    /\ _textWidth o2 = _textWidth o1
    /\ _textHeight o2 = _textHeight o1
    /\ _maxLineHeight o2 = _maxLineHeight o1
    /\ (forall uid,
          is_Some (pagesLookup uid (finalPages ps1))
          <-> is_Some (pagesLookup uid (finalPages ps2)))
    /\ (forall uid d1 d2,
          pagesLookup uid (finalPages ps1) = Some d1 ->
          pagesLookup uid (finalPages ps2) = Some d2 ->
          PageMeshData.total d1 = PageMeshData.total d2
          /\ logical d1 = logical d2)
    /\ Forall coherent (pageMeshDataPool w1).
Proof.
  intros Hpool Hu. unfold updateText, passOf in *.
  destruct (lookupFont w (fontKey (Font.name (_font o)))) as [data|] eqn:Hfont; [|done].
  destruct (scanText o data _) as [s p|] eqn:Hscan; [|done].
  set (ps1 := layoutAfterScan o w data s p) in *.
  injection Hu as <- <-.
  cbn [commitPass _font available charRenderDataPool nextRef].
  match goal with
  | |- context [lookupFont ?w' ?k] => change (lookupFont w' k) with (lookupFont w k)
  end.
  rewrite Hfont.
  pose proof (scan_sameScan data (_letterSpacing o) (maxWidthOf o data)
                (normalizedText (_text o))
                (mkCharPool (charRenderDataPool w) (nextRef w))
                (mkCharPool (pushAll (chars (scanned ps1)) (free (charPool ps1)))
                   (fresh (charPool ps1)))) as Hsame.
  unfold scanText in Hscan |- *. cbn [_text _letterSpacing _maxWidth _font maxWidthOf].
  unfold maxWidthOf in Hsame, Hscan. rewrite Hscan in Hsame.
  destruct (scan data _ _ _ (mkCharPool (pushAll _ _) _)) as [s2 p2|] eqn:Hscan2; [|done].
  simpl in Hsame.
  set (o1 := (commitPass o w data ps1).1).
  set (w1 := (commitPass o w data ps1).2).
  set (ps2 := layoutAfterScan o1 w1 data s2 p2).
  destruct (pass_content o w data s p Hpool) as (Hnd1 & Hk1 & Hall1 & Hrest1).
  fold ps1 in Hnd1, Hk1, Hall1, Hrest1.
  assert (Hpool1 : Forall coherent (pageMeshDataPool w1)).
  { unfold w1; simpl. apply pushAll_Forall; [|done]. apply Forall_fmap.
    eapply Forall_impl; [exact Hall1|]. by intros [k d] (_ & Hc & _). }
  destruct (pass_content o1 w1 data s2 p2 Hpool1) as (Hnd2 & Hk2 & Hall2 & Hrest2).
  fold ps2 in Hnd2, Hk2, Hall2, Hrest2.
  assert (Hchars : map glyphOf (chars s) = map glyphOf (chars s2)).
  { by apply glyphsOf_fields in Hsame as (_ & _ & Hch & _). }
  assert (Hkeys : forall uid, uid ∈ map pageOf (chars s) <-> uid ∈ map pageOf (chars s2)).
  { intros uid. rewrite <- (map_ext _ _ pageOf_glyphOf (chars s)).
    rewrite <- (map_ext _ _ pageOf_glyphOf (chars s2)).
    rewrite <- !(map_map glyphOf pageOf). by rewrite Hchars. }
  exists (commitPass o1 w1 data ps2).1, (commitPass o1 w1 data ps2).2, ps1, ps2.
  split_and!; try done.
  - simpl. apply glyphsOf_fields in Hsame as (_ & _ & _ & _ & _ & _ & <- & _). done.
  - simpl. apply glyphsOf_fields in Hsame as (_ & <- & _). done.
  - simpl. fold ps1.
    assert (Hmh : maxLineHeight s = maxLineHeight s2).
    { by apply glyphsOf_fields in Hsame as (_ & _ & _ & _ & _ & _ & _ & _ & _ & _ & _ & ?). }
    destruct (decide (chars s = [])) as [He|Hne].
    + rewrite (newMaxLineHeight_nil (finalPages ps2)).
      2:{ apply (pages_nil_iff _ (chars s2) Hk2).
          rewrite He in Hchars. destruct (chars s2); [done|]. discriminate Hchars. }
      done.
    + rewrite (newMaxLineHeight_cons (finalPages ps2)).
      2:{ intros Hn. apply (pages_nil_iff _ (chars s2) Hk2) in Hn.
          rewrite Hn in Hchars. destruct (chars s); [done|]. discriminate Hchars. }
      rewrite (newMaxLineHeight_cons (finalPages ps1)).
      2:{ intros Hn. by apply (pages_nil_iff _ (chars s) Hk1) in Hn. }
      unfold scaleOf. simpl. by rewrite Hmh.
  - intros uid. rewrite <- !not_eq_None_Some, !pagesLookup_None.
    rewrite Hk1, Hk2, Hkeys. done.
  - intros uid d1 d2 Hl1 Hl2.
    apply pagesLookup_elem_of in Hl1, Hl2.
    rewrite Forall_forall in Hall1, Hall2.
    destruct (Hall1 _ Hl1) as (Ht1 & _ & v1 & u1 & ix1 & Hv1 & Hu1 & Hix1 & Ev1 & Eu1 & Ei1).
    destruct (Hall2 _ Hl2) as (Ht2 & _ & v2 & u2 & ix2 & Hv2 & Hu2 & Hix2 & Ev2 & Eu2 & Ei2).
    simpl in *.
    pose proof (sameGlyphs_page uid s s2 Hsame) as Hpg.
    assert (Hlen : length (pageGlyphs uid (chars s)) = length (pageGlyphs uid (chars s2))).
    { by rewrite <- (length_map glyphOf), Hpg, length_map. }
    split; [congruence|].
    unfold logical. rewrite Hv1, Hu1, Hix1, Hv2, Hu2, Hix2, Ht1, Ht2. simpl.
    rewrite Ev1, Eu1, Ei1, Ev2, Eu2, Ei2. rewrite Hlen.
    rewrite (finalVertices_same o o1 data s s2 _ _ eq_refl eq_refl Hsame Hpg).
    rewrite <- (expectedUvs_glyphOf (pageGlyphs uid (chars s))), Hpg, expectedUvs_glyphOf.
    done.
Qed.
End Idempotence.

(** ** The soft wrap on texts without line breaks and missing glyphs *)

Section SoftWrapScan.
Context {num : Type} `{JsNumber num}.
Variable data : BitmapFont.t num.
Variable letterSpacing maxWidth : num.
Variable text : string.
Let codes := codeUnits text.

Lemma filter_agree {A} (P Q : A -> Prop) `{!forall x, Decision (P x)}
    `{!forall x, Decision (Q x)} (l : list A) :
  (forall x, x ∈ l -> P x <-> Q x) -> filter P l = filter Q l.
Proof.
  induction l as [|x l IH]; intros Hpq; [done|].
  assert (Hl : filter P l = filter Q l).
  { apply IH. intros y Hy. apply Hpq. by right. }
  destruct (decide (P x)) as [Hp|Hp].
  - rewrite !filter_cons_True; [by f_equal| |done]. apply Hpq; [left|done].
  - rewrite !filter_cons_False; [done| |done]. intros Hq. apply Hp, Hpq; [left|done].
Qed.

Lemma breaks_below (breaks : list nat) (b : nat) :
  NoDup breaks -> (forall w, w ∈ breaks -> (w < b)%nat) ->
  (length (filter (fun p => p ∉ breaks) (seq 0 b)) + length breaks = b)%nat.
Proof.
  intros Hnd Hlt.
  pose proof (filter_app_complement (fun p => p ∉ breaks) (seq 0 b)) as Hperm.
  apply Permutation_length in Hperm. rewrite length_app, length_seq in Hperm.
  assert (Hin : filter (fun p => ¬ (p ∉ breaks)) (seq 0 b) ≡ₚ breaks).
  { apply NoDup_Permutation; [apply NoDup_filter, NoDup_seq|done|].
    intros x. rewrite list_elem_of_filter, elem_of_seq. split.
    - intros [Hx _]. by destruct (decide (x ∈ breaks)).
    - intros Hx. split; [tauto|]. specialize (Hlt x Hx). lia. }
  apply Permutation_length in Hin. lia.
Qed.

Lemma wrappedGlyphs_length breaks k :
  NoDup breaks -> (forall w, w ∈ breaks -> (w < k)%nat) ->
  (length (wrappedGlyphs codes breaks k) + length breaks = k)%nat.
Proof.
  intros Hnd Hlt. unfold wrappedGlyphs. rewrite length_map. by apply breaks_below.
Qed.

Lemma breaksBefore_all breaks k :
  (forall w, w ∈ breaks -> (w < k)%nat) -> breaksBefore breaks k = length breaks.
Proof.
  intros Hlt. unfold breaksBefore. f_equal.
  induction breaks as [|w breaks IH]; [done|].
  rewrite filter_cons_True by (apply Hlt; left). f_equal. apply IH.
  intros x Hx. apply Hlt. by right.
Qed.

(** One more position, which is no break. *)
Lemma wrappedGlyphs_S breaks k :
  (forall w, w ∈ breaks -> (w < k)%nat) ->
  wrappedGlyphs codes breaks (S k)
  = wrappedGlyphs codes breaks k ++ [(default 0 (codes !! k), length breaks)].
Proof.
  intros Hlt. unfold wrappedGlyphs. rewrite seq_S, filter_app, map_app. simpl.
  rewrite filter_cons_True.
  2:{ intros Hin. specialize (Hlt k Hin). lia. }
  simpl. by rewrite breaksBefore_all.
Qed.

(** A soft break at [b], past the breaks so far. *)
Lemma wrappedGlyphs_break breaks b :
  (forall w, w ∈ breaks -> (w < b)%nat) ->
  wrappedGlyphs codes (breaks ++ [b]) (S b) = wrappedGlyphs codes breaks b.
Proof.
  intros Hlt. unfold wrappedGlyphs. rewrite seq_S, filter_app. simpl.
  rewrite filter_cons_False.
  2:{ intros Hn. apply Hn. apply elem_of_app. right. left. }
  rewrite filter_nil, app_nil_r.
  assert (Hf : filter (fun p => p ∉ breaks ++ [b]) (seq 0 b)
               = filter (fun p => p ∉ breaks) (seq 0 b)).
  { apply filter_agree. intros p Hp.
    apply elem_of_seq in Hp. rewrite elem_of_app, list_elem_of_singleton.
    split; [tauto|]. intros Hn [Hin| ->]; [tauto|lia]. }
  rewrite Hf. apply map_ext_in. intros p Hp.
  apply list_elem_of_In, list_elem_of_filter in Hp as [_ Hp]. apply elem_of_seq in Hp.
  f_equal. unfold breaksBefore. rewrite filter_app.
  rewrite (filter_cons_False _ b) by lia. by rewrite filter_nil, app_nil_r.
Qed.

(** The records of the positions below [b] are the first ones. *)
Lemma wrappedGlyphs_take breaks b k :
  NoDup breaks -> (forall w, w ∈ breaks -> (w < b)%nat) -> (b <= k)%nat ->
  take (b - length breaks) (wrappedGlyphs codes breaks k) = wrappedGlyphs codes breaks b.
Proof.
  intros Hnd Hlt Hle.
  pose proof (wrappedGlyphs_length breaks b Hnd Hlt) as Hlen.
  replace (b - length breaks)%nat with (length (wrappedGlyphs codes breaks b)) by lia.
  unfold wrappedGlyphs at 2.
  replace k with (b + (k - b))%nat by lia.
  rewrite seq_app, filter_app, map_app. apply take_app_length.
Qed.

Lemma removeItems_tail {A} (l : list A) (start : nat) (count : Z) :
  (start < length l)%nat -> Z.of_nat start + count = Z.of_nat (length l) ->
  removeItems l (Z.of_nat start) count = Some (take start l).
Proof.
  intros Hlt Hsum. unfold removeItems.
  destruct (Z.ltb_spec (Z.of_nat start) 0); [lia|].
  destruct (Z.ltb_spec count 0); [lia|]. simpl.
  destruct (Z.leb_spec (Z.of_nat (length l)) (Z.of_nat start)); [lia|].
  destruct (Z.eqb_spec count 0); [lia|]. simpl.
  rewrite Hsum, !Nat2Z.id, drop_all. by rewrite app_nil_r.
Qed.

Hypothesis glyphs : forall c, c ∈ codes ->
  isLineBreak c = false /\ is_Some (BitmapFont.chars data !! c).

(** One iteration keeps the description of the records, with one more
    position or one more soft break, and does not fail. *)
Lemma scanBody_wrapped k breaks s p :
  wrappedUpTo codes k breaks s -> (k < length codes)%nat ->
  exists s' p' k' breaks',
    scanBody data text letterSpacing maxWidth s p = Scanned s' p'
    /\ wrappedUpTo codes k' breaks' (nextIndex s') /\ (k' <= length codes)%nat.
Proof.
  intros (Hi & Hnd & Hbr & Hch & Hline & Hsp & Hlbp) Hk.
  destruct (lookup_lt_is_Some_2 codes k Hk) as [c Hc].
  destruct (glyphs c) as [Hlb [charData Hdata]]; [by eapply list_elem_of_lookup_2|].
  assert (Hlt : forall w, w ∈ breaks -> (w < k)%nat) by (intros w Hw; by apply Hbr).
  unfold scanBody, charCodeAt. rewrite Hi.
  destruct (Z.ltb_spec (Z.of_nat k) 0); [lia|]. rewrite Nat2Z.id.
  fold codes. rewrite Hc. unfold scanBodyAt. simpl. rewrite Hlb, Hdata.
  destruct (takeCharRenderData p) as [ref q].
  set (r := CharRenderData.mk _ _ _ _ _).
  assert (Hch1 : map glyphKey (chars s ++ [r]) = wrappedGlyphs codes breaks (S k)).
  { rewrite map_app, Hch, wrappedGlyphs_S by done. simpl. unfold glyphKey. simpl.
    by rewrite Hc, Hline. }
  destruct (negb _ && _ && _) eqn:Hwrap.
  - apply andb_prop in Hwrap as [Hwrap _]. apply andb_prop in Hwrap as [Hwrap _].
    apply negb_true_iff, Z.eqb_neq in Hwrap.
    assert (Hb : exists b, (if isWhitespace c then i s else lastBreakPos s) = Z.of_nat b
               /\ (b <= k)%nat /\ (forall w, w ∈ breaks -> (w < b)%nat)
               /\ from_option isWhitespace false (codes !! b) = true).
    { destruct (isWhitespace c) eqn:Hws.
      - exists k. split_and!; [done|lia|done|]. by rewrite Hc.
      - destruct Hlbp as [?|(b & Hb & Hbk & Hbw & Hbs)]; [done|].
        exists b. split_and!; [done|lia|done|done]. }
    destruct Hb as (b & Hb & Hbk & Hbw & Hbs). rewrite Hb.
    pose proof (wrappedGlyphs_length breaks b Hnd Hbw) as Hlenb.
    pose proof (wrappedGlyphs_length breaks (S k) Hnd
                  ltac:(intros w Hw; specialize (Hlt w Hw); lia)) as Hlenk.
    fold codes in Hlenb, Hlenk. rewrite <- Hch1, length_map in Hlenk.
    replace (1 + Z.of_nat b - (spacesRemoved s + 1))
      with (Z.of_nat (b - length breaks)) by lia.
    rewrite removeItems_tail by lia.
    do 2 eexists. exists (S b), (breaks ++ [b]). split; [reflexivity|].
    split; [|lia]. unfold wrappedUpTo, nextIndex. simpl. split_and!.
    + lia.
    + apply NoDup_app. split_and!; [done| |apply NoDup_singleton].
      intros w Hw Hin. apply list_elem_of_singleton in Hin. specialize (Hbw w Hw). lia.
    + intros w Hw. apply elem_of_app in Hw as [Hw|Hw].
      * split; [specialize (Hbw w Hw); lia|by apply Hbr].
      * apply list_elem_of_singleton in Hw as ->. split; [lia|done].
    + change (map glyphKey ?l) with (glyphKey <$> l) in *.
      rewrite fmap_take, Hch1, wrappedGlyphs_take by (done || lia).
      by rewrite wrappedGlyphs_break.
    + rewrite length_app. simpl. lia.
    + rewrite length_app. simpl. lia.
    + by left.
  - do 2 eexists. exists (S k), breaks. split; [reflexivity|].
    split; [|lia]. unfold wrappedUpTo, nextIndex. simpl. split_and!.
    + lia.
    + done.
    + intros w Hw. split; [specialize (Hlt w Hw); lia|by apply Hbr].
    + done.
    + done.
    + done.
    + destruct (isWhitespace c) eqn:Hws.
      * right. exists k. split_and!; [done|lia|done|]. by rewrite Hc.
      * destruct Hlbp as [?|(b & Hb & Hbk & Hbw & Hbs)]; [by left|].
        right. exists b. split_and!; [done|lia|done|done].
Qed.

Lemma scanLoop_wrapped fuel : forall s p k breaks,
  wrappedUpTo codes k breaks s -> (k <= length codes)%nat ->
  match scanLoop data text letterSpacing maxWidth fuel s p with
  | Scanned s' _ => exists breaks', wrappedUpTo codes (length codes) breaks' s'
  | ScanFailed e _ => e = OutOfFuel
  end.
Proof.
  induction fuel as [|fuel IH]; intros s p k breaks Hinv Hk;
    pose proof Hinv as (Hi & _); simpl; unfold textLength;
    rewrite <- (codeUnits_length text); fold codes;
    destruct (Z.ltb_spec (i s) (Z.of_nat (length codes))) as [Hlt|Hge].
  - done.
  - exists breaks. by replace (length codes) with k by lia.
  - destruct (scanBody_wrapped k breaks s p Hinv ltac:(lia))
      as (s' & p' & k' & breaks' & -> & Hinv' & Hk').
    by eapply IH.
  - exists breaks. by replace (length codes) with k by lia.
Qed.

Lemma breaksBefore_S breaks p :
  p ∉ breaks -> breaksBefore breaks (S p) = breaksBefore breaks p.
Proof.
  intros Hp. unfold breaksBefore. f_equal. apply filter_agree.
  intros w Hw. assert (w <> p) by congruence. lia.
Qed.
End SoftWrapScan.

Section SoftWrap.
Context {num : Type} `{JsNumber num}.

(** X3.  For a text in which every character has a glyph and none is a
    line break, at any max width: the scan completes, and there are
    positions of whitespace characters, the soft breaks, such that the
    records are those of the characters at the other positions, in the
    order of the text, each on the line that is the number of breaks
    before it.  The whitespace at a break has no record, and a character
    that is no whitespace is on the line of the character after it: no
    word is split. *)
Theorem soft_wrap_breaks_at_whitespace (o : BitmapText num)
    (data : BitmapFont.t num) (p : CharPool num) :
  let codes := codeUnits (normalizedText (_text o)) in
  (forall c, c ∈ codes ->
     isLineBreak c = false /\ is_Some (BitmapFont.chars data !! c)) ->
  exists s q breaks,
    scanText o data p = Scanned s q
    /\ NoDup breaks
    /\ (forall w, w ∈ breaks ->
          (w < length codes)%nat
          /\ from_option isWhitespace false (codes !! w) = true)
    /\ map glyphKey (chars s) = wrappedGlyphs codes breaks (length codes)
    /\ line s = length breaks
    /\ (forall k, from_option isWhitespace false (codes !! k) = false ->
          breaksBefore breaks (S k) = breaksBefore breaks k).
Proof.
  intros codes Hglyphs. unfold scanText.
  set (text := normalizedText (_text o)) in *.
  pose proof (scan_terminates data text (_letterSpacing o) (maxWidthOf o data) p) as Hends.
  assert (Hstart : wrappedUpTo codes 0 [] (scanStart (num:=num))).
  { unfold wrappedUpTo, scanStart. simpl.
    split_and!; try done; [apply NoDup_nil_2|by intros w Hw%elem_of_nil|by left]. }
  pose proof (scanLoop_wrapped data (_letterSpacing o) (maxWidthOf o data) text Hglyphs
                (scanFuel text) scanStart p 0 [] Hstart ltac:(lia)) as Hloop.
  unfold scan in *.
  destruct (scanLoop _ _ _ _ _ _ p) as [s q|e q].
  - destruct Hloop as (breaks & Hi & Hnd & Hbr & Hch & Hline & _).
    exists (flushLastLine text s), q, breaks.
    assert (Hflush : chars (flushLastLine text s) = chars s
                     /\ line (flushLastLine text s) = line s).
    { unfold flushLastLine. by destruct (from_option isLineBreak _ _). }
    destruct Hflush as [-> ->]. split_and!; try done.
    intros k Hk. apply breaksBefore_S. intros Hin.
    destruct (Hbr k Hin) as [_ Hws]. subst codes. congruence.
  - subst e. by destruct (Hends q).
Qed.
End SoftWrap.

(** ** The lines of a pass *)

Ltac scan_fields :=
  cbn [from_option mbind option_bind default nextIndex
       i pos chars lineWidths prevCharCode lastLineWidth maxLineWidth line
       lastBreakPos lastBreakWidth spacesRemoved maxLineHeight
       Point.x Point.y CharRenderData.line CharRenderData.charCode
       CharRenderData.texture CharRenderData.position] in *.

Section Lines.
Context {num : Type} `{JsNumber num}.
Variable data : FontData num.
Variable text : string.
Variable letterSpacing maxWidth : num.

(** What holds at every head of the loop holds when the loop is left, and
    the loop is left at the end of the text. *)
Lemma scanLoop_invariant (P : Scan num -> CharPool num -> Prop) :
  (forall s p s' p',
      atLoopHead s -> i s < textLength text -> P s p ->
      scanBody data text letterSpacing maxWidth s p = Scanned s' p' ->
      P (nextIndex s') p') ->
  forall fuel s p s' p',
    atLoopHead s -> i s <= textLength text -> P s p ->
    scanLoop data text letterSpacing maxWidth fuel s p = Scanned s' p' ->
    P s' p' /\ i s' = textLength text.
Proof.
  intros Hstep. induction fuel as [|fuel IH]; intros s p s' p' Hhead Hle HP; simpl;
    destruct (Z.ltb_spec (i s) (textLength text)) as [Hlt|Hge].
  - done.
  - intros [= <- <-]. split; [done|lia].
  - destruct (scanBody _ _ _ _ s p) as [s1 p1|e p1] eqn:Hbody; [|done].
    destruct (scanBody_progress _ _ _ _ _ _ _ _ Hhead Hlt Hbody) as [Hhead' _].
    intros Hloop. eapply IH; [exact Hhead'| |exact (Hstep _ _ _ _ Hhead Hlt HP Hbody)|exact Hloop].
    apply scanBody_index in Hbody. destruct Hhead as [? ?].
    unfold nextIndex, bookmark in *. simpl.
    destruct (from_option isWhitespace _ _); destruct Hbody as [[-> _]|(_ & -> & _)]; lia.
  - intros [= <- <-]. split; [done|lia].
Qed.

(** The same for the whole scan, whose last step leaves the records and
    the pool as they are. *)
Lemma scan_invariant (P : Scan num -> CharPool num -> Prop) p s q :
  (forall s p s' p',
      atLoopHead s -> i s < textLength text -> P s p ->
      scanBody data text letterSpacing maxWidth s p = Scanned s' p' ->
      P (nextIndex s') p') ->
  P scanStart p ->
  scan data text letterSpacing maxWidth p = Scanned s q ->
  exists s0, P s0 q /\ i s0 = textLength text /\ s = flushLastLine text s0.
Proof.
  intros Hstep Hstart. unfold scan.
  destruct (scanLoop _ _ _ _ _ _ p) as [s0 p0|e p0] eqn:Hloop; [|done].
  intros [= <- <-]. exists s0.
  eapply (scanLoop_invariant P Hstep) in Hloop as [HP Hi]; [done| | |done].
  - unfold atLoopHead, scanStart. simpl. lia.
  - unfold scanStart, textLength. simpl. lia.
Qed.

Lemma removeItems_sublist {A} (l l' : list A) a b :
  removeItems l a b = Some l' -> l' `sublist_of` l.
Proof.
  unfold removeItems. repeat case_match; try done; intros [= <-]; [done|].
  rewrite <- (take_drop (Z.to_nat a) l) at 3.
  apply sublist_app; [done|].
  replace (Z.to_nat (a + b)) with (Z.to_nat a + Z.to_nat b)%nat by lia.
  rewrite <- drop_drop. apply sublist_drop.
Qed.

Lemma Forall_sublist_of {A} (P : A -> Prop) (l l' : list A) :
  l' `sublist_of` l -> Forall P l -> Forall P l'.
Proof.
  rewrite !Forall_forall. intros Hsub HP x Hx. apply HP. by eapply elem_of_sublist.
Qed.

Lemma widest_snoc (ws : list num) (w : num) :
  widest (ws ++ [w]) = nmax (widest ws) w.
Proof. unfold widest. by rewrite fold_left_app. Qed.

Lemma charCodeAt_back (s : Scan num) :
  charCodeAt text (i (nextIndex s) - 1) = charCodeAt text (i s).
Proof. unfold nextIndex. simpl. f_equal. lia. Qed.

Lemma scanBody_linesKept s p s' p' :
  atLoopHead s -> i s < textLength text -> linesKept data text s ->
  scanBody data text letterSpacing maxWidth s p = Scanned s' p' ->
  linesKept data text (nextIndex s').
Proof.
  intros Hhead Hlt (Hlen & Hmax & Hy & Hch & _) Hbody.
  revert Hbody. unfold scanBody, scanBodyAt.
  destruct (charCodeAt text (i s)) as [c|] eqn:Hc; scan_fields.
  2:{ destruct (data_chars data); [|done].
      intros [= <- <-]. unfold linesKept. rewrite charCodeAt_back. scan_fields.
      rewrite Hc. split_and!; done. }
  destruct (isLineBreak c) eqn:Hlb.
  { intros [= <- <-]. unfold linesKept. rewrite charCodeAt_back. scan_fields.
    split_and!.
    - rewrite length_app. cbn [length]. lia.
    - by rewrite widest_snoc, Hmax.
    - by rewrite Hy.
    - eapply Forall_impl; [exact Hch|]. intros r [? ?]. split; [lia|done].
    - intros _. eapply Forall_impl; [exact Hch|]. intros r [? ?]. cbv beta. lia. }
  destruct (data_chars data) as [glyphs|] eqn:Hglyphs; [|done].
  destruct (glyphs !! c) as [charData|] eqn:Hdata; scan_fields.
  2:{ intros [= <- <-]. unfold linesKept. rewrite charCodeAt_back. scan_fields.
      rewrite Hc. scan_fields. rewrite Hlb. split_and!; done. }
  destruct (takeCharRenderData p) as [ref q].
  set (r := CharRenderData.mk _ _ _ _ _).
  assert (Hr : (CharRenderData.line r <= line s)%nat /\ glyphOfFont data r).
  { split; [done|]. unfold glyphOfFont, r. scan_fields. split; [done|].
    exists charData. rewrite Hglyphs. cbn [mbind option_bind]. by rewrite Hy. }
  destruct (negb _ && _ && _) eqn:Hwrap.
  - destruct (removeItems _ _ _) as [chars2|] eqn:Hrm; [|done].
    apply removeItems_sublist in Hrm.
    assert (Hall : Forall (fun r => (CharRenderData.line r <= line s)%nat
                                    /\ glyphOfFont data r) chars2).
    { eapply Forall_sublist_of; [exact Hrm|]. apply Forall_app. split; [done|].
      by apply Forall_singleton. }
    intros [= <- <-]. unfold linesKept. scan_fields. split_and!.
    + rewrite length_app. cbn [length]. lia.
    + by rewrite widest_snoc, Hmax.
    + by rewrite Hy.
    + eapply Forall_impl; [exact Hall|]. intros r' [? ?]. split; [lia|done].
    + intros _. eapply Forall_impl; [exact Hall|]. intros r' [? ?]. cbv beta. lia.
  - intros [= <- <-]. unfold linesKept. rewrite charCodeAt_back. scan_fields.
    rewrite Hc. scan_fields. rewrite Hlb. split_and!; try done.
    apply Forall_app. split; [done|]. by apply Forall_singleton.
Qed.

Lemma scanStart_linesKept : linesKept data text (scanStart (num:=num)).
Proof. unfold linesKept, scanStart. simpl. split_and!; done. Qed.

(** The lines of a completed scan: there is a width for every line but
    the one after a final line break, which has no record. *)
Lemma scan_lines p s q :
  scan data text letterSpacing maxWidth p = Scanned s q ->
  length (lineWidths s)
  = (if from_option isLineBreak false (charCodeAt text (textLength text - 1))
     then line s else S (line s))
  /\ maxLineWidth s = widest (lineWidths s)
  /\ Point.y (pos s) = lineTop data (line s)
  /\ Forall (fun r => (CharRenderData.line r < length (lineWidths s))%nat
                      /\ glyphOfFont data r) (chars s).
Proof.
  intros Hscan.
  apply (scan_invariant (fun s _ => linesKept data text s)) in Hscan
    as (s0 & Hkept & Hi & ->).
  - destruct Hkept as (Hlen & Hmax & Hy & Hch & Hlast). rewrite Hi in Hlast.
    unfold flushLastLine.
    destruct (from_option isLineBreak false (charCodeAt text (textLength text - 1))).
    + split_and!; try done. specialize (Hlast eq_refl).
      rewrite Forall_forall in Hch, Hlast. apply Forall_forall. intros r Hr.
      split; [|by apply Hch]. rewrite Hlen. by apply Hlast.
    + simpl. split_and!; try done.
      * rewrite length_app. simpl. lia.
      * by rewrite widest_snoc, Hmax.
      * eapply Forall_impl; [exact Hch|]. intros r [? ?]. split; [|done].
        rewrite length_app. simpl. lia.
  - intros s1 p1 s2 p2. apply scanBody_linesKept.
  - apply scanStart_linesKept.
Qed.
End Lines.

(** ** A value without [chars] *)

Section WithoutChars.
Context {num : Type} `{JsNumber num}.
Variable data : FontData num.
Variable text : string.
Variable letterSpacing maxWidth : num.
Hypothesis no_chars : data_chars data = None.

(** The scan with a value that has no [chars] gets past the line breaks
    only: when it completes, the text has nothing else, and there is no
    record. *)
Lemma scan_without_chars p s q :
  scan data text letterSpacing maxWidth p = Scanned s q ->
  Forall (fun c => isLineBreak c = true) (codeUnits text) /\ chars s = [].
Proof.
  intros Hscan.
  apply (scan_invariant _ _ _ _
           (fun s _ => chars s = []
                       /\ Forall (fun c => isLineBreak c = true)
                            (take (Z.to_nat (i s)) (codeUnits text)))) in Hscan
    as (s0 & [Hch Hall] & Hi & ->).
  - split.
    + rewrite Hi in Hall. rewrite take_ge in Hall; [done|].
      rewrite codeUnits_length. unfold textLength. lia.
    + unfold flushLastLine. by destruct (from_option isLineBreak _ _).
  - intros s1 p1 s2 p2 [Hi _] Hlt [Hch Hall].
    unfold scanBody, scanBodyAt. rewrite no_chars.
    destruct (from_option isLineBreak false (charCodeAt text (i s1))) eqn:Hlb; [|done].
    intros [= <- <-]. cbn [nextIndex i chars]. split; [done|].
    unfold charCodeAt in Hlb. destruct (Z.ltb_spec (i s1) 0); [lia|].
    destruct (codeUnits text !! Z.to_nat (i s1)) as [c|] eqn:Hc; [|done].
    replace (Z.to_nat (i s1 + 1)) with (S (Z.to_nat (i s1))) by lia.
    rewrite (take_S_r _ _ _ Hc). apply Forall_app. split; [done|].
    by apply Forall_singleton.
  - split; [done|]. apply Forall_nil_2.
Qed.
End WithoutChars.

Section LinesOfAPass.
Context {num : Type} `{JsNumber num}.

Lemma updateText_inv (o o' : BitmapText num) (w w' : World num) :
  updateText o w = Done tt o' w' ->
  exists data s p,
    lookupFont w (fontKey (Font.name (_font o))) = Some data
    /\ scanText o data (mkCharPool (charRenderDataPool w) (nextRef w)) = Scanned s p
    /\ passOf o w = Some (layoutAfterScan o w data s p)
    /\ (o', w') = commitPass o w data (layoutAfterScan o w data s p).
Proof.
  unfold updateText, passOf.
  destruct (lookupFont w _) as [data|]; [|done].
  destruct (scanText _ _ _) as [s p|e p] eqn:Hs; [|done].
  destruct (commitPass _ _ _ _) as [o1 w1] eqn:Hc. intros [= <- <-].
  exists data, s, p. split_and!; done.
Qed.

(** X4.  In every completed pass each record is on a line that has a
    width and an alignment offset: line 427 never reads past the end of
    [lineAlignOffsets], and the offset of a line with a glyph is never
    computed from a missing width.  There is one width for each line, but
    for the empty line after a final line break. *)
Theorem every_glyph_line_has_a_width (o o' : BitmapText num) (w w' : World num) :
  updateText o w = Done tt o' w' ->
  exists ps,
    passOf o w = Some ps
    /\ let s := scanned ps in
       let text := normalizedText (_text o) in
       let offsets := lineAlignOffsets (Font.align (_font o)) s in
       length offsets = S (line s)
       /\ length (lineWidths s)
          = (if from_option isLineBreak false (charCodeAt text (textLength text - 1))
             then line s else S (line s))
       /\ Forall (fun r =>
                    is_Some (lineWidths s !! CharRenderData.line r)
                    /\ is_Some (offsets !! CharRenderData.line r)) (chars s).
Proof.
  intros Hdone. apply updateText_inv in Hdone as (data & s & p & _ & Hscan & Hpass & _).
  eexists. split; [exact Hpass|]. simpl.
  apply scan_lines in Hscan as (Hlen & _ & _ & Hch).
  assert (Hoff : length (lineAlignOffsets (Font.align (_font o)) s) = S (line s)).
  { unfold lineAlignOffsets. by rewrite length_map, length_seq. }
  split_and!; [done|done|].
  eapply Forall_impl; [exact Hch|]. intros r [Hr _]. simpl in Hr.
  split; apply lookup_lt_is_Some_2; [done|]. rewrite Hoff.
  destruct (from_option isLineBreak _ _); lia.
Qed.

(** X5.  The measurements of a completed pass: the text width is the
    largest of the line widths ([Math.max] folded from 0) times the scale,
    and the text height is the line height added once more than there were
    line ends, times the scale; it does not depend on the glyphs. *)
Theorem measurements_of_a_pass (o o' : BitmapText num) (w w' : World num) :
  updateText o w = Done tt o' w' ->
  exists data ps,
    lookupFont w (fontKey (Font.name (_font o))) = Some data
    /\ passOf o w = Some ps
    /\ _textWidth o' = nmul (widest (lineWidths (scanned ps))) (scaleOf o data)
    /\ _textHeight o' = nmul (lineTop data (S (line (scanned ps)))) (scaleOf o data).
Proof.
  intros Hdone. apply updateText_inv in Hdone as (data & s & p & Hfont & Hscan & Hpass & Hc).
  exists data. eexists. split; [exact Hfont|]. split; [exact Hpass|].
  apply scan_lines in Hscan as (_ & Hmax & Hy & _).
  unfold commitPass in Hc. injection Hc as -> _. simpl. by rewrite Hmax, Hy.
Qed.

(** X6.  Every record of a completed pass is a glyph of the font: its
    character is no line break and has metrics, its texture is the texture
    of those metrics, and its y is the top of its line (the line height
    added once for each line before) plus the y offset of the glyph. *)
Theorem records_are_glyphs_of_the_font (o o' : BitmapText num) (w w' : World num) :
  updateText o w = Done tt o' w' ->
  exists data ps,
    lookupFont w (fontKey (Font.name (_font o))) = Some data
    /\ passOf o w = Some ps
    /\ Forall (glyphOfFont data) (chars (scanned ps)).
Proof.
  intros Hdone. apply updateText_inv in Hdone as (data & s & p & Hfont & Hscan & Hpass & _).
  exists data. eexists. split; [exact Hfont|]. split; [exact Hpass|]. simpl.
  apply scan_lines in Hscan as (_ & _ & _ & Hch).
  eapply Forall_impl; [exact Hch|]. by intros r [_ ?].
Qed.
End LinesOfAPass.

(** ** Text that is not wrapped *)

Section HardBreaks.
Context {num : Type} `{JsNumber num}.
Variable data : BitmapFont.t num.
Variable letterSpacing maxWidth : num.
Hypothesis noWrap : ngt maxWidth nzero = false.

Lemma scanList_plainGlyphs cs : forall (s : Scan num) p,
  exists s' p',
    scanList data letterSpacing maxWidth cs s p = Scanned s' p'
    /\ map glyphKey (chars s') = map glyphKey (chars s) ++ plainGlyphs data cs (line s)
    /\ line s' = (line s + length (filter (fun c => isLineBreak c = true) cs))%nat.
Proof.
  induction cs as [|c cs IH]; intros s p; cbn [scanList plainGlyphs].
  - do 2 eexists. split; [done|]. rewrite app_nil_r. split; [done|]. simpl. lia.
  - unfold scanBodyAt. cbn [from_option mbind option_bind default data_chars data_lineHeight].
    destruct (isLineBreak c) eqn:Hlb.
    { rewrite filter_cons_True by done.
      edestruct IH as (s2 & p2 & -> & Hch & Hline). do 2 eexists.
      split; [done|]. rewrite Hch, Hline. scan_fields. cbn [length]. split; [done|lia]. }
    rewrite filter_cons_False by (by rewrite Hlb).
    destruct (BitmapFont.chars data !! c) as [charData|] eqn:Hc.
    2:{ assert (Hg : hasGlyph data c = false).
        { unfold hasGlyph. rewrite Hc. apply bool_decide_eq_false_2. by intros [? ?]. }
        rewrite Hg. edestruct IH as (s2 & p2 & -> & Hch & Hline). do 2 eexists.
        split; [done|]. by rewrite Hch, Hline. }
    assert (Hg : hasGlyph data c = true).
    { unfold hasGlyph. rewrite Hc. by apply bool_decide_eq_true_2. }
    rewrite Hg.
    destruct (takeCharRenderData p) as [ref q].
    rewrite noWrap, andb_false_r. cbn [andb].
    edestruct IH as (s2 & p2 & -> & Hch & Hline). do 2 eexists.
    split; [done|]. rewrite Hch, Hline. scan_fields. split; [|done].
    rewrite map_app. cbn [map]. by rewrite <- app_assoc.
Qed.
End HardBreaks.

Section PlainText.
Context {num : Type} `{JsNumber num}.

(** X7.  With the soft wrap off (the max width is not above 0, as it is
    unless it was set) every pass completes once the font is there; the
    records are the characters that have metrics and are no line break, in
    the order of the text, each on the line that the line breaks before it
    put it on; and the number of the last line is the number of line
    breaks. *)
Theorem layout_without_wrap (o : BitmapText num) (w : World num)
    (data : BitmapFont.t num) :
  available w !! fontKey (Font.name (_font o)) = Some data ->
  ngt (maxWidthOf o data) nzero = false ->
  let codes := codeUnits (normalizedText (_text o)) in
  exists o' w' ps,
    updateText o w = Done tt o' w'
    /\ passOf o w = Some ps
    /\ map glyphKey (chars (scanned ps)) = plainGlyphs data codes 0
    /\ line (scanned ps) = length (filter (fun c => isLineBreak c = true) codes).
Proof.
  intros Hfont HnoWrap codes. apply lookupFont_registered in Hfont.
  set (text := normalizedText (_text o)) in *.
  set (p := mkCharPool (charRenderDataPool w) (nextRef w)).
  destruct (scanList_plainGlyphs data (_letterSpacing o) (maxWidthOf o data) HnoWrap
              codes scanStart p) as (s & q & Hlist & Hch & Hline).
  assert (Hscan : scanText o data p = Scanned (flushLastLine text s) q).
  { unfold scanText, scan. fold text.
    rewrite scanLoop_noWrap; [|done|done|apply scanFuel_enough].
    simpl. rewrite drop_0. fold codes. by rewrite Hlist. }
  assert (Hflush : chars (flushLastLine text s) = chars s
                   /\ line (flushLastLine text s) = line s).
  { unfold flushLastLine. by destruct (from_option isLineBreak _ _). }
  destruct Hflush as [Hfc Hfl].
  destruct (commitPass o w data (layoutAfterScan o w data (flushLastLine text s) q))
    as [o' w'] eqn:Hcommit.
  exists o', w', (layoutAfterScan o w data (flushLastLine text s) q).
  split_and!.
  - unfold updateText. fold p. by rewrite Hfont, Hscan, Hcommit.
  - unfold passOf. fold p. by rewrite Hfont, Hscan.
  - simpl. by rewrite Hfc, Hch.
  - simpl. by rewrite Hfl, Hline.
Qed.
End PlainText.

Section NoWhitespace.
Context {num : Type} `{JsNumber num}.
Variable data : BitmapFont.t num.
Variable letterSpacing maxWidth : num.

Lemma isLineBreak_isWhitespace c : isLineBreak c = true -> isWhitespace c = true.
Proof.
  unfold isLineBreak, isWhitespace. intros [Hc|Hc]%orb_prop; apply Z.eqb_eq in Hc as ->;
    reflexivity.
Qed.

Lemma scanBodyAt_noSpace c (s : Scan num) p :
  isWhitespace c = false -> lastBreakPos s = -1 ->
  exists s' p',
    scanBodyAt data letterSpacing maxWidth (Some c) s p = Scanned s' p'
    /\ i s' = i s /\ lastBreakPos s' = -1 /\ line s' = line s
    /\ map glyphKey (chars s')
       = map glyphKey (chars s) ++ (if hasGlyph data c then [(c, line s)] else []).
Proof.
  intros Hws Hlbp. unfold scanBodyAt.
  cbn [from_option mbind option_bind default data_chars data_lineHeight].
  rewrite Hws.
  assert (Hlb : isLineBreak c = false).
  { destruct (isLineBreak c) eqn:Hlb; [|done].
    apply isLineBreak_isWhitespace in Hlb. congruence. }
  rewrite Hlb.
  destruct (BitmapFont.chars data !! c) as [charData|] eqn:Hc.
  2:{ assert (Hg : hasGlyph data c = false).
      { unfold hasGlyph. rewrite Hc. apply bool_decide_eq_false_2. by intros [? ?]. }
      rewrite Hg, app_nil_r. do 2 eexists. split_and!; done. }
  assert (Hg : hasGlyph data c = true).
  { unfold hasGlyph. rewrite Hc. by apply bool_decide_eq_true_2. }
  rewrite Hg. destruct (takeCharRenderData p) as [ref q].
  rewrite Hlbp. cbn [Z.eqb negb andb].
  do 2 eexists. split_and!; try done. scan_fields. by rewrite map_app.
Qed.

Lemma scanLoop_noSpace text fuel : forall (s : Scan num) p,
  Forall (fun c => isWhitespace c = false) (codeUnits text) ->
  lastBreakPos s = -1 -> 0 <= i s -> textLength text - i s <= Z.of_nat fuel ->
  exists s' p',
    scanLoop data text letterSpacing maxWidth fuel s p = Scanned s' p'
    /\ line s' = line s
    /\ map glyphKey (chars s')
       = map glyphKey (chars s)
         ++ map (fun c => (c, line s))
              (filter (fun c => hasGlyph data c = true)
                 (drop (Z.to_nat (i s)) (codeUnits text))).
Proof.
  induction fuel as [|fuel IH]; intros s p Hall Hlbp Hi Hf; simpl;
    destruct (Z.ltb_spec (i s) (textLength text)) as [Hlt|Hge]; try lia.
  - rewrite drop_ge by (rewrite codeUnits_length; unfold textLength in *; lia).
    do 2 eexists. split_and!; try done. by rewrite app_nil_r.
  - unfold textLength in Hlt.
    destruct (lookup_lt_is_Some_2 (codeUnits text) (Z.to_nat (i s))) as [c Hc].
    { rewrite codeUnits_length. lia. }
    rewrite (drop_S _ _ _ Hc). unfold scanBody, charCodeAt.
    destruct (Z.ltb_spec (i s) 0); [lia|]. rewrite Hc.
    assert (Hws : isWhitespace c = false).
    { rewrite Forall_forall in Hall. apply Hall. by eapply list_elem_of_lookup_2. }
    destruct (scanBodyAt_noSpace c s p Hws Hlbp) as (s1 & p1 & -> & Hi1 & Hl1 & Hline1 & Hch1).
    destruct (IH (nextIndex s1) p1 Hall) as (s2 & p2 & -> & Hline2 & Hch2);
      [done|simpl; lia|simpl; unfold textLength in *; lia|].
    do 2 eexists. split_and!; [done|simpl in *; congruence|].
    rewrite Hch2. simpl. rewrite Hch1, Hi1, Hline1.
    replace (Z.to_nat (i s + 1)) with (S (Z.to_nat (i s))) by lia.
    rewrite <- app_assoc. f_equal.
    destruct (hasGlyph data c) eqn:Hg.
    + by rewrite filter_cons_True by done.
    + by rewrite filter_cons_False by (by rewrite Hg).
  - rewrite drop_ge by (rewrite codeUnits_length; unfold textLength in *; lia).
    do 2 eexists. split_and!; try done. by rewrite app_nil_r.
Qed.
End NoWhitespace.

Section SingleWord.
Context {num : Type} `{JsNumber num}.

(** X8.  A text without whitespace is never wrapped, whatever the max
    width: the scan completes, every character that has metrics has a
    record on line 0, in the order of the text, and there is one line. *)
Theorem text_without_whitespace_is_not_wrapped (o : BitmapText num)
    (data : BitmapFont.t num) (p : CharPool num) :
  let codes := codeUnits (normalizedText (_text o)) in
  Forall (fun c => isWhitespace c = false) codes ->
  exists s q,
    scanText o data p = Scanned s q
    /\ line s = O
    /\ map glyphKey (chars s)
       = map (fun c => (c, O)) (filter (fun c => hasGlyph data c = true) codes)
    /\ length (lineWidths s) = 1%nat.
Proof.
  intros codes Hall. unfold scanText.
  set (text := normalizedText (_text o)) in *.
  destruct (scanLoop_noSpace data (_letterSpacing o) (maxWidthOf o data) text
              (scanFuel text) scanStart p Hall eq_refl ltac:(done)
              (scanFuel_enough text))
    as (s & q & Hloop & Hline & Hch).
  simpl in Hline, Hch. rewrite drop_0 in Hch. fold codes in Hch.
  pose proof (scan_lines data text (_letterSpacing o) (maxWidthOf o data) p) as Hlines.
  unfold scan in *. rewrite Hloop in *.
  destruct (Hlines _ _ eq_refl) as (Hlen & _).
  exists (flushLastLine text s), q. split; [done|].
  assert (Hlast : from_option isLineBreak false
                    (charCodeAt text (textLength text - 1)) = false).
  { unfold charCodeAt. destruct (_ <? 0); [done|].
    destruct (codeUnits text !! _) as [c|] eqn:Hc; [|done]. simpl.
    destruct (isLineBreak c) eqn:Hlb; [|done].
    apply isLineBreak_isWhitespace in Hlb.
    rewrite Forall_forall in Hall. rewrite Hall in Hlb; [done|].
    by eapply list_elem_of_lookup_2. }
  rewrite Hlast in Hlen.
  assert (Hflush : chars (flushLastLine text s) = chars s
                   /\ line (flushLastLine text s) = line s).
  { unfold flushLastLine. by destruct (from_option isLineBreak _ _). }
  destruct Hflush as [Hfc Hfl]. rewrite Hfl, Hline in Hlen.
  split_and!; [by rewrite Hfl|by rewrite Hfc|done].
Qed.
End SingleWord.

Section LinesOnTheirOwn.
Context {num : Type} `{JsNumber num}.
Variable data : BitmapFont.t num.
Variable letterSpacing maxWidth : num.
Hypothesis noWrap : ngt maxWidth nzero = false.

(** The pen and the previous character decide where the glyphs of the
    rest of the text are put on their lines. *)
Lemma scanList_placedFrom cs : forall (s : Scan num) p s' p',
  scanList data letterSpacing maxWidth cs s p = Scanned s' p' ->
  maxLineHeight s' = tallest data cs (maxLineHeight s)
  /\ exists more,
      chars s' = chars s ++ more
      /\ map placedAt more
         = placedFrom data letterSpacing cs (Point.x (pos s)) (prevCharCode s).
Proof.
  induction cs as [|c cs IH]; intros s p s' p'; cbn [scanList placedFrom].
  - intros [= <- <-]. split; [done|]. exists []. by rewrite app_nil_r.
  - unfold tallest in *. cbn [fold_left].
    unfold scanBodyAt. cbn [from_option mbind option_bind data_chars data_lineHeight].
    destruct (isLineBreak c).
    { intros Hl. by apply IH in Hl. }
    destruct (BitmapFont.chars data !! c) as [charData|]; cbn [default].
    2:{ intros Hl. by apply IH in Hl. }
    destruct (takeCharRenderData p) as [ref q].
    rewrite noWrap, andb_false_r. cbn [andb]. intros Hl.
    apply IH in Hl as (Htall & more & -> & Hmore). cbn [nextIndex chars pos prevCharCode
      maxLineHeight Point.x] in *.
    split; [done|].
    eexists. rewrite <- app_assoc. split; [reflexivity|]. cbn [app map]. by rewrite Hmore.
Qed.

Lemma placedFrom_line_break cs1 cs2 : forall x prev,
  placedFrom data letterSpacing (cs1 ++ 10 :: cs2) x prev
  = placedFrom data letterSpacing cs1 x prev
    ++ placedFrom data letterSpacing cs2 nzero None.
Proof.
  induction cs1 as [|c cs1 IH]; intros x prev; simpl; [done|].
  destruct (isLineBreak c); [apply IH|].
  destruct (BitmapFont.chars data !! c); [|apply IH]. simpl. by rewrite IH.
Qed.

Lemma codeUnits_append s1 s2 :
  codeUnits (String.append s1 s2) = codeUnits s1 ++ codeUnits s2.
Proof. induction s1 as [|a r IH]; simpl; [done|]. by rewrite IH. Qed.

(** The scan of a text that is not wrapped. *)
Lemma scan_plain text p :
  exists s q,
    scan data text letterSpacing maxWidth p = Scanned s q
    /\ map placedAt (chars s) = placedFrom data letterSpacing (codeUnits text) nzero None
    /\ maxLineHeight s = tallest data (codeUnits text) nzero.
Proof.
  unfold scan. rewrite scanLoop_noWrap; [|done|done|apply scanFuel_enough].
  simpl. rewrite drop_0.
  destruct (scanList_noWrap data letterSpacing maxWidth noWrap (codeUnits text) scanStart p)
    as (s & q & Hlist & _).
  rewrite Hlist. exists (flushLastLine text s), q. split; [done|].
  pose proof (scanList_placedFrom _ _ _ _ _ Hlist) as (Htall & more & Hmore & Hplaced).
  cbn [scanStart chars pos prevCharCode maxLineHeight Point.x app] in *.
  assert (Hflush : chars (flushLastLine text s) = chars s
                   /\ maxLineHeight (flushLastLine text s) = maxLineHeight s).
  { unfold flushLastLine. by destruct (from_option isLineBreak _ _). }
  destruct Hflush as [-> ->]. by rewrite Hmore.
Qed.
End LinesOnTheirOwn.

Section PlainLines.
Context {num : Type} `{JsNumber num}.

(** X9.  Without soft wrap the lines are laid out each on its own: the
    characters, textures and x of the records of a text with a line feed
    are those of the text before the line feed followed by those of the
    text after it, each laid out alone; after a line break the pen is at 0
    and no kerning is carried over. *)
Theorem lines_are_laid_out_on_their_own (data : BitmapFont.t num)
    (letterSpacing maxWidth : num) (before after : string) (p p1 p2 : CharPool num) :
  ngt maxWidth nzero = false ->
  exists s q s1 q1 s2 q2,
    scan data (String.append before (String LF after)) letterSpacing maxWidth p
    = Scanned s q
    /\ scan data before letterSpacing maxWidth p1 = Scanned s1 q1
    /\ scan data after letterSpacing maxWidth p2 = Scanned s2 q2
    /\ map placedAt (chars s) = map placedAt (chars s1) ++ map placedAt (chars s2).
Proof.
  intros HnoWrap.
  destruct (scan_plain data letterSpacing maxWidth HnoWrap
              (String.append before (String LF after)) p) as (s & q & Hs & Hp & _).
  destruct (scan_plain data letterSpacing maxWidth HnoWrap before p1)
    as (s1 & q1 & Hs1 & Hp1 & _).
  destruct (scan_plain data letterSpacing maxWidth HnoWrap after p2)
    as (s2 & q2 & Hs2 & Hp2 & _).
  exists s, q, s1, q1, s2, q2. split_and!; try done.
  rewrite Hp, Hp1, Hp2, codeUnits_append. cbn [codeUnits].
  apply placedFrom_line_break.
Qed.
End PlainLines.

(** ** The text that is scanned *)

Section Normalization.

Lemma charCode_of_CR a : charCode_of a = 13 <-> a = CR.
Proof.
  unfold charCode_of, CR. split.
  - intros Hc. rewrite <- (ascii_nat_embedding a).
    by replace (nat_of_ascii a) with 13%nat by lia.
  - intros ->. by vm_compute.
Qed.

Lemma replaceLineBreaks_no_CR s : 13 ∉ codeUnits (replaceLineBreaks s).
Proof.
  induction s as [s H] using (well_founded_induction
    (well_founded_ltof _ String.length)).
  destruct s as [|a r]; [apply not_elem_of_nil|].
  cbn [replaceLineBreaks].
  destruct (Ascii.eqb_spec a CR) as [->|Hne].
  - destruct r as [|b r'].
    + cbn [codeUnits]. intros [Hc|Hc%elem_of_nil]%elem_of_cons; [|done].
      by vm_compute in Hc.
    + destruct (Ascii.eqb b LF); cbn [codeUnits];
        (intros [Hc|Hc]%elem_of_cons; [by vm_compute in Hc|]);
        revert Hc; apply H; unfold ltof; simpl; lia.
  - cbn [codeUnits]. intros [Hc|Hc]%elem_of_cons.
    + symmetry in Hc. by apply charCode_of_CR in Hc.
    + revert Hc. apply H. unfold ltof. simpl. lia.
Qed.

Lemma replaceLineBreaks_id s : 13 ∉ codeUnits s -> replaceLineBreaks s = s.
Proof.
  induction s as [|a r IH]; simpl; [done|].
  intros Hn. apply not_elem_of_cons in Hn as [Ha Hr].
  destruct (Ascii.eqb_spec a CR) as [->|Hne]; [by destruct Ha|].
  by rewrite IH.
Qed.

Lemma replaceLineBreaks_length s :
  (String.length (replaceLineBreaks s) <= String.length s)%nat.
Proof.
  induction s as [s H] using (well_founded_induction
    (well_founded_ltof _ String.length)).
  destruct s as [|a r]; [done|].
  cbn [replaceLineBreaks].
  destruct (Ascii.eqb a CR).
  - destruct r as [|b r']; [simpl; lia|].
    destruct (Ascii.eqb b LF); cbn [String.length].
    + assert (String.length (replaceLineBreaks r') <= String.length r')%nat; [|lia].
      apply H. unfold ltof. simpl. lia.
    + assert (String.length (replaceLineBreaks (String b r')) <= S (String.length r'))%nat;
        [|lia].
      apply (H (String b r')). unfold ltof. simpl. lia.
  - cbn [String.length].
    assert (String.length (replaceLineBreaks r) <= String.length r)%nat; [|lia].
    apply H. unfold ltof. simpl. lia.
Qed.

(** X10.  The text that the pass scans (line 210) is never empty and has no
    carriage return, so that only a line feed ends a line; it is no longer
    than the text of the object, unless that is empty; a text without
    carriage returns that is not empty is scanned as it is; and the
    replacement changes nothing when it is done twice. *)
Theorem normalizedText_spec (s : string) :
  normalizedText s <> EmptyString
  /\ (13 ∉ codeUnits (normalizedText s))
  /\ (String.length (normalizedText s) <= Nat.max 1 (String.length s))%nat
  /\ (13 ∉ codeUnits s -> s <> EmptyString -> normalizedText s = s)
  /\ normalizedText (normalizedText s) = normalizedText s.
Proof.
  assert (Hno : 13 ∉ codeUnits (normalizedText s)).
  { unfold normalizedText. pose proof (replaceLineBreaks_no_CR s) as Hn.
    destruct (replaceLineBreaks s); [|done].
    simpl. intros [Hc|Hc%elem_of_nil]%elem_of_cons; [|done]. by vm_compute in Hc. }
  assert (Hne : normalizedText s <> EmptyString).
  { unfold normalizedText. by destruct (replaceLineBreaks s). }
  assert (Hid : forall t, 13 ∉ codeUnits t -> t <> EmptyString -> normalizedText t = t).
  { intros t Ht Hte. unfold normalizedText. rewrite replaceLineBreaks_id by done.
    by destruct t. }
  split_and!; [done|done| |apply Hid|by apply Hid].
  unfold normalizedText. pose proof (replaceLineBreaks_length s).
  destruct (replaceLineBreaks s); simpl in *; lia.
Qed.
End Normalization.

(** ** The font given as a string *)

Section FontDescriptor.
Context {num : Type} `{JsNumber num}.

Lemma splitSpaces_not_nil s : splitSpaces s <> [].
Proof.
  induction s as [|a r IH]; simpl; [done|].
  destruct (Ascii.eqb a " "); [done|]. by destruct (splitSpaces r).
Qed.

(** [split] at the first space. *)
Lemma splitSpaces_append token rest :
  " "%char ∉ list_ascii_of_string token ->
  splitSpaces (String.append token (String " " rest)) = token :: splitSpaces rest.
Proof.
  induction token as [|a r IH]; simpl; [done|].
  intros Hn. apply not_elem_of_cons in Hn as [Ha Hr].
  destruct (Ascii.eqb_spec a " ") as [->|_]; [done|]. by rewrite IH.
Qed.

Lemma splitSpaces_whole token :
  " "%char ∉ list_ascii_of_string token -> splitSpaces token = [token].
Proof.
  induction token as [|a r IH]; simpl; [done|].
  intros Hn. apply not_elem_of_cons in Hn as [Ha Hr].
  destruct (Ascii.eqb_spec a " ") as [->|_]; [done|]. by rewrite IH.
Qed.

(** [join] undoes [split]. *)
Lemma concat_splitSpaces s : String.concat " " (splitSpaces s) = s.
Proof.
  induction s as [|a r IH]; simpl; [done|].
  pose proof (splitSpaces_not_nil r).
  destruct (Ascii.eqb_spec a " ") as [->|_];
    destruct (splitSpaces r) as [|h t] eqn:Hs; try done.
  - change (String.concat " " ("" :: h :: t)) with (String " " (String.concat " " (h :: t))).
    by rewrite IH.
  - rewrite <- IH. by destruct t.
Qed.

(** X11.  A font given as a string with a space: the part before the first
    space is parsed as the size, and all that follows it, spaces included,
    is the name of the font; the font is not looked up, and the object is
    dirty. *)
Theorem set_font_size_and_name (token name : string) (o : BitmapText num)
    (w : World num) :
  " "%char ∉ list_ascii_of_string token ->
  set_font (FontString (String.append token (String " " name))) o w
  = Done tt
      (setDirty true
         (withFont
            (Font.mk (Some name) (parseInt token) (Font.tint (_font o))
               (Font.align (_font o))) o)) w.
Proof.
  intros Hn. unfold set_font.
  rewrite (splitSpaces_append token name Hn).
  pose proof (splitSpaces_not_nil name) as Hne.
  pose proof (concat_splitSpaces name) as Hjoin.
  destruct (splitSpaces name) as [|h t]; [done|].
  cbn [length head tail default Nat.eqb Nat.leb].
  rewrite Hjoin. by destruct token.
Qed.

(** X12.  A font given as a string without a space is the name of the
    font, and the size is that of the registered font.  When no font of
    that name is registered, the registry, a plain object, still gives the
    property of that name of [Object.prototype]: for such a name
    ("constructor", "toString", ...) the assignment completes with the size
    [undefined] and marks the object dirty.  For any other name the
    assignment fails after the name was written: the size is left as it
    was and the object is not marked dirty. *)
Theorem set_font_name_only (value : string) (o : BitmapText num) (w : World num) :
  value <> EmptyString ->
  " "%char ∉ list_ascii_of_string value ->
  set_font (FontString value) o w
  = match available w !! value with
    | Some data =>
        Done tt
          (setDirty true
             (withFont
                (Font.mk (Some value) (BitmapFont.size data) (Font.tint (_font o))
                   (Font.align (_font o))) o)) w
    | None =>
        if bool_decide (value ∈ objectPrototype) then
          Done tt
            (setDirty true
               (withFont
                  (Font.mk (Some value) nundefined (Font.tint (_font o))
                     (Font.align (_font o))) o)) w
        else
          Failed TypeError
            (withFont
               (Font.mk (Some value) (Font.size (_font o)) (Font.tint (_font o))
                  (Font.align (_font o))) o) w
    end.
Proof.
  intros Hne Hn. unfold set_font, lookupFont. rewrite (splitSpaces_whole value Hn).
  cbn [length head tail default Nat.eqb Nat.leb].
  destruct value as [|a value]; [done|]. unfold id.
  destruct (available w !! String a value) as [data|]; [done|].
  by destruct (bool_decide _).
Qed.
End FontDescriptor.

(** ** The meshes of the pages *)

Section MeshesOfThePages.
Context {num : Type} `{JsNumber num}.
Variable tint : Z.
Variable pool : list (PageMeshData.t num).
Variable st : list (Mesh.t num).
Hypothesis pool_NoDup : NoDup (map PageMeshData.mesh pool).
Hypothesis pool_in_store :
  Forall (fun d => (PageMeshData.mesh d < length st)%nat) pool.

Lemma meshesFor_pooled n d :
  pool !! n = Some d ->
  meshesFor pool st (S n) = meshesFor pool st n ++ [PageMeshData.mesh d].
Proof.
  intros Hd. unfold meshesFor. pose proof (lookup_lt_Some _ _ _ Hd).
  rewrite (take_S_r _ _ _ Hd), map_app. simpl.
  replace (S n - length pool)%nat with O by lia.
  replace (n - length pool)%nat with O by lia. simpl. by rewrite !app_nil_r.
Qed.

Lemma meshesFor_new n :
  (length pool <= n)%nat ->
  meshesFor pool st (S n)
  = meshesFor pool st n ++ [(length st + (n - length pool))%nat].
Proof.
  intros Hn. unfold meshesFor. rewrite !take_ge by lia.
  replace (S n - length pool)%nat with (S (n - length pool)) by lia.
  by rewrite seq_S, app_assoc.
Qed.

Lemma meshesFor_NoDup n : NoDup (meshesFor pool st n).
Proof.
  unfold meshesFor. apply NoDup_app. split_and!.
  - apply (sublist_NoDup _ (map PageMeshData.mesh pool)); [exact pool_NoDup|].
    apply (fmap_sublist PageMeshData.mesh), sublist_take.
  - intros m Hm Hs. apply elem_of_seq in Hs.
    apply list_elem_of_fmap in Hm as (d & -> & Hd).
    apply elem_of_take in Hd as (k & Hd & _).
    rewrite Forall_forall in pool_in_store.
    specialize (pool_in_store d (list_elem_of_lookup_2 _ _ _ Hd)). lia.
  - apply NoDup_seq.
Qed.

Lemma meshesFor_below n m :
  m ∈ meshesFor pool st n -> (m < length st + (n - length pool))%nat.
Proof.
  unfold meshesFor. intros [Hm|Hm]%elem_of_app.
  - apply list_elem_of_fmap in Hm as (d & -> & Hd).
    apply elem_of_take in Hd as (k & Hd & _).
    rewrite Forall_forall in pool_in_store.
    specialize (pool_in_store d (list_elem_of_lookup_2 _ _ _ Hd)). lia.
  - apply elem_of_seq in Hm. lia.
Qed.

Lemma pagesAlter_elem_of f uid (pages : Pages (num:=num)) k d :
  (k, d) ∈ pagesAlter f uid pages ->
  exists d0, (k, d0) ∈ pages /\ (d = d0 \/ d = f d0).
Proof.
  induction pages as [|[k0 v] pages IH]; simpl; [by intros ?%elem_of_nil|].
  destruct (k0 =? uid)%N.
  - intros [[= -> ->]|Hin]%elem_of_cons.
    + exists v. split; [left|by right].
    + exists d. split; [by right|by left].
  - intros [[= -> ->]|Hin]%elem_of_cons.
    + exists v. split; [left|by left].
    + destruct (IH Hin) as (d0 & Hd0 & Hd). exists d0. split; [by right|done].
Qed.

Lemma pageMeshes_pagesAlter f uid (pages : Pages (num:=num)) :
  (forall d, PageMeshData.mesh (f d) = PageMeshData.mesh d) ->
  pageMeshes (pagesAlter f uid pages) = pageMeshes pages.
Proof.
  intros Hf. induction pages as [|[k v] pages IH]; simpl; [done|].
  destruct (k =? uid)%N; simpl; [by rewrite Hf|by rewrite IH].
Qed.

Lemma pagesAlter_length f uid (pages : Pages (num:=num)) :
  length (pagesAlter f uid pages) = length pages.
Proof.
  induction pages as [|[k v] pages IH]; simpl; [done|].
  destruct (k =? uid)%N; simpl; by rewrite ?IH.
Qed.

(** Counting a glyph changes neither the meshes nor the pool. *)
Lemma batched_count uid (b : Batching num) :
  batched tint pool st b ->
  batched tint pool st
    (mkBatching (pagesAlter countGlyph uid (pagesMeshData b))
       (meshesToAdd b) (pagePool b) (store b)).
Proof.
  intros (Hnd & Hpool & Hadd & Hlen & Hperm & Hpages & Hrest).
  unfold batched. simpl. rewrite pagesAlter_length, pagesAlter_fst.
  rewrite pageMeshes_pagesAlter by done.
  split_and!; try done.
  intros k d Hin. apply pagesAlter_elem_of in Hin as (d0 & Hin & [->| ->]);
    by apply (Hpages k d0).
Qed.

Lemma batchChar_batched (b : Batching num) (c : CharRenderData.t num) :
  batched tint pool st b -> batched tint pool st (batchChar tint b c).
Proof.
  intros Hb. unfold batchChar.
  destruct (pagesLookup (pageOf c) (pagesMeshData b)) as [d|] eqn:Hl;
    [by apply batched_count|].
  apply batched_count.
  destruct Hb as (Hnd & Hpool & Hadd & Hlen & Hperm & Hpages & Hrest).
  set (n := length (pagesMeshData b)) in *.
  set (uid := pageOf c) in *.
  assert (Htake : exists d0 pool' st',
    takePageMeshData (pagePool b) (store b) = (d0, pool', st')
    /\ pool' = drop (S n) pool
    /\ meshesFor pool st (S n) = meshesFor pool st n ++ [PageMeshData.mesh d0]
    /\ length st' = (length st + (S n - length pool))%nat
    /\ (PageMeshData.mesh d0 < length st')%nat
    /\ (forall k, k <> PageMeshData.mesh d0 -> st' !! k = store b !! k)).
  { unfold takePageMeshData. destruct (pagePool b) as [|d0 rest] eqn:Hp.
    - assert (length pool <= n)%nat.
      { apply (f_equal length) in Hpool. rewrite length_drop in Hpool. simpl in Hpool. lia. }
      do 3 eexists. split; [reflexivity|]. simpl. split_and!.
      + rewrite drop_ge; [done|lia].
      + rewrite meshesFor_new by done. do 2 f_equal. lia.
      + rewrite length_app. simpl. lia.
      + rewrite length_app. simpl. lia.
      + intros k Hk. destruct (decide (k < length (store b))%nat).
        * by rewrite lookup_app_l.
        * rewrite lookup_app_r by lia.
          destruct (k - length (store b))%nat eqn:Hd; [lia|].
          simpl. rewrite lookup_nil. symmetry. apply lookup_ge_None. lia.
    - assert (Hd0 : pool !! n = Some d0).
      { rewrite <- (Nat.add_0_r n), <- lookup_drop, <- Hpool. done. }
      pose proof (lookup_lt_Some _ _ _ Hd0).
      do 3 eexists. split; [reflexivity|]. split_and!.
      + apply (f_equal (drop 1)) in Hpool. simpl in Hpool. rewrite drop_0 in Hpool.
        rewrite drop_drop in Hpool. by replace (S n) with (n + 1)%nat by lia.
      + by apply meshesFor_pooled.
      + lia.
      + rewrite Forall_forall in pool_in_store.
        specialize (pool_in_store d0 (list_elem_of_lookup_2 _ _ _ Hd0)). lia.
      + done. }
  destruct Htake as (d0 & pool' & st' & -> & Hpool' & Hfor & Hlen' & Hin' & Hsame).
  set (m := PageMeshData.mesh d0) in *.
  assert (Hfresh : m ∉ meshesToAdd b).
  { pose proof (meshesFor_NoDup (S n)) as Hn. rewrite Hfor, <- Hadd in Hn.
    apply NoDup_app in Hn as (_ & Hn & _). intros Hm. apply (Hn m Hm). left. }
  assert (Hset : pagesSet uid (resetPageMeshData d0) (pagesMeshData b)
                 ≡ₚ (uid, resetPageMeshData d0) :: pagesMeshData b)
    by (by apply pagesSet_perm).
  set (pages' := pagesSet uid (resetPageMeshData d0) (pagesMeshData b)) in *.
  assert (Hlen2 : length pages' = S n) by (by rewrite (Permutation_length Hset)).
  assert (Hkeys : map fst pages' ≡ₚ uid :: map fst (pagesMeshData b))
    by (apply (fmap_Permutation fst) in Hset; exact Hset).
  assert (Hmeshes : pageMeshes pages' ≡ₚ m :: pageMeshes (pagesMeshData b))
    by (apply (fmap_Permutation (fun kv => PageMeshData.mesh kv.2)) in Hset; exact Hset).
  assert (Helem : forall kv, kv ∈ pages' ->
                    kv = (uid, resetPageMeshData d0) \/ kv ∈ pagesMeshData b).
  { intros kv Hkv. apply (elem_of_Permutation_proper _ _ _ Hset) in Hkv.
    by apply elem_of_cons in Hkv. }
  unfold batched. cbn [pagesMeshData meshesToAdd pagePool store]. rewrite Hlen2.
  split_and!.
  - apply (NoDup_Permutation_proper _ _ Hkeys).
    apply NoDup_cons. split; [by apply pagesLookup_None|done].
  - done.
  - by rewrite Hfor, Hadd.
  - by rewrite length_alter.
  - etrans; [exact Hmeshes|]. etrans; [|apply Permutation_cons_append].
    by apply Permutation_cons.
  - intros k d Hin. apply Helem in Hin as [[= -> ->]|Hin].
    + simpl. fold m. rewrite list_lookup_alter_eq.
      destruct (lookup_lt_is_Some_2 st' m Hin') as [mesh ->]. simpl. eauto.
    + destruct (Hpages k d Hin) as (mesh & Hmesh & Ht & Htint).
      assert (Hne : PageMeshData.mesh d <> m).
      { intros Heq. apply Hfresh.
        apply (elem_of_Permutation_proper _ _ _ Hperm). rewrite <- Heq.
        apply (list_elem_of_fmap_2 (fun kv => PageMeshData.mesh kv.2) _ _ Hin). }
      exists mesh. rewrite list_lookup_alter_ne by done. rewrite Hsame by done. done.
  - intros k Hk. apply not_elem_of_app in Hk as [Hk Hkm].
    apply not_elem_of_cons in Hkm as [Hkm _].
    rewrite list_lookup_alter_ne by done. rewrite Hsame by done. by apply Hrest.
Qed.

Lemma batchChars_batched (cs : list (CharRenderData.t num)) :
  batched tint pool st (batchChars tint cs pool st).
Proof.
  unfold batchChars.
  assert (Hgen : forall b, batched tint pool st b ->
                   batched tint pool st (fold_left (batchChar tint) cs b)).
  { induction cs as [|c cs' IH]; intros b Hb; simpl; [done|].
    apply IH. by apply batchChar_batched. }
  apply Hgen. unfold batched, meshesFor; simpl. rewrite ?drop_0, ?take_0. simpl.
  split_and!; try done.
  - constructor.
  - by intros uid d Hin%elem_of_nil.
Qed.
End MeshesOfThePages.

Section Records.
Context {num : Type} `{JsNumber num}.
Variable data : FontData num.
Variable text : string.
Variable letterSpacing maxWidth : num.

Lemma scanBody_distinctRecords s p s' p' :
  distinctRecords s p ->
  scanBody data text letterSpacing maxWidth s p = Scanned s' p' ->
  distinctRecords (nextIndex s') p'.
Proof.
  intros [Hnd Hlt]. unfold scanBody, scanBodyAt.
  destruct (from_option isLineBreak false _); [by intros [= <- <-]|].
  destruct (data_chars data) as [glyphs|]; [|done].
  destruct (_ ≫= _) as [charData|]; [|by intros [= <- <-]].
  destruct (takeCharRenderData p) as [ref q] eqn:Htake.
  set (r := CharRenderData.mk _ _ _ _ _).
  assert (Hone : distinctRecords
            (mkScan 0 (pos s) (chars s ++ [r]) [] None nzero nzero O 0 nzero 0 nzero) q).
  { unfold distinctRecords, takeCharRenderData in *. simpl.
    destruct (free p) as [|r0 rest] eqn:Hfree; injection Htake as <- <-; simpl.
    - rewrite app_nil_r in *. split.
      + rewrite map_app. simpl. apply NoDup_app. split_and!; [done| |apply NoDup_singleton].
        intros k Hk Hin. apply list_elem_of_singleton in Hin as ->.
        apply list_elem_of_fmap in Hk as (r1 & Hr1 & Hin).
        rewrite Forall_forall in Hlt. specialize (Hlt r1 Hin). lia.
      + apply Forall_app. split; [|by apply Forall_singleton; simpl; lia].
        eapply Forall_impl; [exact Hlt|]. simpl. intros; lia.
    - rewrite <- app_assoc. simpl.
      rewrite !map_app in *. simpl in *. split; [done|].
      rewrite !Forall_app, !Forall_cons in *. simpl. tauto. }
  destruct (negb _ && _ && _).
  - destruct (removeItems _ _ _) as [chars2|] eqn:Hrm; [|done].
    apply removeItems_sublist in Hrm. intros [= <- <-].
    destruct Hone as [Hnd1 Hlt1]. unfold distinctRecords in *. simpl in *.
    assert (Hsub : chars2 ++ free q `sublist_of` (chars s ++ [r]) ++ free q)
      by (by apply sublist_app).
    split.
    + apply (sublist_NoDup _ _ Hnd1). by apply (fmap_sublist CharRenderData.ref).
    + by eapply Forall_sublist_of.
  - by intros [= <- <-].
Qed.

(** The records of a completed scan and those left in the pool are
    different objects. *)
Lemma scan_distinctRecords p s q :
  NoDup (map CharRenderData.ref (free p)) ->
  Forall (fun r => (CharRenderData.ref r < fresh p)%nat) (free p) ->
  scan data text letterSpacing maxWidth p = Scanned s q ->
  distinctRecords s q /\ (fresh p <= fresh q)%nat.
Proof.
  intros Hnd Hlt Hscan.
  apply (scan_invariant _ _ _ _
           (fun s q => distinctRecords s q /\ (fresh p <= fresh q)%nat)) in Hscan
    as (s0 & [Hd Hf] & _ & ->).
  - split; [|done]. unfold distinctRecords, flushLastLine in *.
    by destruct (from_option isLineBreak _ _).
  - intros s1 p1 s2 p2 _ _ [Hd Hf] Hbody. split; [by eapply scanBody_distinctRecords|].
    revert Hbody. unfold scanBody, scanBodyAt, takeCharRenderData.
    repeat case_match; intros [= <- <-]; simplify_eq/=; lia.
  - done.
Qed.
End Records.

Section FoldsOverTheStore.
Context {A B : Type}.

Lemma fold_alter_length (key : B -> nat) (f : B -> A -> A) (items : list B)
    (st : list A) :
  length (fold_left (fun st x => alter (f x) (key x) st) items st) = length st.
Proof.
  revert st. induction items as [|x items IH]; intros st; simpl; [done|].
  by rewrite IH, length_alter.
Qed.

Lemma lookup_fold_alter_other (key : B -> nat) (f : B -> A -> A) (items : list B)
    (st : list A) (k : nat) :
  k ∉ map key items ->
  fold_left (fun st x => alter (f x) (key x) st) items st !! k = st !! k.
Proof.
  revert st. induction items as [|x items IH]; intros st Hk; simpl; [done|].
  simpl in Hk. apply not_elem_of_cons in Hk as [Hne Hk].
  rewrite IH by done. by apply list_lookup_alter_ne.
Qed.
End FoldsOverTheStore.

Section SceneAttachment.
Context {num : Type} `{JsNumber num}.
Implicit Types (st : list (Mesh.t num)) (m k : nat).

Lemma setParent_same q (mesh : Mesh.t num) :
  Mesh.parent mesh = q -> setParent q mesh = mesh.
Proof. intros <-. by destruct mesh. Qed.

Lemma attachNew_length this ms st : length (attachNew this ms st) = length st.
Proof.
  unfold attachNew. revert st. induction ms as [|m ms IH]; intros st; simpl; [done|].
  rewrite IH. case_bool_decide; [done|]. apply length_alter.
Qed.

Lemma lookup_attach_step this st m k :
  (if bool_decide (parentOf st m = Some this) then st else addChild this st m) !! k
  = (if bool_decide (k = m) then setParent (Some this) else id) <$> st !! k.
Proof.
  unfold addChild, parentOf. destruct (decide (k = m)) as [->|Hne].
  - rewrite (bool_decide_eq_true_2 (m = m)) by done.
    destruct (decide (st !! m ≫= Mesh.parent = Some this)) as [Hp|Hp].
    + rewrite bool_decide_eq_true_2 by done.
      destruct (st !! m) as [mesh|]; [|done]. simpl in *.
      rewrite setParent_same; congruence.
    + rewrite bool_decide_eq_false_2 by done. apply list_lookup_alter_eq.
  - rewrite (bool_decide_eq_false_2 (k = m)) by done.
    destruct (bool_decide _); rewrite ?list_lookup_alter_ne by done;
      by destruct (st !! k).
Qed.

(** After lines 396-402 the meshes to add, and only they, have this
    object as parent. *)
Lemma lookup_attachNew this ms st k :
  attachNew this ms st !! k
  = (if bool_decide (k ∈ ms) then setParent (Some this) else id) <$> st !! k.
Proof.
  unfold attachNew. revert st. induction ms as [|m ms IH]; intros st; cbn [fold_left].
  - rewrite bool_decide_eq_false_2 by apply not_elem_of_nil. by destruct (st !! k).
  - rewrite IH, lookup_attach_step. destruct (st !! k) as [mesh|]; simpl; [|done].
    rewrite (bool_decide_ext (k ∈ m :: ms) (k = m \/ k ∈ ms)) by apply elem_of_cons.
    repeat case_bool_decide; simpl; try tauto; by destruct mesh.
Qed.

Lemma detachStale_length this cur add st :
  length (detachStale this cur add st) = length st.
Proof.
  unfold detachStale, removeChild. revert st.
  induction cur as [|m cur IH]; intros st; simpl; [done|].
  rewrite IH. repeat case_bool_decide; try done. apply length_alter.
Qed.

Lemma lookup_detach_step this (add : list nat) st m k :
  (if bool_decide (m ∈ add) then st else removeChild this st m) !! k
  = (if bool_decide (k = m /\ (k ∉ add) /\ parentOf st k = Some this)
     then setParent None else id) <$> st !! k.
Proof.
  unfold removeChild. destruct (decide (k = m)) as [->|Hne].
  - destruct (decide (m ∈ add)) as [Ha|Ha].
    + rewrite (bool_decide_eq_true_2 (m ∈ add)) by done.
      rewrite bool_decide_eq_false_2 by tauto. by destruct (st !! m).
    + rewrite (bool_decide_eq_false_2 (m ∈ add)) by done.
      destruct (decide (parentOf st m = Some this)) as [Hp|Hp].
      * rewrite !bool_decide_eq_true_2 by done. apply list_lookup_alter_eq.
      * rewrite !bool_decide_eq_false_2 by tauto. by destruct (st !! m).
  - rewrite (bool_decide_eq_false_2 (k = m /\ _)) by tauto.
    repeat destruct (bool_decide _); rewrite ?list_lookup_alter_ne by done;
      by destruct (st !! k).
Qed.

(** After lines 388-394 a mesh has lost its parent when it was current, is
    not used again and was a child of this object; all others are as they
    were. *)
Lemma lookup_detachStale this cur add st k :
  detachStale this cur add st !! k
  = (if bool_decide (k ∈ cur /\ (k ∉ add) /\ parentOf st k = Some this)
     then setParent None else id) <$> st !! k.
Proof.
  unfold detachStale. revert st. induction cur as [|m cur IH]; intros st; cbn [fold_left].
  - rewrite bool_decide_eq_false_2; [by destruct (st !! k)|].
    intros [Hin _]. by apply elem_of_nil in Hin.
  - rewrite IH. unfold parentOf. rewrite !lookup_detach_step. unfold parentOf.
    destruct (st !! k) as [mesh|]; simpl; [|done].
    rewrite (bool_decide_ext (k ∈ m :: cur /\ (k ∉ add) /\ Mesh.parent mesh = Some this)
               ((k = m \/ k ∈ cur) /\ (k ∉ add) /\ Mesh.parent mesh = Some this))
      by (by rewrite elem_of_cons).
    repeat case_bool_decide; simpl in *; try tauto; try done;
      destruct mesh; simpl in *; try done; try tauto; congruence.
Qed.

Lemma sizeMeshes_length (pages : Pages (num:=num)) st :
  length (sizeMeshes pages st) = length st.
Proof. apply fold_alter_length. Qed.

Lemma publishPages_length (pages : Pages (num:=num)) st :
  length (publishPages pages st) = length st.
Proof. apply fold_alter_length. Qed.
End SceneAttachment.

Section PagesOfAPass.
Context {num : Type} `{JsNumber num}.
Implicit Types (pages : Pages (num:=num)) (d : PageMeshData.t num).

Lemma sizeBuffers_mesh d :
  PageMeshData.mesh (sizeBuffers d) = PageMeshData.mesh d
  /\ PageMeshData.total (sizeBuffers d) = PageMeshData.total d.
Proof. unfold sizeBuffers. by destruct (fitsCurrentBuffers d). Qed.

Lemma anchorPage_mesh anchor tw th d :
  PageMeshData.mesh (anchorPage anchor tw th d) = PageMeshData.mesh d
  /\ PageMeshData.total (anchorPage anchor tw th d) = PageMeshData.total d.
Proof. unfold anchorPage. by destruct (anchored anchor). Qed.

Lemma pageMeshes_sizePages pages : pageMeshes (sizePages pages) = pageMeshes pages.
Proof.
  unfold pageMeshes, sizePages. rewrite map_map. apply map_ext. intros [k d]. simpl.
  apply sizeBuffers_mesh.
Qed.

Lemma pageMeshes_anchorPages anchor tw th pages :
  pageMeshes (anchorPages anchor tw th pages) = pageMeshes pages.
Proof.
  unfold pageMeshes, anchorPages. rewrite map_map. apply map_ext. intros [k d]. simpl.
  apply anchorPage_mesh.
Qed.

Lemma pageMeshes_emitChars scale offsets cs : forall pages,
  pageMeshes (emitChars scale offsets cs pages) = pageMeshes pages.
Proof.
  induction cs as [|c cs IH]; intros pages; simpl; [done|].
  rewrite IH. by apply pageMeshes_pagesAlter.
Qed.

Lemma elem_of_emitChars scale offsets cs : forall pages uid d,
  (uid, d) ∈ emitChars scale offsets cs pages ->
  exists d0, (uid, d0) ∈ pages
    /\ PageMeshData.mesh d = PageMeshData.mesh d0
    /\ PageMeshData.total d = PageMeshData.total d0.
Proof.
  induction cs as [|c cs IH]; intros pages uid d; simpl; [by eauto|].
  intros Hin. apply IH in Hin as (d1 & Hin & Hm & Ht).
  apply pagesAlter_elem_of in Hin as (d0 & Hin & [->| ->]); exists d0; by rewrite Hm, Ht.
Qed.

Lemma pagesSet_keys uid d pages k :
  k ∈ map fst (pagesSet uid d pages) -> k = uid \/ k ∈ map fst pages.
Proof.
  induction pages as [|[k0 v] pages IH]; simpl.
  - intros [->|Hk%elem_of_nil]%elem_of_cons; [by left|done].
  - destruct (k0 =? uid)%N eqn:He; [|destruct (uid <? k0)%N]; simpl.
    + apply N.eqb_eq in He as ->. intros Hk. by right.
    + intros [->|Hk]%elem_of_cons; [by left|by right].
    + intros [->|Hk]%elem_of_cons; [right; left|].
      destruct (IH Hk) as [->|Hin]; [by left|right; by right].
Qed.

(** The pages are kept in ascending order of uid, the order in which the
    loops over [pagesMeshData] visit them. *)
Lemma pagesSet_sorted uid d pages :
  StronglySorted N.lt (map fst pages) ->
  StronglySorted N.lt (map fst (pagesSet uid d pages)).
Proof.
  induction pages as [|[k0 v] pages IH]; simpl; intros Hs.
  - repeat constructor.
  - apply StronglySorted_inv in Hs as [Hs Hall].
    destruct (N.eqb_spec k0 uid) as [->|Hne]; [by constructor|].
    destruct (N.ltb_spec uid k0) as [Hlt|Hge]; simpl.
    + constructor; [by constructor|]. constructor; [done|].
      eapply Forall_impl; [exact Hall|]. simpl. intros; lia.
    + constructor; [by apply IH|]. apply Forall_forall. intros k Hk.
      apply pagesSet_keys in Hk as [->|Hk]; [lia|].
      rewrite Forall_forall in Hall. by apply Hall.
Qed.

Lemma batchChars_sorted tint (cs : list (CharRenderData.t num)) pool st :
  StronglySorted N.lt (map fst (pagesMeshData (batchChars tint cs pool st))).
Proof.
  unfold batchChars.
  assert (Hgen : forall b : Batching num,
            StronglySorted N.lt (map fst (pagesMeshData b)) ->
            StronglySorted N.lt
              (map fst (pagesMeshData (fold_left (batchChar tint) cs b)))).
  { induction cs as [|c cs' IH]; intros b Hb; simpl; [done|].
    apply IH. unfold batchChar.
    destruct (pagesLookup _ _); cbn [pagesMeshData]; rewrite pagesAlter_fst; [done|].
    destruct (takePageMeshData _ _) as [[d pool'] st']. cbn [pagesMeshData].
    by apply pagesSet_sorted. }
  apply Hgen. constructor.
Qed.

Lemma lookup_publishPages pages (st : list (Mesh.t num)) uid d :
  NoDup (pageMeshes pages) -> (uid, d) ∈ pages ->
  publishPages pages st !! PageMeshData.mesh d
  = publishBuffers d <$> st !! PageMeshData.mesh d.
Proof.
  intros Hnd Hin.
  exact (lookup_fold_alter_last (fun kv => PageMeshData.mesh kv.2)
           (fun kv => publishBuffers kv.2) pages st (uid, d) Hnd Hin).
Qed.

Lemma lookup_sizeMeshes pages (st : list (Mesh.t num)) uid d :
  NoDup (pageMeshes pages) -> (uid, d) ∈ pages ->
  sizeMeshes pages st !! PageMeshData.mesh d
  = setMeshSize (6 * PageMeshData.total d) <$> st !! PageMeshData.mesh d.
Proof.
  intros Hnd Hin.
  exact (lookup_fold_alter_last (fun kv => PageMeshData.mesh kv.2)
           (fun kv => setMeshSize (6 * PageMeshData.total kv.2)) pages st (uid, d) Hnd Hin).
Qed.

Lemma lookup_publishPages_other pages (st : list (Mesh.t num)) k :
  k ∉ pageMeshes pages -> publishPages pages st !! k = st !! k.
Proof. apply lookup_fold_alter_other. Qed.

Lemma lookup_sizeMeshes_other pages (st : list (Mesh.t num)) k :
  k ∉ pageMeshes pages -> sizeMeshes pages st !! k = st !! k.
Proof. apply lookup_fold_alter_other. Qed.
End PagesOfAPass.

Section MeshesOfAPass.
Context {num : Type} `{JsNumber num}.
Variable o : BitmapText num.
Variable w : World num.
Variable data : FontData num.
Variable s : Scan num.
Variable p : CharPool num.
Hypothesis pool_NoDup : NoDup (map PageMeshData.mesh (pageMeshDataPool w)).
Hypothesis pool_in_store :
  Forall (fun d => (PageMeshData.mesh d < length (meshes w))%nat) (pageMeshDataPool w).

Let ps := layoutAfterScan o w data s p.
Let b := batching ps.

Lemma pass_batched : batched (_tint o) (pageMeshDataPool w) (meshes w) b.
Proof. by apply batchChars_batched. Qed.

Lemma pass_pageMeshes :
  pageMeshes (finalPages ps) = pageMeshes (pagesMeshData b).
Proof.
  unfold ps, layoutAfterScan. cbn [finalPages batching].
  by rewrite pageMeshes_anchorPages, pageMeshes_emitChars, pageMeshes_sizePages.
Qed.

Lemma pass_length : length (finalPages ps) = length (pagesMeshData b).
Proof.
  pose proof pass_pageMeshes as Hm. apply (f_equal length) in Hm.
  unfold pageMeshes in Hm. by rewrite !length_map in Hm.
Qed.

Lemma pass_sorted : StronglySorted N.lt (map fst (finalPages ps)).
Proof.
  unfold ps, layoutAfterScan. cbn [finalPages].
  rewrite anchorPages_fst, emitChars_fst, sizePages_fst. apply batchChars_sorted.
Qed.

Lemma pass_meshes_NoDup : NoDup (pageMeshes (finalPages ps)).
Proof.
  destruct pass_batched as (_ & _ & Hadd & _ & Hperm & _).
  rewrite pass_pageMeshes, Hperm, Hadd. by apply meshesFor_NoDup.
Qed.

Lemma attached_length :
  length (attached ps)
  = (length (meshes w) + (length (finalPages ps) - length (pageMeshDataPool w)))%nat.
Proof.
  destruct pass_batched as (_ & _ & _ & Hlen & _).
  unfold ps, layoutAfterScan in *. cbn [attached batching] in *.
  rewrite sizeMeshes_length, attachNew_length, detachStale_length.
  fold ps. rewrite pass_length. exact Hlen.
Qed.

(** The mesh of a page after the pass: all its fields are those of the
    page and of the object. *)
Lemma pass_published uid d :
  (uid, d) ∈ finalPages ps ->
  publishPages (finalPages ps) (attached ps) !! PageMeshData.mesh d
  = Some (publishedMesh o uid d).
Proof.
  intros Hin.
  rewrite (lookup_publishPages _ _ uid d pass_meshes_NoDup Hin).
  destruct pass_batched as (_ & _ & _ & _ & Hperm & Hpages & _).
  assert (Hnd : NoDup (pageMeshes (sizePages (pagesMeshData b)))).
  { rewrite pageMeshes_sizePages, <- pass_pageMeshes. apply pass_meshes_NoDup. }
  unfold b, ps, layoutAfterScan in *. cbn [finalPages attached batching] in *.
  set (bt := batchChars (_tint o) (chars s) (pageMeshDataPool w) (meshes w)) in *.
  unfold anchorPages in Hin. apply list_elem_of_fmap in Hin as ([k d2] & [= -> ->] & Hin).
  cbn [fst snd] in *.
  set (df := anchorPage _ _ _ d2).
  assert (Hf : PageMeshData.mesh df = PageMeshData.mesh d2
               /\ PageMeshData.total df = PageMeshData.total d2)
    by apply anchorPage_mesh.
  destruct Hf as [Hm2 Ht2].
  apply elem_of_emitChars in Hin as (d1 & Hin1 & Hm1 & Ht1).
  pose proof Hin1 as Hin0.
  unfold sizePages in Hin0. apply list_elem_of_fmap in Hin0 as ([k0 d0] & [= -> ->] & Hin0).
  cbn [fst snd] in *.
  destruct (sizeBuffers_mesh d0) as [Hm0 Ht0].
  destruct (Hpages k0 d0 Hin0) as (mesh & Hmesh & Htex & Htint).
  assert (Hadd : PageMeshData.mesh d0 ∈ meshesToAdd bt).
  { apply (elem_of_Permutation_proper _ _ _ Hperm).
    apply (list_elem_of_fmap_2 (fun kv => PageMeshData.mesh kv.2) _ _ Hin0). }
  replace (PageMeshData.mesh df) with (PageMeshData.mesh (sizeBuffers d0)) by congruence.
  rewrite (lookup_sizeMeshes _ _ k0 (sizeBuffers d0) Hnd Hin1).
  rewrite Hm0, lookup_attachNew, lookup_detachStale.
  rewrite bool_decide_eq_true_2 by done.
  rewrite (bool_decide_eq_false_2 (_ /\ _)) by tauto.
  rewrite Hmesh. simpl. f_equal. unfold publishedMesh, publishBuffers. simpl.
  f_equal; congruence.
Qed.

(** The meshes that the pass does not use: a mesh that was current and a
    child of the object has lost its parent, all others are as they
    were. *)
Lemma pass_others k :
  k ∉ meshesToAdd b ->
  publishPages (finalPages ps) (attached ps) !! k
  = (if bool_decide (k ∈ _currentMeshes o /\ parentOf (meshes w) k = Some (oid o))
     then setParent None else id) <$> meshes w !! k.
Proof.
  intros Hk.
  destruct pass_batched as (_ & _ & _ & _ & Hperm & _ & Hrest).
  assert (Hk' : k ∉ pageMeshes (finalPages ps)).
  { rewrite pass_pageMeshes. intros Hin. apply Hk.
    by apply (elem_of_Permutation_proper _ _ _ Hperm). }
  assert (Hk2 : k ∉ pageMeshes (sizePages (pagesMeshData b)))
    by (by rewrite pageMeshes_sizePages, <- pass_pageMeshes).
  rewrite lookup_publishPages_other by exact Hk'.
  unfold b, ps, layoutAfterScan in *. cbn [finalPages attached batching] in *.
  set (bt := batchChars (_tint o) (chars s) (pageMeshDataPool w) (meshes w)) in *.
  rewrite lookup_sizeMeshes_other by exact Hk2.
  rewrite lookup_attachNew, lookup_detachStale.
  rewrite (bool_decide_eq_false_2 (k ∈ meshesToAdd bt)) by done.
  unfold parentOf. rewrite (Hrest k Hk).
  destruct (meshes w !! k) as [mesh|]; simpl; [|done].
  rewrite (bool_decide_ext (k ∈ _currentMeshes o /\ (k ∉ meshesToAdd bt)
                            /\ Mesh.parent mesh = Some (oid o))
             (k ∈ _currentMeshes o /\ Mesh.parent mesh = Some (oid o))) by tauto.
  by destruct (bool_decide _).
Qed.
End MeshesOfAPass.

Section WorldAfterAPass.
Context {num : Type} `{JsNumber num}.

Lemma pushAll_rev {A : Type} (items pool : list A) :
  pushAll items pool = rev items ++ pool.
Proof.
  unfold pushAll. revert pool. induction items as [|x items IH]; intros pool; simpl; [done|].
  by rewrite IH, <- app_assoc.
Qed.

(** All that a completed pass in a well-formed world does to the pools,
    to the meshes and to the list of current meshes. *)
Lemma pass_world (o o' : BitmapText num) (w w' : World num) :
  wellFormed w ->
  updateText o w = Done tt o' w' ->
  exists ps,
    passOf o w = Some ps
    /\ let n := length (finalPages ps) in
       _currentMeshes o' = meshesFor (pageMeshDataPool w) (meshes w) n
       /\ StronglySorted N.lt (map fst (finalPages ps))
       /\ pageMeshes (finalPages ps) ≡ₚ _currentMeshes o'
       /\ pageMeshDataPool w'
          = rev (map snd (finalPages ps)) ++ drop n (pageMeshDataPool w)
       /\ length (meshes w')
          = (length (meshes w) + (n - length (pageMeshDataPool w)))%nat
       /\ (forall uid d, (uid, d) ∈ finalPages ps ->
            meshes w' !! PageMeshData.mesh d = Some (publishedMesh o uid d))
       /\ (forall k, k ∉ _currentMeshes o' ->
            meshes w' !! k
            = (if bool_decide (k ∈ _currentMeshes o
                               /\ parentOf (meshes w) k = Some (oid o))
               then setParent None else id) <$> meshes w !! k)
       /\ charRenderDataPool w' = rev (chars (scanned ps)) ++ free (charPool ps)
       /\ nextRef w' = fresh (charPool ps)
       /\ distinctRecords (scanned ps) (charPool ps)
       /\ (nextRef w <= nextRef w')%nat.
Proof.
  intros (Hnd & Hin & Hrnd & Hrlt) Hdone.
  apply updateText_inv in Hdone as (data & s & p & Hfont & Hscan & Hpass & Hc).
  eexists. split; [exact Hpass|].
  pose proof (pass_batched o w data s p Hnd Hin) as (_ & Hpool & Hadd & _ & Hperm & _).
  pose proof (pass_pageMeshes o w data s p) as Hpm.
  pose proof (pass_length o w data s p) as Hlen.
  pose proof (pass_sorted o w data s p) as Hsorted.
  pose proof (attached_length o w data s p Hnd Hin) as Hatt.
  pose proof (pass_published o w data s p Hnd Hin) as Hpub.
  pose proof (pass_others o w data s p Hnd Hin) as Hoth.
  apply scan_distinctRecords in Hscan as [Hdist Hfresh]; [|done|done].
  unfold commitPass in Hc. injection Hc as -> ->.
  cbv zeta in *.
  assert (Hsc : scanned (layoutAfterScan o w data s p) = s) by done.
  assert (Hcp : charPool (layoutAfterScan o w data s p) = p) by done.
  set (ps := layoutAfterScan o w data s p) in *.
  cbn [_currentMeshes pageMeshDataPool meshes charRenderDataPool nextRef].
  rewrite !pushAll_rev, publishPages_length, Hsc, Hcp.
  split_and!; try done.
  - change (meshesToAdd (batching ps) = meshesFor (pageMeshDataPool w) (meshes w)
                                          (length (finalPages ps))).
    by rewrite Hadd, Hlen.
  - change (pageMeshes (finalPages ps) ≡ₚ meshesToAdd (batching ps)).
    by rewrite Hpm, Hperm.
  - change (rev (map snd (finalPages ps)) ++ pagePool (batching ps)
            = rev (map snd (finalPages ps))
              ++ drop (length (finalPages ps)) (pageMeshDataPool w)).
    by rewrite Hpool, Hlen.
Qed.
End WorldAfterAPass.

Section PoolsAndMeshes.
Context {num : Type} `{JsNumber num}.

Lemma meshesFor_pool_perm (pool : list (PageMeshData.t num)) (st : list (Mesh.t num)) n :
  meshesFor pool st n ++ map PageMeshData.mesh (drop n pool)
  ≡ₚ map PageMeshData.mesh pool ++ seq (length st) (n - length pool).
Proof.
  unfold meshesFor. rewrite <- (take_drop n pool) at 4. rewrite map_app.
  rewrite <- !app_assoc. apply Permutation_app_head. apply Permutation_app_comm.
Qed.

Lemma pass_wellFormed (o o' : BitmapText num) (w w' : World num) :
  wellFormed w -> updateText o w = Done tt o' w' -> wellFormed w'.
Proof.
  intros Hwf Hdone. pose proof Hwf as (Hnd & Hin & _ & _).
  destruct (pass_world o o' w w' Hwf Hdone)
    as (ps & _ & Hcur & _ & Hperm & Hpool & Hlen & _ & _ & Hrec & Hnext & [Hrnd Hrlt] & _).
  set (n := length (finalPages ps)) in *.
  assert (Hmeshes : map PageMeshData.mesh (pageMeshDataPool w')
                    ≡ₚ map PageMeshData.mesh (pageMeshDataPool w)
                       ++ seq (length (meshes w)) (n - length (pageMeshDataPool w))).
  { rewrite Hpool, map_app, map_rev, <- Permutation_rev.
    change (map PageMeshData.mesh (map snd (finalPages ps)))
      with (map PageMeshData.mesh (snd <$> finalPages ps)).
    change (map PageMeshData.mesh (snd <$> finalPages ps))
      with (PageMeshData.mesh <$> (snd <$> finalPages ps)).
    rewrite <- list_fmap_compose.
    change ((PageMeshData.mesh ∘ snd) <$> finalPages ps) with (pageMeshes (finalPages ps)).
    rewrite Hperm, Hcur. apply meshesFor_pool_perm. }
  unfold wellFormed. split_and!.
  - rewrite Hmeshes. apply NoDup_app. split_and!; [done| |apply NoDup_seq].
    intros m Hm Hs. apply elem_of_seq in Hs.
    apply list_elem_of_fmap in Hm as (d & -> & Hd).
    rewrite Forall_forall in Hin. specialize (Hin d Hd). lia.
  - apply Forall_forall. intros d Hd.
    assert (Hm : PageMeshData.mesh d ∈ map PageMeshData.mesh (pageMeshDataPool w'))
      by (by apply (list_elem_of_fmap_2 PageMeshData.mesh)).
    rewrite Hmeshes in Hm. rewrite Hlen. apply elem_of_app in Hm as [Hm|Hm].
    + apply list_elem_of_fmap in Hm as (d0 & -> & Hd0).
      rewrite Forall_forall in Hin. specialize (Hin d0 Hd0). lia.
    + apply elem_of_seq in Hm. lia.
  - rewrite Hrec. rewrite map_app, map_rev, <- Permutation_rev, <- map_app. exact Hrnd.
  - rewrite Hrec, Hnext. apply Forall_app. apply Forall_app in Hrlt as [Hc Hf].
    split; [|done]. by apply Forall_rev.
Qed.

(** X13.  Every operation that changes the world keeps the pools and the
    meshes together: when no two pooled batches share a mesh, every pooled
    batch has its mesh in the store and no two pooled records are the same
    object, the same holds after a completed pass, after an assignment of
    the tint and after a construction; a pass removes no mesh from the
    store and gives out no identity of a record twice. *)
Theorem pools_stay_well_formed (o : BitmapText num) (w : World num) :
  wellFormed w ->
  (forall o' w',
      updateText o w = Done tt o' w' ->
      wellFormed w'
      /\ (length (meshes w) <= length (meshes w'))%nat
      /\ (nextRef w <= nextRef w')%nat)
  /\ (forall value, wellFormed (set_tint value o w).2)
  /\ (forall this text style o' w',
        constructor this text style w = Done tt o' w' -> wellFormed w').
Proof.
  intros Hwf. split_and!.
  - intros o' w' Hdone. split; [by eapply pass_wellFormed|].
    destruct (pass_world o o' w w' Hwf Hdone)
      as (ps & _ & _ & _ & _ & _ & Hlen & _ & _ & _ & _ & _ & Hnext).
    split; [lia|done].
  - intros value. unfold set_tint. destruct (_tint o =? value); [done|].
    destruct Hwf as (Hnd & Hin & Hrnd & Hrlt).
    unfold wellFormed. cbn [snd pageMeshDataPool meshes charRenderDataPool nextRef].
    split_and!; try done.
    by rewrite (fold_alter_length (fun m : nat => m) (fun _ => setMeshTint value)).
  - intros this text style o' w'. unfold constructor.
    destruct (set_font _ _ w) as [[] o1 w1|e o1 w1] eqn:Hfont; [|done].
    pose proof (set_font_frame _ _ _ _ _ Hfont) as [-> _].
    by apply pass_wellFormed.
Qed.

(** X14.  After a completed pass in a well-formed world the object has
    one current mesh for each page of its glyphs, all different, and the
    mesh of each page has the page as texture, the tint of the object, the
    object as parent, 6 times the number of glyphs of the page as size and
    the three arrays of the page as buffers.  A mesh that is not current
    any more has lost its parent when it was current before and a child of
    the object, and is untouched otherwise. *)
Theorem meshes_after_a_pass (o o' : BitmapText num) (w w' : World num) :
  wellFormed w ->
  updateText o w = Done tt o' w' ->
  exists ps,
    passOf o w = Some ps
    /\ pageMeshes (finalPages ps) ≡ₚ _currentMeshes o'
    /\ NoDup (_currentMeshes o')
    /\ (forall uid d, (uid, d) ∈ finalPages ps ->
          meshes w' !! PageMeshData.mesh d = Some (publishedMesh o uid d))
    /\ (forall k, k ∉ _currentMeshes o' ->
          meshes w' !! k
          = (if bool_decide (k ∈ _currentMeshes o
                             /\ parentOf (meshes w) k = Some (oid o))
             then setParent None else id) <$> meshes w !! k).
Proof.
  intros Hwf Hdone. pose proof Hwf as (Hnd & Hin & _ & _).
  destruct (pass_world o o' w w' Hwf Hdone)
    as (ps & Hpass & Hcur & _ & Hperm & _ & _ & Hpub & Hoth & _).
  exists ps. split_and!; try done.
  rewrite Hcur. by apply meshesFor_NoDup.
Qed.

(** X15.  The current meshes of the object after a completed pass are
    those of the batches at the top of the pool, as many as there are pages,
    and new meshes at the end of the store when the pool has fewer batches
    than there are pages.  The batches of the pass go back on top of what is
    left of the pool, the batch of the page with the highest uid on top; the
    pool and the store grow by the new batches and meshes only. *)
Theorem current_meshes_come_from_the_pool (o o' : BitmapText num) (w w' : World num) :
  wellFormed w ->
  updateText o w = Done tt o' w' ->
  exists ps,
    passOf o w = Some ps
    /\ let n := length (finalPages ps) in
       let pool := pageMeshDataPool w in
       _currentMeshes o'
       = map PageMeshData.mesh (take n pool)
         ++ seq (length (meshes w)) (n - length pool)
       /\ StronglySorted N.lt (map fst (finalPages ps))
       /\ pageMeshDataPool w' = rev (map snd (finalPages ps)) ++ drop n pool
       /\ length (meshes w') = (length (meshes w) + (n - length pool))%nat
       /\ length (pageMeshDataPool w') = Nat.max n (length pool).
Proof.
  intros Hwf Hdone.
  destruct (pass_world o o' w w' Hwf Hdone)
    as (ps & Hpass & Hcur & Hsorted & _ & Hpool & Hlen & _).
  exists ps. split; [done|]. cbv zeta. split_and!; [done|done|done|done|].
  rewrite Hpool, length_app, length_rev, length_map, length_drop. lia.
Qed.

(** X16.  The batches go back to the pool with their meshes, and the pool
    is shared: when a pass of one object that has a glyph is followed by a
    pass of any object that has a glyph, a current mesh of the first is a
    current mesh of the second, with the second object as parent and its
    tint. *)
Theorem meshes_are_shared_between_objects (o1 o1' o2 o2' : BitmapText num)
    (w w1 w2 : World num) :
  wellFormed w ->
  updateText o1 w = Done tt o1' w1 ->
  updateText o2 w1 = Done tt o2' w2 ->
  _currentMeshes o1' <> [] ->
  _currentMeshes o2' <> [] ->
  exists m mesh,
    m ∈ _currentMeshes o1' /\ m ∈ _currentMeshes o2'
    /\ meshes w2 !! m = Some mesh
    /\ Mesh.parent mesh = Some (oid o2) /\ Mesh.tint mesh = _tint o2.
Proof.
  intros Hwf Hdone1 Hdone2 Hne1 Hne2.
  pose proof (pass_wellFormed _ _ _ _ Hwf Hdone1) as Hwf1.
  destruct (pass_world o1 o1' w w1 Hwf Hdone1)
    as (ps1 & _ & _ & _ & Hperm1 & Hpool1 & _).
  destruct (pass_world o2 o2' w1 w2 Hwf1 Hdone2)
    as (ps2 & _ & Hcur2 & _ & Hperm2 & _ & _ & Hpub2 & _).
  cbv zeta in *.
  (* the last page of the first pass is at the top of the pool *)
  destruct (finalPages ps1) as [|kv1 pages1] eqn:Hf1 using rev_ind.
  { apply Permutation_nil_l in Hperm1. by destruct Hne1. }
  clear IHpages1.
  rewrite map_app, rev_app_distr in Hpool1. simpl in Hpool1.
  set (m := PageMeshData.mesh kv1.2).
  assert (Hm1 : m ∈ _currentMeshes o1').
  { apply (elem_of_Permutation_proper _ _ _ Hperm1). unfold pageMeshes.
    rewrite map_app. apply elem_of_app. right. left. }
  assert (Hm2 : m ∈ _currentMeshes o2').
  { rewrite Hcur2, Hpool1. unfold meshesFor.
    destruct (length (finalPages ps2)) as [|n2] eqn:Hn2.
    - apply length_zero_iff_nil in Hn2. rewrite Hn2 in Hperm2.
      apply Permutation_nil_l in Hperm2. by destruct Hne2.
    - simpl. left. }
  apply (elem_of_Permutation_proper _ _ _ Hperm2) in Hm2 as Hpage.
  apply list_elem_of_fmap in Hpage as ([uid d] & Hmd & Hin). simpl in Hmd.
  exists m, (publishedMesh o2 uid d). split_and!; try done.
  rewrite Hmd. by apply Hpub2.
Qed.
End PoolsAndMeshes.

(** ** The constructor, the inputs of the layout and the quads *)

Section Construction.
Context {num : Type} `{JsNumber num}.

Lemma set_font_keeps (value : FontArg num) (o o' : BitmapText num) (w w' : World num) :
  set_font value o w = Done tt o' w' ->
  Font.tint (_font o') = Font.tint (_font o)
  /\ Font.align (_font o') = Font.align (_font o).
Proof.
  unfold set_font. destruct value as [|value|name size].
  - by intros [= <- <-].
  - destruct value as [|a r]; [by intros [= <- <-]|].
    destruct (2 <=? _)%nat; [by intros [= <- <-]|].
    destruct (lookupFont w _); [|done]. by intros [= <- <-].
  - by intros [= <- <-].
Qed.

(** X17.  The object that the constructor leaves: the text as given, max
    width and letter spacing 0, the anchor at (0, 0), the round-pixels
    setting of the world; the tint of the style is kept in the font record
    only, the tint of the object is white.  Its font is registered, but for
    one case: the name is that of a property of [Object.prototype], which
    the registry, a plain object, gives for it, and then the text has
    nothing but line breaks and the object has no mesh.  In a well-formed
    world every current mesh has this object as parent and is white,
    whatever the tint of the style. *)
Theorem constructor_defaults (this : nat) (text : string) (style : Style num)
    (o' : BitmapText num) (w w' : World num) :
  constructor this text style w = Done tt o' w' ->
  oid o' = this /\ _text o' = text
  /\ _maxWidth o' = nzero /\ _letterSpacing o' = nzero
  /\ _anchor o' = Point.mk nzero nzero
  /\ roundPixels o' = ROUND_PIXELS w
  /\ _tint o' = 16777215
  /\ Font.tint (_font o') = default 16777215 (style_tint style)
  /\ Font.align (_font o')
     = match style_align style with
       | Some a => if String.eqb a "" then "left"%string else a
       | None => "left"%string
       end
  /\ (is_Some (available w !! fontKey (Font.name (_font o')))
      \/ (fontKey (Font.name (_font o')) ∈ objectPrototype
          /\ Forall (fun c => isLineBreak c = true) (codeUnits (normalizedText text))
          /\ _currentMeshes o' = []))
  /\ (wellFormed w ->
      Forall (fun m => exists mesh,
                meshes w' !! m = Some mesh
                /\ Mesh.tint mesh = 16777215 /\ Mesh.parent mesh = Some this)
        (_currentMeshes o')).
Proof.
  unfold constructor.
  destruct (set_font _ _ w) as [[] o1 w1|e o1 w1] eqn:Hfont; [|done].
  pose proof (set_font_frame _ _ _ _ _ Hfont) as [-> _].
  apply set_font_keeps in Hfont as [Htint Halign]. simpl in Htint, Halign.
  set (o := mkBitmapText _ _ _ _ _ _ _ _ _ _ _ _ _).
  intros Hdone.
  pose proof (updateText_inv _ _ _ _ Hdone) as (data & s & p & Hreg & Hscan & _ & Hc).
  unfold commitPass in Hc. injection Hc as Ho Hw.
  split_and!; try (by rewrite Ho).
  { destruct data as [font|].
    - left. apply lookupFont_Some_registered in Hreg. rewrite Ho.
      exact (mk_is_Some _ _ Hreg).
    - right. apply lookupFont_inherited in Hreg as [_ Hreg].
      unfold scanText in Hscan.
      apply scan_without_chars in Hscan as [Hall Hch]; [|done].
      rewrite Ho. split_and!; [exact Hreg|exact Hall|].
      cbn [_currentMeshes layoutAfterScan batching scanned]. by rewrite Hch. }
  intros Hwf.
  destruct (pass_world o o' w w' Hwf Hdone)
    as (ps & _ & _ & _ & Hperm & _ & _ & Hpub & _).
  apply Forall_forall. intros m Hm.
  apply (elem_of_Permutation_proper _ _ _ Hperm) in Hm.
  apply list_elem_of_fmap in Hm as ([uid d] & -> & Hin).
  exists (publishedMesh o uid d). split; [by apply Hpub|]. done.
Qed.

(** X18.  Without a font in the style ([style.font] is undefined or the
    empty string) the name of the font stays [null], and the constructor
    fails at the lookup of the font unless a font is registered under the
    name "null"; the world is left as it was. *)
Theorem constructor_without_font (this : nat) (text : string) (style : Style num)
    (w : World num) :
  style_font style = FontUndefined \/ style_font style = FontString EmptyString ->
  available w !! "null"%string = None ->
  exists o', constructor this text style w = Failed TypeError o' w
             /\ Font.name (_font o') = None /\ _text o' = text.
Proof.
  intros Hfont Hnull. unfold constructor.
  assert (Hset : forall o0 : BitmapText num,
            set_font (style_font style) o0 w = Done tt o0 w).
  { intros o0. by destruct Hfont as [-> | ->]. }
  rewrite Hset. cbn [_font].
  eexists. split.
  - unfold updateText. cbn [_font Font.name fontKey default].
    by rewrite (proj2 (lookupFont_None w "null") (conj Hnull null_not_inherited)).
  - done.
Qed.
End Construction.

Section InputsOfTheLayout.
Context {num : Type} `{JsNumber num}.

Lemma batchChar_pages_length tint (b : Batching num) (c : CharRenderData.t num) :
  (1 <= length (pagesMeshData (batchChar tint b c)))%nat
  /\ (length (pagesMeshData b) <= length (pagesMeshData (batchChar tint b c)))%nat.
Proof.
  unfold batchChar.
  destruct (pagesLookup (pageOf c) (pagesMeshData b)) as [d|] eqn:Hl.
  - cbn [pagesMeshData]. rewrite pagesAlter_length.
    apply pagesLookup_elem_of in Hl. destruct (pagesMeshData b); [|simpl; lia].
    by apply elem_of_nil in Hl.
  - destruct (takePageMeshData _ _) as [[d pool'] st']. cbn [pagesMeshData].
    rewrite pagesAlter_length, (Permutation_length (pagesSet_perm _ _ _ Hl)). simpl. lia.
Qed.

Lemma batchChars_pages_nil tint (cs : list (CharRenderData.t num)) pool st :
  pagesMeshData (batchChars tint cs pool st) = [] <-> cs = [].
Proof.
  split; [|by intros ->].
  destruct cs as [|c cs]; [done|]. intros Hnil. exfalso.
  unfold batchChars in Hnil. cbn [fold_left] in Hnil.
  assert (Hgen : forall cs (b : Batching num),
            (length (pagesMeshData b)
             <= length (pagesMeshData (fold_left (batchChar tint) cs b)))%nat).
  { clear. induction cs as [|c cs IH]; intros b; simpl; [done|].
    etrans; [|apply IH]. apply batchChar_pages_length. }
  pose proof (Hgen cs (batchChar tint (mkBatching [] [] pool st) c)) as Hle.
  pose proof (batchChar_pages_length tint (mkBatching [] [] pool st) c) as [H1 _].
  rewrite Hnil in Hle. cbn [length] in Hle. lia.
Qed.

Lemma finalPages_nil (o : BitmapText num) w data s p :
  finalPages (layoutAfterScan o w data s p) = [] <-> chars s = [].
Proof.
  rewrite <- (batchChars_pages_nil (_tint o) (chars s) (pageMeshDataPool w) (meshes w)).
  pose proof (pass_length o w data s p) as Hlen. cbv zeta in Hlen.
  cbn [batching layoutAfterScan] in Hlen.
  split; intros Hnil; apply length_zero_iff_nil.
  - rewrite <- Hlen. by rewrite Hnil.
  - rewrite Hlen. by rewrite Hnil.
Qed.

(** X19.  The layout depends on the text, the font, the max width and the
    letter spacing of the object and on the registry of fonts only: two
    objects that agree on these, in two worlds with the same fonts, complete
    a pass together, with the same glyph records but for their identities,
    the same text width and text height, and the same max line height when
    there is a glyph.  The pools, the meshes, the alignment, the anchor and
    the tint play no part. *)
Theorem layout_depends_on_its_inputs_only (oa ob oa' : BitmapText num)
    (wa wb wa' : World num) :
  available wa = available wb ->
  _text oa = _text ob ->
  Font.name (_font oa) = Font.name (_font ob) ->
  Font.size (_font oa) = Font.size (_font ob) ->
  _maxWidth oa = _maxWidth ob ->
  _letterSpacing oa = _letterSpacing ob ->
  updateText oa wa = Done tt oa' wa' ->
  exists ob' wb' psa psb,
    updateText ob wb = Done tt ob' wb'
    /\ passOf oa wa = Some psa /\ passOf ob wb = Some psb
    /\ map glyphOf (chars (scanned psa)) = map glyphOf (chars (scanned psb))
    /\ _textWidth ob' = _textWidth oa'
    /\ _textHeight ob' = _textHeight oa'
    /\ (chars (scanned psa) <> [] -> _maxLineHeight ob' = _maxLineHeight oa').
Proof.
  intros Hav Htext Hname Hsize Hmw Hls Hdone.
  apply updateText_inv in Hdone as (data & sa & pa & Hfont & Hscan & Hpass & Hc).
  set (pb := mkCharPool (charRenderDataPool wb) (nextRef wb)).
  assert (Hsame : sameScan
            (scanText oa data (mkCharPool (charRenderDataPool wa) (nextRef wa)))
            (scanText ob data pb)).
  { unfold scanText, maxWidthOf. rewrite Htext, Hsize, Hmw, Hls. apply scan_sameScan. }
  rewrite Hscan in Hsame.
  destruct (scanText ob data pb) as [sb qb|e qb] eqn:Hscanb; [|done].
  simpl in Hsame.
  apply glyphsOf_fields in Hsame
    as (_ & Hpos & Hch & _ & _ & _ & Hmlw & _ & _ & _ & _ & Hmlh).
  assert (Hfontb : lookupFont wb (fontKey (Font.name (_font ob))) = Some data)
    by (unfold lookupFont in *; by rewrite <- Hav, <- Hname).
  assert (Hscale : scaleOf ob data = scaleOf oa data)
    by (unfold scaleOf; by rewrite Hsize).
  assert (Hna : chars sa <> [] -> finalPages (layoutAfterScan oa wa data sa pa) <> [])
    by (by rewrite finalPages_nil).
  assert (Hnb : chars sa <> [] -> finalPages (layoutAfterScan ob wb data sb qb) <> []).
  { rewrite finalPages_nil. intros Hne Hnil. rewrite Hnil in Hch.
    destruct (chars sa); [done|]. discriminate Hch. }
  assert (Hsa : scanned (layoutAfterScan oa wa data sa pa) = sa) by done.
  assert (Hsb : scanned (layoutAfterScan ob wb data sb qb) = sb) by done.
  assert (Hwa : textWidth' (layoutAfterScan oa wa data sa pa)
                = nmul (maxLineWidth sa) (scaleOf oa data)) by done.
  assert (Hwb : textWidth' (layoutAfterScan ob wb data sb qb)
                = nmul (maxLineWidth sb) (scaleOf ob data)) by done.
  assert (Hha : textHeight' (layoutAfterScan oa wa data sa pa)
                = nmul (nadd (Point.y (pos sa)) (data_lineHeight data))
                    (scaleOf oa data)) by done.
  assert (Hhb : textHeight' (layoutAfterScan ob wb data sb qb)
                = nmul (nadd (Point.y (pos sb)) (data_lineHeight data))
                    (scaleOf ob data)) by done.
  pose proof (updateText_done ob wb data sb qb Hfontb Hscanb) as Hdoneb.
  remember (layoutAfterScan oa wa data sa pa) as psa eqn:Epsa.
  remember (layoutAfterScan ob wb data sb qb) as psb eqn:Epsb.
  unfold commitPass in Hc. injection Hc as -> _.
  exists (commitPass ob wb data psb).1, (commitPass ob wb data psb).2, psa, psb.
  split_and!.
  - done.
  - done.
  - unfold passOf. fold pb. by rewrite Hfontb, Hscanb, Epsb.
  - by rewrite Hsa, Hsb.
  - cbn [commitPass fst _textWidth]. by rewrite Hwa, Hwb, Hscale, Hmlw.
  - cbn [commitPass fst _textHeight]. by rewrite Hha, Hhb, Hscale, Hpos.
  - rewrite Hsa. intros Hne. cbn [commitPass fst _maxLineHeight].
    rewrite !newMaxLineHeight_cons by auto.
    by rewrite ?Hsa, ?Hsb, Hscale, Hmlh.
Qed.
End InputsOfTheLayout.

Section Indices.
Context {num : Type} `{JsNumber num}.

Lemma quadIndices_small (index : nat) :
  Z.of_nat index < 16384 ->
  quadIndices index
  = let k := Z.of_nat index in
    [4 * k; 4 * k + 1; 4 * k + 2; 4 * k; 4 * k + 2; 4 * k + 3].
Proof.
  intros Hlt. unfold quadIndices, toUint16. cbv zeta. cbn [map].
  rewrite !Z.mod_small by lia.
  repeat (apply (f_equal2 (@cons Z)); [lia|]). reflexivity.
Qed.

(** X20.  The six indices of the glyph in slot [index] of a page address
    the four vertices of that glyph, two triangles, as long as the slot is
    below 16384; the index array holds 16-bit numbers, so that the indices
    of a slot from 16384 on are those of the slot 16384 below; with at most
    16384 glyphs on the page every index is below the number of its
    vertices. *)
Theorem indices_address_the_quad (index above n : nat) :
  (Z.of_nat index < 16384 ->
   quadIndices index
   = let k := Z.of_nat index in
     [4 * k; 4 * k + 1; 4 * k + 2; 4 * k; 4 * k + 2; 4 * k + 3])
  /\ (Z.of_nat above = Z.of_nat index + 16384 -> quadIndices above = quadIndices index)
  /\ (Z.of_nat n <= 16384 ->
      Forall (fun v => 0 <= v < 4 * Z.of_nat n) (expectedIndices n)).
Proof.
  split_and!.
  - apply quadIndices_small.
  - intros Habove. unfold quadIndices, toUint16. cbn [map]. rewrite Habove.
    repeat (apply (f_equal2 (@cons Z));
            [match goal with
             | |- (?a + (?k + 16384) * 4) mod _ = _ =>
                 replace (a + (k + 16384) * 4) with (a + k * 4 + 1 * 65536) by lia;
                 apply Z.mod_add; lia
             end|]).
    reflexivity.
  - intros Hn. unfold expectedIndices. apply Forall_concat, Forall_fmap, Forall_forall.
    intros k Hk. apply elem_of_seq in Hk. simpl.
    rewrite quadIndices_small by lia. cbv zeta.
    repeat (apply Forall_cons; split; [lia|]). constructor.
Qed.
End Indices.

Section Quads.
Context {num : Type} `{JsNumber num}.

(** X21.  The pages of a completed pass, in a world whose pooled batches
    have arrays that go together: there is one page for each texture page
    of the records, in ascending order of uid; it counts the records of its
    texture page, and the first 8, 8 and 6 slots for each of them in its
    three arrays hold, in
    the order of the text, the four corners of the glyph (the position of
    the record plus the alignment offset of its line, and the frame of the
    texture, times the scale, less the anchor offsets when there is an
    anchor), the UVs of the texture and the indices of the two
    triangles. *)
Theorem quads_of_a_pass (o o' : BitmapText num) (w w' : World num) :
  Forall coherent (pageMeshDataPool w) ->
  updateText o w = Done tt o' w' ->
  exists data ps,
    lookupFont w (fontKey (Font.name (_font o))) = Some data
    /\ passOf o w = Some ps
    /\ StronglySorted N.lt (map fst (finalPages ps))
    /\ (forall uid,
          uid ∈ map fst (finalPages ps) <-> uid ∈ map pageOf (chars (scanned ps)))
    /\ Forall (fun kv =>
          let gs := pageGlyphs kv.1 (chars (scanned ps)) in
          PageMeshData.total kv.2 = length gs
          /\ exists v u ix,
               PageMeshData.vertices kv.2 = Some v
               /\ PageMeshData.uvs kv.2 = Some u
               /\ PageMeshData.indices kv.2 = Some ix
               /\ take (length gs * 8) v = finalVertices o data (scanned ps) gs
               /\ take (length gs * 8) u = expectedUvs gs
               /\ take (length gs * 6) ix = expectedIndices (length gs))
         (finalPages ps).
Proof.
  intros Hpool Hdone.
  apply updateText_inv in Hdone as (data & s & p & Hfont & _ & Hpass & _).
  exists data. eexists. split; [exact Hfont|]. split; [exact Hpass|].
  destruct (pass_content o w data s p Hpool) as (Hnd & Hkeys & Hall & _).
  split_and!; [apply pass_sorted|done|].
  eapply Forall_impl; [exact Hall|]. intros kv (Ht & _ & Hq). by split.
Qed.
End Quads.

Section TallestGlyph.
Context {num : Type} `{JsNumber num}.

(** X22.  Without soft wrap the max line height of a pass that has a
    glyph is the largest height (y offset plus height of the texture) of
    the characters of the text that have metrics ([Math.max] folded from 0),
    times the scale. *)
Theorem max_line_height_without_wrap (o : BitmapText num) (w : World num)
    (data : BitmapFont.t num) :
  available w !! fontKey (Font.name (_font o)) = Some data ->
  ngt (maxWidthOf o data) nzero = false ->
  exists o' w' ps,
    updateText o w = Done tt o' w'
    /\ passOf o w = Some ps
    /\ (chars (scanned ps) <> [] ->
        _maxLineHeight o'
        = nmul (tallest data (codeUnits (normalizedText (_text o))) nzero)
            (scaleOf o data)).
Proof.
  intros Hfont HnoWrap.
  set (p := mkCharPool (charRenderDataPool w) (nextRef w)).
  destruct (scan_plain data (_letterSpacing o) (maxWidthOf o data) HnoWrap
              (normalizedText (_text o)) p) as (s & q & Hs & _ & Htall).
  exists (commitPass o w data (layoutAfterScan o w data s q)).1,
         (commitPass o w data (layoutAfterScan o w data s q)).2,
         (layoutAfterScan o w data s q).
  split_and!.
  - by apply updateText_done; [apply lookupFont_registered|].
  - unfold passOf. fold p. unfold scanText. by rewrite (lookupFont_registered _ _ _ Hfont), Hs.
  - cbn [scanned layoutAfterScan]. intros Hne.
    cbn [commitPass fst _maxLineHeight].
    rewrite newMaxLineHeight_cons by (by rewrite finalPages_nil).
    cbn [scanned layoutAfterScan]. by rewrite Htall.
Qed.
End TallestGlyph.

(** ** The pool of records and the slots beyond the draw size *)

Section RecordPool.
Context {num : Type} `{JsNumber num}.
Variable data : BitmapFont.t num.
Variable letterSpacing maxWidth : num.
Hypothesis noWrap : ngt maxWidth nzero = false.

(** Without soft wrap every record that is taken stays in the sequence. *)
Lemma scanList_taken cs : forall (s : Scan num) p s' p',
  scanList data letterSpacing maxWidth cs s p = Scanned s' p' ->
  exists k,
    length (chars s') = (length (chars s) + k)%nat
    /\ length (free p') = (length (free p) - k)%nat
    /\ fresh p' = (fresh p + (k - length (free p)))%nat.
Proof.
  induction cs as [|c cs IH]; intros s p s' p'; cbn [scanList].
  - intros [= <- <-]. exists O. lia.
  - unfold scanBodyAt. cbn [from_option mbind option_bind default data_chars data_lineHeight].
    destruct (isLineBreak c).
    { intros Hl. apply IH in Hl. exact Hl. }
    destruct (BitmapFont.chars data !! c) as [charData|].
    2:{ intros Hl. apply IH in Hl. exact Hl. }
    destruct (takeCharRenderData p) as [ref q] eqn:Htake.
    rewrite noWrap, andb_false_r. cbn [andb]. intros Hl.
    apply IH in Hl as (k & Hc & Hf & Hn). scan_fields.
    rewrite length_app in Hc. cbn [length] in Hc.
    exists (S k). unfold takeCharRenderData in Htake.
    destruct (free p) as [|r rest]; injection Htake as <- <-; cbn [free fresh length] in *; lia.
Qed.
End RecordPool.

Section RecordPoolOfAPass.
Context {num : Type} `{JsNumber num}.

(** X23.  Without soft wrap every record that a pass takes from the pool
    or creates goes back to the pool: after the pass the pool has as many
    records as before, or as many as there are glyphs when that is more,
    and a record is created only when the pool is empty. *)
Theorem records_go_back_without_wrap (o : BitmapText num) (w : World num)
    (data : BitmapFont.t num) :
  available w !! fontKey (Font.name (_font o)) = Some data ->
  ngt (maxWidthOf o data) nzero = false ->
  exists o' w' ps,
    updateText o w = Done tt o' w'
    /\ passOf o w = Some ps
    /\ let glyphs := length (chars (scanned ps)) in
       let pooled := length (charRenderDataPool w) in
       length (charRenderDataPool w') = Nat.max pooled glyphs
       /\ nextRef w' = (nextRef w + (glyphs - pooled))%nat.
Proof.
  intros Hfont HnoWrap.
  set (p := mkCharPool (charRenderDataPool w) (nextRef w)).
  set (text := normalizedText (_text o)).
  destruct (scanList_noWrap data (_letterSpacing o) (maxWidthOf o data) HnoWrap
              (codeUnits text) scanStart p) as (s & q & Hlist & _).
  pose proof (scanList_taken data (_letterSpacing o) (maxWidthOf o data) HnoWrap
                _ _ _ _ _ Hlist) as (k & Hc & Hf & Hn).
  assert (Hscan : scanText o data p = Scanned (flushLastLine text s) q).
  { unfold scanText, scan. fold text.
    rewrite scanLoop_noWrap; [|done|done|apply scanFuel_enough].
    cbn [scanStart i Z.to_nat]. rewrite drop_0. by rewrite Hlist. }
  assert (Hflush : chars (flushLastLine text s) = chars s).
  { unfold flushLastLine. by destruct (from_option isLineBreak _ _). }
  exists (commitPass o w data (layoutAfterScan o w data (flushLastLine text s) q)).1,
         (commitPass o w data (layoutAfterScan o w data (flushLastLine text s) q)).2,
         (layoutAfterScan o w data (flushLastLine text s) q).
  split_and!.
  - by apply updateText_done; [apply lookupFont_registered|].
  - unfold passOf. fold p. by rewrite (lookupFont_registered _ _ _ Hfont), Hscan.
  - cbn [commitPass snd charRenderDataPool nextRef scanned charPool layoutAfterScan].
    rewrite pushAll_rev, length_app, length_rev, Hflush.
    cbn [scanStart chars length free fresh p] in *. lia.
Qed.
End RecordPoolOfAPass.

Section BeyondTheDrawSize.
Context {num : Type} `{JsNumber num}.
Variable scale : num.
Variable offsets : list num.
Implicit Types (pages : Pages (num:=num)) (d : PageMeshData.t num).

Lemma drop_inserts_below {A} (n k : nat) (q v : list A) :
  (k + length q <= n)%nat -> drop n (list_inserts k q v) = drop n v.
Proof.
  intros Hle. apply list_eq. intros j.
  rewrite !lookup_drop. apply list_lookup_inserts_ge. lia.
Qed.

Lemma drop_applyAnchor n offsetX offsetY (v : list num) :
  drop (n * 8) (applyAnchor n 0 offsetX offsetY v) = drop (n * 8) v.
Proof.
  apply list_eq. intros j. rewrite !lookup_drop, applyAnchor_lookup.
  destruct (Nat.ltb_spec (n * 8 + j) (0 + 8 * n)); [lia|].
  rewrite andb_false_r. by destruct (v !! _).
Qed.

Lemma emitQuad_beyond c d :
  (PageMeshData.index d < PageMeshData.total d)%nat ->
  beyond (emitQuad scale offsets c d) = beyond d.
Proof.
  intros Hlt. unfold beyond, emitQuad.
  cbn [PageMeshData.total PageMeshData.vertices PageMeshData.uvs PageMeshData.indices].
  assert (Hv : forall v : list num,
            drop (PageMeshData.total d * 8)
              (list_inserts (PageMeshData.index d * 8) (quadVertices scale offsets c) v)
            = drop (PageMeshData.total d * 8) v).
  { intros v. apply drop_inserts_below. unfold quadVertices. cbn [length map]. lia. }
  assert (Hu : forall v : list num,
            drop (PageMeshData.total d * 8)
              (list_inserts (PageMeshData.index d * 8) (quadUvs c) v)
            = drop (PageMeshData.total d * 8) v).
  { intros v. apply drop_inserts_below. unfold quadUvs. cbn [length map]. lia. }
  assert (Hi : forall v : list Z,
            drop (PageMeshData.total d * 6)
              (list_inserts (PageMeshData.index d * 6) (quadIndices (PageMeshData.index d)) v)
            = drop (PageMeshData.total d * 6) v).
  { intros v. apply drop_inserts_below. unfold quadIndices. cbn [length map]. lia. }
  destruct (PageMeshData.vertices d), (PageMeshData.uvs d), (PageMeshData.indices d);
    cbn [fmap option_fmap option_map]; by rewrite ?Hv, ?Hu, ?Hi.
Qed.

Lemma anchorPage_beyond anchor tw th d :
  beyond (anchorPage anchor tw th d) = beyond d.
Proof.
  unfold beyond, anchorPage. destruct (anchored anchor); [|done].
  cbn [PageMeshData.total PageMeshData.vertices PageMeshData.uvs PageMeshData.indices].
  destruct (PageMeshData.vertices d) as [v|]; [|done]. cbn [fmap option_fmap option_map].
  by rewrite drop_applyAnchor.
Qed.

Lemma pagesLookup_pagesAlter f k uid pages :
  pagesLookup uid (pagesAlter f k pages)
  = (if (k =? uid)%N then f else id) <$> pagesLookup uid pages.
Proof.
  induction pages as [|[k0 v] pages IH]; simpl; [done|].
  destruct (N.eqb_spec k0 k) as [->|Hne]; simpl.
  - destruct (N.eqb_spec k uid) as [->|Hne]; [done|]. by destruct (pagesLookup uid pages).
  - destruct (N.eqb_spec k0 uid) as [->|Hne2]; [|done].
    rewrite (proj2 (N.eqb_neq k uid)) by congruence. done.
Qed.

Variable all : list (CharRenderData.t num).

Lemma emitChars_beyond rest : forall placed pages uid,
  all = placed ++ rest ->
  emittedSoFar scale offsets all placed pages ->
  beyond <$> pagesLookup uid (emitChars scale offsets rest pages)
  = beyond <$> pagesLookup uid pages.
Proof.
  induction rest as [|c rest IH]; intros placed pages uid Hall Hinv; simpl; [done|].
  rewrite (IH (placed ++ [c])).
  - unfold emitChar. rewrite pagesLookup_pagesAlter.
    destruct (pagesLookup uid pages) as [d|] eqn:Hl; [|done]. simpl. f_equal.
    destruct (N.eqb_spec (pageOf c) uid) as [<-|Hne]; [|done].
    apply emitQuad_beyond.
    destruct Hinv as [_ Hinv]. rewrite Forall_forall in Hinv.
    destruct (Hinv _ (pagesLookup_elem_of _ _ _ Hl)) as [Ht [Hi _]]. simpl in *.
    rewrite Hi, Ht, Hall. unfold pageGlyphs. rewrite filter_app, length_app.
    rewrite filter_cons_True by done. simpl. lia.
  - by rewrite <- app_assoc.
  - by eapply emitChar_emittedSoFar.
Qed.
End BeyondTheDrawSize.

Section StaleSlots.
Context {num : Type} `{JsNumber num}.

(** X24.  A pass writes below the draw size only: for every page, the
    slots of the three arrays from the draw size of the mesh on (8, 8 and 6
    times the number of glyphs) are after the pass what they were when the
    buffers of the page were chosen, so that the stale quads in a reused
    buffer that is larger than needed stay as they are. *)
Theorem slots_beyond_the_draw_size_are_untouched (o o' : BitmapText num)
    (w w' : World num) :
  Forall coherent (pageMeshDataPool w) ->
  updateText o w = Done tt o' w' ->
  exists ps,
    passOf o w = Some ps
    /\ forall uid d,
        pagesLookup uid (finalPages ps) = Some d ->
        exists d0,
          pagesLookup uid (sizePages (pagesMeshData (batching ps))) = Some d0
          /\ PageMeshData.total d = PageMeshData.total d0
          /\ beyond d = beyond d0.
Proof.
  intros Hpool Hdone.
  apply updateText_inv in Hdone as (data & s & p & _ & _ & Hpass & _).
  eexists. split; [exact Hpass|].
  intros uid d. unfold layoutAfterScan. cbn [finalPages batching].
  set (b := batchChars (_tint o) (chars s) (pageMeshDataPool w) (meshes w)).
  set (scale := scaleOf o data).
  set (offsets := lineAlignOffsets (Font.align (_font o)) s).
  destruct (batchChars_start (_tint o) (chars s) _ (meshes w) Hpool)
    as (Hnd & _ & Hall & _). fold b in Hnd, Hall.
  assert (Hsized : emittedSoFar scale offsets (chars s) [] (sizePages (pagesMeshData b))).
  { split; [by rewrite sizePages_fst|]. unfold sizePages. apply Forall_fmap.
    eapply Forall_impl; [exact Hall|]. intros [k d1] (Hi & Ht & Hc); simpl in *.
    destruct (sizeBuffers_written scale offsets d1 Hi Hc) as [Hw Ht'].
    split; [congruence|done]. }
  pose proof (emitChars_beyond scale offsets (chars s) (chars s) [] _ uid eq_refl Hsized)
    as Hbeyond.
  pose proof (emitChars_emittedSoFar scale offsets (chars s) (chars s) [] _ eq_refl Hsized)
    as [_ Hem].
  rewrite pagesLookup_anchorPages.
  destruct (pagesLookup uid (emitChars scale offsets (chars s) (sizePages (pagesMeshData b))))
    as [d1|] eqn:Hl1; [|done].
  destruct (pagesLookup uid (sizePages (pagesMeshData b))) as [d0|] eqn:Hl0; [|done].
  cbn [fmap option_fmap option_map] in Hbeyond.
  assert (Hb : beyond d1 = beyond d0) by congruence. clear Hbeyond.
  cbn [fmap option_fmap option_map]. intros [= <-].
  exists d0. split; [done|].
  rewrite Forall_forall in Hem.
  destruct (Hem _ (pagesLookup_elem_of _ _ _ Hl1)) as [Ht1 _].
  destruct Hsized as [_ Hsized]. rewrite Forall_forall in Hsized.
  destruct (Hsized _ (pagesLookup_elem_of _ _ _ Hl0)) as [Ht0 _]. simpl in *.
  split.
  - destruct (anchorPage_mesh (_anchor o)
                (nmul (maxLineWidth s) scale)
                (nmul (nadd (Point.y (pos s)) (data_lineHeight data)) scale) d1)
      as [_ ->]. congruence.
  - by rewrite anchorPage_beyond.
Qed.
End StaleSlots.

(** ** Concrete runs *)

Import Exact Sample.

(** C1, at an input where the code departs from it.  The text is "aa", a
    line break and "bb"; every glyph advances the pen by 10 and the max width
    is 15.  When the second "b" overflows, the bookmark is the line break,
    which [spacesRemoved] has counted already: the removal starts one record
    early and takes the second "a" of the line above with the two "b".  The
    pass ends with three glyphs, "a" on line 0 and "bb" on line 2, and with
    three line widths. *)
Theorem hard_break_bookmark_drops_glyph :
  exists ps,
    passOf (object ("aa" ++ newline ++ "bb") (Some 15)) world = Some ps
    /\ map (fun c => (CharRenderData.charCode c, CharRenderData.line c))
         (chars (scanned ps))
       = [(97, 0%nat); (98, 2%nat); (98, 2%nat)]
    /\ lineWidths (scanned ps) = [Some 20; Some 20; Some 20].
Proof. eexists. split; [vm_compute; reflexivity|]. split; vm_compute; reflexivity. Qed.

(** C7, at an input where the code departs from it.  The text is
    "aa bb cc" with a max width of 50.  The pass creates eight records
    (identities 0 to 7); the soft wrap removes the record of the second space
    (identity 5) from the sequence, and the end of the pass returns the
    records of the sequence only: the pool holds seven records, and not that
    one.  The two page batches are returned. *)
Theorem rewound_record_is_not_returned :
  exists o w,
    updateText (object "aa bb cc" (Some 50)) world = Done tt o w
    /\ nextRef w = 8%nat
    /\ map CharRenderData.ref (charRenderDataPool w) = [7; 6; 4; 3; 2; 1; 0]%nat
    /\ map PageMeshData.mesh (pageMeshDataPool w) = [1; 0]%nat
    /\ length (meshes w) = 2%nat.
Proof. do 2 eexists. split; [vm_compute; reflexivity|]. split_and!; vm_compute; reflexivity. Qed.

(** C9, at an input where the code departs from it.  No font is registered
    under the name "constructor", but the registry is a plain object and
    gives the property of that name of [Object.prototype].  An object that
    was laid out with the sample font has one mesh attached; the font
    "constructor" is assigned (the assignment completes, with the size
    [undefined]) and the text is set to one line feed.  The read of the
    text width then runs a pass that completes: the scan meets no glyph
    lookup, there is no record, the mesh is detached, the width is [NaN], and
    the read clears [dirty]. *)
Theorem unregistered_font_completes :
  exists o0 w0 o1 o' w',
    constructor 0 "a" style world = Done tt o0 w0
    /\ _currentMeshes o0 = [0%nat]
    /\ parentOf (meshes w0) 0 = Some 0%nat
    /\ available w0 !! "constructor"%string = None
    /\ set_font (FontString "constructor") o0 w0 = Done tt o1 w0
    /\ dirty (set_text newline o1) = true
    /\ get_textWidth (set_text newline o1) w0 = Done nnan o' w'
    /\ dirty o' = false
    /\ _currentMeshes o' = []
    /\ parentOf (meshes w') 0 = None
    /\ layoutPasses w' = S (layoutPasses w0).
Proof.
  do 5 eexists. split; [vm_compute; reflexivity|].
  do 3 (split; [vm_compute; reflexivity|]).
  split; [vm_compute; reflexivity|].
  split; [vm_compute; reflexivity|].
  split; [vm_compute; reflexivity|].
  split_and!; vm_compute; reflexivity.
Qed.

(** C2 as stated fails: a batch whose arrays hold exactly the one glyph it
    is given has a capacity that is at least the count, and yet its arrays
    are replaced by fresh ones. *)
Lemma exactly_full_buffers_are_reallocated :
  ~ (forall (d : PageMeshData.t num) (ix : list Z),
       PageMeshData.indices d = Some ix ->
       (PageMeshData.total d <= length ix / 6)%nat ->
       PageMeshData.vertices (sizeBuffers d) = PageMeshData.vertices d
       /\ PageMeshData.uvs (sizeBuffers d) = PageMeshData.uvs d
       /\ PageMeshData.indices (sizeBuffers d) = PageMeshData.indices d).
Proof.
  intros Hclaim.
  destruct (Hclaim fullBatch [0; 1; 2; 0; 2; 3] eq_refl) as [Hv _].
  - vm_compute. lia.
  - vm_compute in Hv. discriminate Hv.
Qed.

(** C4 as stated fails: with "a" on page 1 and "bb" on page 2, the second
    pass gives page 1 the batch that page 2 had, and keeps its arrays, which
    are larger than needed: the vertex array of page 1 has 8 slots after the
    first pass and 16 after the second. *)
Lemma second_pass_changes_arrays :
  ~ (forall (o o1 : BitmapText num) (w w1 : World num) (ps1 ps2 : Pass num)
       (uid : N) (d1 d2 : PageMeshData.t num),
       updateText o w = Done tt o1 w1 ->
       passOf o w = Some ps1 -> passOf o1 w1 = Some ps2 ->
       pagesLookup uid (finalPages ps1) = Some d1 ->
       pagesLookup uid (finalPages ps2) = Some d2 ->
       PageMeshData.vertices d1 = PageMeshData.vertices d2).
Proof.
  intros Hclaim.
  pose (o := object "abb" (Some 0)).
  assert (Hrun : exists o1 w1 ps1 ps2 d1 d2,
             updateText o world = Done tt o1 w1
             /\ passOf o world = Some ps1 /\ passOf o1 w1 = Some ps2
             /\ pagesLookup 1%N (finalPages ps1) = Some d1
             /\ pagesLookup 1%N (finalPages ps2) = Some d2
             /\ length <$> PageMeshData.vertices d1 = Some 8%nat
             /\ length <$> PageMeshData.vertices d2 = Some 16%nat).
  { do 6 eexists. split; [vm_compute; reflexivity|].
    split_and!; vm_compute; reflexivity. }
  destruct Hrun as (o1 & w1 & ps1 & ps2 & d1 & d2 & Hu & Hp1 & Hp2 & Hl1 & Hl2 & H8 & H16).
  specialize (Hclaim _ _ _ _ _ _ _ _ _ Hu Hp1 Hp2 Hl1 Hl2).
  rewrite Hclaim in H8. rewrite H8 in H16. discriminate H16.
Qed.


(** C3 as stated fails after construction: the constructor has run the
    pass and left [dirty] false, so the first measurement read runs no
    pass. *)
Lemma read_after_construction_runs_no_pass :
  ~ (forall (this : nat) (text : string) (style : Style num) (w w' w'' : World num)
       (o' o'' : BitmapText num) (v : num),
        constructor this text style w = Done tt o' w' ->
        get_textWidth o' w' = Done v o'' w'' ->
        layoutPasses w'' = S (layoutPasses w')).
Proof.
  intros Hclaim.
  pose (r := constructor 0 "ab" style world).
  assert (Hr : exists o w, r = Done tt o w /\ get_textWidth o w = Done (Some 20) o w) .
  { unfold r. do 2 eexists. split; [vm_compute; reflexivity|]. vm_compute. reflexivity. }
  destruct Hr as (o & w & Hc & Hg).
  specialize (Hclaim _ _ _ _ _ _ _ _ _ Hc Hg). lia.
Qed.

(** ** The theorems at concrete inputs *)

Lemma unregistered_font_fails_witness :
  let o := withFont (Font.mk (Some "missing"%string) (Some 16) 16777215 "left")
             (object "ab" (Some 0)) in
  lookupFont world (fontKey (Font.name (_font o))) = None
  /\ updateText o world = Failed TypeError o world
  /\ get_textWidth o world = Failed TypeError o world.
Proof.
  intros o.
  assert (Hfont : lookupFont world (fontKey (Font.name (_font o))) = None)
    by (vm_compute; reflexivity).
  split; [exact Hfont|].
  destruct (unregistered_font_fails o world Hfont) as [Hu Hd].
  split; [exact Hu|]. apply Hd. reflexivity.
Defined.

Lemma no_glyph_keeps_maxLineHeight_witness :
  let o := object "xyz" (Some 0) in
  exists o' w',
    updateText o world = Done tt o' w'
    /\ _maxLineHeight o' = _maxLineHeight o
    /\ _textHeight o' = Some 20.
Proof.
  intros o.
  destruct (no_glyph_keeps_maxLineHeight o world font
              (flushLastLine "xyz"
                 (mkScan 3 (Point.mk (Some 0) (Some 0)) [] [] None (Some 0) (Some 0) 0 (-1)
                    (Some 0) 0 (Some 0)))
              (mkCharPool [] 0))
    as (o' & w' & Hu & Hm & _ & Hh & _).
  - vm_compute; reflexivity.
  - vm_compute; reflexivity.
  - vm_compute; reflexivity.
  - exists o', w'. split; [exact Hu|]. split; [exact Hm|].
    rewrite Hh. vm_compute. reflexivity.
Defined.

Lemma set_tint_restamps_witness :
  let o := (constructed "ab").1 in
  let w := (constructed "ab").2 in
  _tint o <> 255
  /\ _currentMeshes o = [0; 1]%nat
  /\ Mesh.tint <$> meshes (set_tint 255 o w).2 !! 0%nat = Some 255
  /\ Mesh.tint <$> meshes (set_tint 255 o w).2 !! 1%nat = Some 255
  /\ dirty (set_tint 255 o w).1 = dirty o
  /\ layoutPasses (set_tint 255 o w).2 = layoutPasses w.
Proof.
  intros o w.
  assert (Hne : _tint o <> 255) by (vm_compute; discriminate).
  destruct (set_tint_restamps 255 o _ w _ Hne (surjective_pairing (set_tint 255 o w)))
    as (Hin & _ & _ & _ & Hd & Hp & _).
  split; [exact Hne|]. split; [vm_compute; reflexivity|].
  split_and!; [| |exact Hd|exact Hp].
  - destruct (Hin 0%nat (Mesh.mk (Some 1%N) 16777215 6 (Some 0%nat)
                 (Some [Some 0; Some 0; Some 8; Some 0; Some 8; Some 12; Some 0; Some 12])
                 (Some [Some 0; Some 0; Some 1; Some 0; Some 1; Some 1; Some 0; Some 1])
                 (Some [0; 1; 2; 0; 2; 3])))
      as (m & Hm & Ht & _).
    + vm_compute. left.
    + vm_compute. reflexivity.
    + rewrite Hm. simpl. by rewrite Ht.
  - destruct (Hin 1%nat (Mesh.mk (Some 2%N) 16777215 6 (Some 0%nat)
                 (Some [Some 10; Some 0; Some 18; Some 0; Some 18; Some 12; Some 10; Some 12])
                 (Some [Some 0; Some 0; Some 1; Some 0; Some 1; Some 1; Some 0; Some 1])
                 (Some [0; 1; 2; 0; 2; 3])))
      as (m & Hm & Ht & _).
    + vm_compute. right. left.
    + vm_compute. reflexivity.
    + rewrite Hm. simpl. by rewrite Ht.
Defined.

Lemma buffer_policy_witness :
  let d := PageMeshData.mk 0 0 0 0 1 0 None None None in
  let larger :=
    PageMeshData.mk 0 0 0 0 1 0 (Some (replicate 16 (Some 5)))
      (Some (replicate 16 (Some 5))) (Some (replicate 12 7)) in
  sizeBuffers d
  = PageMeshData.mk 0 0 0 0 1 0 (Some (replicate 8 (Some 0)))
      (Some (replicate 8 (Some 0))) (Some (replicate 6 0))
  /\ Mesh.size <$> sizeMeshes (sizePages [(1%N, d)]) [newMesh] !! 0%nat = Some 6%nat
  /\ sizeBuffers larger = larger
  /\ Mesh.size <$> sizeMeshes (sizePages [(1%N, larger)]) [newMesh] !! 0%nat
     = Some 6%nat.
Proof.
  intros d larger.
  destruct (buffer_policy [(1%N, d)] [newMesh] 1%N d) as (_ & _ & _ & _ & Hfresh & Hsize).
  - left.
  - vm_compute. repeat constructor; apply not_elem_of_nil.
  - destruct (buffer_policy [(1%N, larger)] [newMesh] 1%N larger)
      as (_ & _ & _ & Hreuse & _ & Hsize').
    + left.
    + vm_compute. repeat constructor; apply not_elem_of_nil.
    + split_and!.
      * vm_compute. reflexivity.
      * apply (Hsize newMesh). reflexivity.
      * apply (Hreuse (replicate 12 7)); [reflexivity|]. vm_compute. lia.
      * apply (Hsize' newMesh). reflexivity.
Defined.

Lemma dirty_flag_protocol_witness :
  let o := (constructed "ab").1 in
  let w := (constructed "ab").2 in
  dirty o = false
  /\ dirty (set_text "abc" o) = true
  /\ exists o1 w1,
      updateText (set_text "abc" o) w = Done tt o1 w1
      /\ get_textWidth (set_text "abc" o) w = Done (_textWidth o1) (setDirty false o1) w1
      /\ layoutPasses w1 = S (layoutPasses w)
      /\ get_textWidth (setDirty false o1) w1
         = Done (_textWidth (setDirty false o1)) (setDirty false o1) w1.
Proof.
  intros o w.
  destruct (dirty_flag_protocol o w) as (Htext & _).
  assert (Hd : dirty (set_text "abc" o) = true).
  { apply Htext. vm_compute. discriminate. }
  destruct (updateText (set_text "abc" o) w) as [[] o1 w1|e o1 w1] eqn:Hu.
  2:{ exfalso. vm_compute in Hu. discriminate Hu. }
  destruct (dirty_flag_protocol (set_text "abc" o) w)
    as (_ & _ & _ & _ & _ & _ & Hread & _).
  destruct (Hread o1 w1 Hd Hu) as ((Hw & _ & _) & Hclean & Hp).
  destruct (dirty_flag_protocol (setDirty false o1) w1)
    as (_ & _ & _ & _ & _ & _ & _ & Hsecond & _).
  destruct (Hsecond Hclean) as (Hw2 & _ & _).
  split; [vm_compute; reflexivity|]. split; [exact Hd|].
  exists o1, w1. split_and!; [reflexivity|exact Hw|exact Hp|exact Hw2].
Defined.


Lemma anchor_shifts_vertices_witness :
  let o0 := object "a" (Some 0) in
  let anchor := Point.mk (Some 1) (Some 1) in
  exists ps ps0 d d0,
    passOf (withAnchor anchor o0) world = Some ps
    /\ passOf o0 world = Some ps0
    /\ pagesLookup 1%N (finalPages ps) = Some d
    /\ pagesLookup 1%N (finalPages ps0) = Some d0
    /\ PageMeshData.vertices d0
       = Some [Some 0; Some 0; Some 8; Some 0; Some 8; Some 12; Some 0; Some 12]
    /\ PageMeshData.vertices d
       = Some [Some (-10); Some (-20); Some (-2); Some (-20); Some (-2); Some (-8);
               Some (-10); Some (-8)].
Proof.
  intros o0 anchor.
  pose (s := flushLastLine "a"
               (mkScan 1 (Point.mk (Some 10) (Some 0))
                  [CharRenderData.mk 0 (glyphTexture 1) 0 97 (Point.mk (Some 0) (Some 0))]
                  [] (Some 97) (Some 10) (Some 0) 0 (-1) (Some 0) 0 (Some 12))).
  pose (p := mkCharPool (num:=num) [] 1).
  assert (Ha : anchored anchor = true) by (vm_compute; reflexivity).
  assert (Ha0 : anchored (_anchor o0) = false) by (vm_compute; reflexivity).
  assert (Hfont : available world !! fontKey (Font.name (_font o0)) = Some font)
    by (vm_compute; reflexivity).
  assert (Hscan : scanText o0 font (mkCharPool (charRenderDataPool world) (nextRef world))
                  = Scanned s p) by (vm_compute; reflexivity).
  destruct (anchor_shifts_vertices o0 anchor world font s p Ha Ha0 Hfont Hscan)
    as (_ & _ & _ & _ & _ & _ & Hshift).
  destruct (Hshift 1%N (PageMeshData.mk 1 0 0 0 1 0
              (Some [Some 0; Some 0; Some 8; Some 0; Some 8; Some 12; Some 0; Some 12])
              (Some [Some 0; Some 0; Some 1; Some 0; Some 1; Some 1; Some 0; Some 1])
              (Some [0; 1; 2; 0; 2; 3])))
    as (d & Hd & _ & _ & _ & _ & Hv).
  { vm_compute. reflexivity. }
  do 2 eexists. exists d. eexists. split_and!.
  - vm_compute. reflexivity.
  - vm_compute. reflexivity.
  - exact Hd.
  - vm_compute. reflexivity.
  - reflexivity.
  - revert Hd. vm_compute. intros [= <-]. reflexivity.
Defined.

Lemma second_pass_same_logical_content_witness :
  let o := object "abb" (Some 0) in
  Forall coherent (pageMeshDataPool world)
  /\ exists o1 w1 o2 w2,
      updateText o world = Done tt o1 w1
      /\ updateText o1 w1 = Done tt o2 w2
      /\ _textWidth o2 = _textWidth o1
      /\ _textHeight o2 = _textHeight o1
      /\ _maxLineHeight o2 = _maxLineHeight o1.
Proof.
  intros o.
  assert (Hpool : Forall coherent (pageMeshDataPool world)) by (vm_compute; constructor).
  split; [exact Hpool|].
  destruct (updateText o world) as [[] o1 w1|e o1 w1] eqn:Hu.
  2:{ exfalso. vm_compute in Hu. discriminate Hu. }
  destruct (second_pass_same_logical_content o o1 world w1 Hpool Hu)
    as (o2 & w2 & ps1 & ps2 & Hu2 & _ & _ & Hw & Hh & Hm & _).
  exists o1, w1, o2, w2. split_and!; [reflexivity|exact Hu2|exact Hw|exact Hh|exact Hm].
Defined.

Lemma pools_after_pass_witness :
  exists o w ps,
    updateText (object "aa bb cc" (Some 50)) world = Done tt o w
    /\ passOf (object "aa bb cc" (Some 50)) world = Some ps
    /\ (forall kv, kv ∈ finalPages ps -> kv.2 ∈ pageMeshDataPool w)
    /\ (forall c, c ∈ chars (scanned ps) -> c ∈ charRenderDataPool w).
Proof.
  destruct (updateText (object "aa bb cc" (Some 50)) world) as [[] o w|e o w] eqn:Hu.
  2:{ exfalso. vm_compute in Hu. discriminate Hu. }
  destruct (pools_after_pass _ _ _ _ Hu) as (ps & Hp & Hpages & Hchars).
  exists o, w, ps. split_and!; [reflexivity|exact Hp|exact Hpages|exact Hchars].
Defined.

Lemma soft_wrap_breaks_at_whitespace_witness :
  let o := object "aa bb cc" (Some 50) in
  let codes := codeUnits (normalizedText (_text o)) in
  (forall c, c ∈ codes ->
     isLineBreak c = false /\ is_Some (BitmapFont.chars font !! c))
  /\ exists s q breaks,
      scanText o font (mkCharPool [] 0) = Scanned s q
      /\ NoDup breaks
      /\ (forall w, w ∈ breaks ->
            (w < length codes)%nat
            /\ from_option isWhitespace false (codes !! w) = true)
      /\ map glyphKey (chars s) = wrappedGlyphs codes breaks (length codes)
      /\ line s = length breaks
      /\ (forall k, from_option isWhitespace false (codes !! k) = false ->
            breaksBefore breaks (S k) = breaksBefore breaks k).
Proof.
  intros o codes.
  assert (Hglyphs : forall c, c ∈ codes ->
            isLineBreak c = false /\ is_Some (BitmapFont.chars font !! c)).
  { intros c Hc. vm_compute in Hc.
    repeat (apply elem_of_cons in Hc as [->|Hc];
            [split; [reflexivity|eexists; vm_compute; reflexivity]|]).
    by apply elem_of_nil in Hc. }
  split; [exact Hglyphs|].
  exact (soft_wrap_breaks_at_whitespace o font (mkCharPool [] 0) Hglyphs).
Defined.

Lemma every_glyph_line_has_a_width_witness :
  let o := object "ab" (Some 0) in
  exists o' w' ps,
    updateText o world = Done tt o' w'
    /\ passOf o world = Some ps
    /\ length (lineAlignOffsets (Font.align (_font o)) (scanned ps))
       = S (line (scanned ps)).
Proof.
  intros o.
  destruct (updateText o world) as [[] o' w'|e o' w'] eqn:Hu.
  2:{ exfalso. vm_compute in Hu. discriminate Hu. }
  destruct (every_glyph_line_has_a_width o o' world w' Hu) as (ps & Hp & Hlen & _).
  exists o', w', ps. split_and!; [reflexivity|exact Hp|exact Hlen].
Defined.

Lemma measurements_of_a_pass_witness :
  let o := object "ab" (Some 0) in
  exists o' w' data ps,
    updateText o world = Done tt o' w'
    /\ passOf o world = Some ps
    /\ _textHeight o' = nmul (lineTop data (S (line (scanned ps)))) (scaleOf o data).
Proof.
  intros o.
  destruct (updateText o world) as [[] o' w'|e o' w'] eqn:Hu.
  2:{ exfalso. vm_compute in Hu. discriminate Hu. }
  destruct (measurements_of_a_pass o o' world w' Hu) as (data & ps & _ & Hp & _ & Hh).
  exists o', w', data, ps. split_and!; [reflexivity|exact Hp|exact Hh].
Defined.

Lemma records_are_glyphs_of_the_font_witness :
  let o := object "ab" (Some 0) in
  exists o' w' data ps,
    updateText o world = Done tt o' w'
    /\ passOf o world = Some ps
    /\ Forall (glyphOfFont data) (chars (scanned ps)).
Proof.
  intros o.
  destruct (updateText o world) as [[] o' w'|e o' w'] eqn:Hu.
  2:{ exfalso. vm_compute in Hu. discriminate Hu. }
  destruct (records_are_glyphs_of_the_font o o' world w' Hu) as (data & ps & _ & Hp & Hall).
  exists o', w', data, ps. split_and!; [reflexivity|exact Hp|exact Hall].
Defined.

Lemma layout_without_wrap_witness :
  let o := object ("a" +:+ newline +:+ "xb") (Some 0) in
  available world !! fontKey (Font.name (_font o)) = Some font
  /\ ngt (maxWidthOf o font) nzero = false
  /\ exists o' w' ps,
      updateText o world = Done tt o' w'
      /\ passOf o world = Some ps
      /\ map glyphKey (chars (scanned ps)) = [(97, 0%nat); (98, 1%nat)].
Proof.
  intros o.
  assert (Hf : available world !! fontKey (Font.name (_font o)) = Some font)
    by (vm_compute; reflexivity).
  assert (Hn : ngt (maxWidthOf o font) nzero = false) by (vm_compute; reflexivity).
  split; [exact Hf|]. split; [exact Hn|].
  destruct (layout_without_wrap o world font Hf Hn) as (o' & w' & ps & Hu & Hp & Hch & _).
  exists o', w', ps. split_and!; [exact Hu|exact Hp|]. rewrite Hch. vm_compute. reflexivity.
Defined.

Lemma text_without_whitespace_is_not_wrapped_witness :
  let o := object "abcabc" (Some 20) in
  Forall (fun c => isWhitespace c = false) (codeUnits (normalizedText (_text o)))
  /\ exists s q,
      scanText o font (mkCharPool [] 0) = Scanned s q
      /\ line s = O /\ length (chars s) = 6%nat.
Proof.
  intros o.
  assert (Hall : Forall (fun c => isWhitespace c = false)
                   (codeUnits (normalizedText (_text o))))
    by (vm_compute; repeat constructor).
  split; [exact Hall|].
  destruct (text_without_whitespace_is_not_wrapped o font (mkCharPool [] 0) Hall)
    as (s & q & Hs & Hl & Hch & _).
  exists s, q. split_and!; [exact Hs|exact Hl|].
  rewrite <- (length_map glyphKey), Hch. vm_compute. reflexivity.
Defined.

Lemma set_font_size_and_name_witness :
  (" "%char ∉ list_ascii_of_string "24px")
  /\ exists o',
      set_font (FontString "24px My Font") (object "a" (Some 0)) world = Done tt o' world
      /\ Font.name (_font o') = Some "My Font"%string
      /\ Font.size (_font o') = Some 24.
Proof.
  assert (Hn : " "%char ∉ list_ascii_of_string "24px").
  { intros Hin. repeat (apply elem_of_cons in Hin as [Hin|Hin]; [discriminate Hin|]).
    by apply elem_of_nil in Hin. }
  split; [exact Hn|].
  eexists. split; [exact (set_font_size_and_name "24px" "My Font" _ world Hn)|].
  split; vm_compute; reflexivity.
Defined.

Lemma set_font_name_only_witness :
  let o := setDirty false (object "a" (Some 0)) in
  "missing"%string <> EmptyString
  /\ (" "%char ∉ list_ascii_of_string "missing")
  /\ "constructor"%string <> EmptyString
  /\ (" "%char ∉ list_ascii_of_string "constructor")
  /\ (exists o',
        set_font (FontString "missing") o world = Failed TypeError o' world
        /\ Font.name (_font o') = Some "missing"%string
        /\ Font.size (_font o') = Font.size (_font o)
        /\ dirty o' = false)
  /\ (exists o',
        set_font (FontString "constructor") o world = Done tt o' world
        /\ available world !! "constructor"%string = None
        /\ Font.name (_font o') = Some "constructor"%string
        /\ Font.size (_font o') = nundefined
        /\ dirty o' = true).
Proof.
  intros o.
  assert (Hne : "missing"%string <> EmptyString) by discriminate.
  assert (Hn : " "%char ∉ list_ascii_of_string "missing").
  { intros Hin. repeat (apply elem_of_cons in Hin as [Hin|Hin]; [discriminate Hin|]).
    by apply elem_of_nil in Hin. }
  assert (Hne' : "constructor"%string <> EmptyString) by discriminate.
  assert (Hn' : " "%char ∉ list_ascii_of_string "constructor").
  { intros Hin. repeat (apply elem_of_cons in Hin as [Hin|Hin]; [discriminate Hin|]).
    by apply elem_of_nil in Hin. }
  split; [exact Hne|]. split; [exact Hn|]. split; [exact Hne'|]. split; [exact Hn'|].
  split.
  - eexists. split.
    + rewrite (set_font_name_only "missing" o world Hne Hn).
      vm_compute. reflexivity.
    + split_and!; reflexivity.
  - eexists. split.
    + rewrite (set_font_name_only "constructor" o world Hne' Hn').
      vm_compute. reflexivity.
    + split_and!; reflexivity.
Defined.

Lemma world_wellFormed : wellFormed world.
Proof. unfold wellFormed. simpl. split_and!; constructor. Qed.

Lemma pools_stay_well_formed_witness :
  let o := object "ab" (Some 0) in
  wellFormed world
  /\ exists o' w',
      updateText o world = Done tt o' w'
      /\ wellFormed w' /\ wellFormed (set_tint 255 o world).2.
Proof.
  intros o. split; [exact world_wellFormed|].
  destruct (updateText o world) as [[] o' w'|e o' w'] eqn:Hu.
  2:{ exfalso. vm_compute in Hu. discriminate Hu. }
  destruct (pools_stay_well_formed o world world_wellFormed) as (Hpass & Htint & _).
  destruct (Hpass o' w' Hu) as (Hwf & _).
  exists o', w'. split_and!; [reflexivity|exact Hwf|exact (Htint 255)].
Defined.

Lemma meshes_after_a_pass_witness :
  let o := object "ab" (Some 0) in
  wellFormed world
  /\ exists o' w' ps,
      updateText o world = Done tt o' w'
      /\ passOf o world = Some ps
      /\ NoDup (_currentMeshes o')
      /\ (forall uid d, (uid, d) ∈ finalPages ps ->
            meshes w' !! PageMeshData.mesh d = Some (publishedMesh o uid d)).
Proof.
  intros o. split; [exact world_wellFormed|].
  destruct (updateText o world) as [[] o' w'|e o' w'] eqn:Hu.
  2:{ exfalso. vm_compute in Hu. discriminate Hu. }
  destruct (meshes_after_a_pass o o' world w' world_wellFormed Hu)
    as (ps & Hp & _ & Hnd & Hpub & _).
  exists o', w', ps. split_and!; [reflexivity|exact Hp|exact Hnd|exact Hpub].
Defined.

Lemma current_meshes_come_from_the_pool_witness :
  let o := object "ab" (Some 0) in
  wellFormed world
  /\ exists o' w',
      updateText o world = Done tt o' w'
      /\ _currentMeshes o' = [0; 1]%nat
      /\ length (pageMeshDataPool w') = 2%nat.
Proof.
  intros o. split; [exact world_wellFormed|].
  destruct (updateText o world) as [[] o' w'|e o' w'] eqn:Hu.
  2:{ exfalso. vm_compute in Hu. discriminate Hu. }
  destruct (current_meshes_come_from_the_pool o o' world w' world_wellFormed Hu)
    as (ps & Hp & Hcur & _ & _ & _ & Hlen).
  assert (Hn : length (finalPages ps) = 2%nat).
  { vm_compute in Hp. injection Hp as <-. reflexivity. }
  exists o', w'. split_and!; [reflexivity| |].
  - rewrite Hcur, Hn. reflexivity.
  - rewrite Hlen, Hn. reflexivity.
Defined.

Lemma meshes_are_shared_between_objects_witness :
  let o1 := object "a" (Some 0) in
  let o2 :=
    mkBitmapText 1 false true (Some 0) (Some 0) "b" (Some 0) (Some 0) (Some 0)
      (Point.mk (Some 0) (Some 0))
      (Font.mk (Some "sample"%string) (Some 16) 16777215 "left") [] 255 in
  wellFormed world
  /\ exists o1' w1 o2' w2 m mesh,
      updateText o1 world = Done tt o1' w1
      /\ updateText o2 w1 = Done tt o2' w2
      /\ _currentMeshes o1' <> [] /\ _currentMeshes o2' <> []
      /\ m ∈ _currentMeshes o1' /\ m ∈ _currentMeshes o2'
      /\ meshes w2 !! m = Some mesh
      /\ Mesh.parent mesh = Some 1%nat /\ Mesh.tint mesh = 255.
Proof.
  intros o1 o2. split; [exact world_wellFormed|].
  destruct (updateText o1 world) as [[] o1' w1|e o1' w1] eqn:Hu1.
  2:{ exfalso. vm_compute in Hu1. discriminate Hu1. }
  destruct (updateText o2 w1) as [[] o2' w2|e o2' w2] eqn:Hu2.
  2:{ exfalso. vm_compute in Hu1. injection Hu1 as _ <-.
      vm_compute in Hu2. discriminate Hu2. }
  assert (Hne1 : _currentMeshes o1' <> []).
  { vm_compute in Hu1. injection Hu1 as <- _. discriminate. }
  assert (Hne2 : _currentMeshes o2' <> []).
  { vm_compute in Hu1. injection Hu1 as _ <-.
    vm_compute in Hu2. injection Hu2 as <- _. discriminate. }
  destruct (meshes_are_shared_between_objects o1 o1' o2 o2' world w1 w2
              world_wellFormed Hu1 Hu2 Hne1 Hne2)
    as (m & mesh & Hm1 & Hm2 & Hmesh & Hparent & Htint).
  exists o1', w1, o2', w2, m, mesh.
  split_and!; [reflexivity|exact Hu2|exact Hne1|exact Hne2|exact Hm1|exact Hm2
               |exact Hmesh|exact Hparent|exact Htint].
Defined.

Lemma constructor_defaults_witness :
  let style := mkStyle (FontString "16px sample") None (Some 255) in
  let style' := mkStyle (FontString "constructor") None None : Style num in
  (exists o' w',
     constructor 0 "ab" style world = Done tt o' w'
     /\ _tint o' = 16777215
     /\ Font.tint (_font o') = 255
     /\ is_Some (available world !! fontKey (Font.name (_font o')))
     /\ Forall (fun m => exists mesh,
                  meshes w' !! m = Some mesh
                  /\ Mesh.tint mesh = 16777215 /\ Mesh.parent mesh = Some 0%nat)
          (_currentMeshes o'))
  /\ (exists o' w',
        constructor 0 newline style' world = Done tt o' w'
        /\ available world !! fontKey (Font.name (_font o')) = None
        /\ fontKey (Font.name (_font o')) ∈ objectPrototype
        /\ _currentMeshes o' = []).
Proof.
  intros style style'. split.
  - destruct (constructor 0 "ab" style world) as [[] o' w'|e o' w'] eqn:Hc.
    2:{ exfalso. vm_compute in Hc. discriminate Hc. }
    destruct (constructor_defaults 0 "ab" style o' world w' Hc)
      as (_ & _ & _ & _ & _ & _ & Ht & Hft & _ & Hfont & Hm).
    exists o', w'.
    split_and!; [reflexivity|exact Ht|exact Hft| |exact (Hm world_wellFormed)].
    destruct Hfont as [Hreg|(Hin & _)]; [exact Hreg|].
    exfalso. vm_compute in Hc. injection Hc as <- _.
    revert Hin. cbn [_font Font.name fontKey default].
    unfold objectPrototype. intros Hin.
    repeat (apply elem_of_cons in Hin as [Hin|Hin]; [discriminate Hin|]).
    by apply elem_of_nil in Hin.
  - destruct (constructor 0 newline style' world) as [[] o' w'|e o' w'] eqn:Hc.
    2:{ exfalso. vm_compute in Hc. discriminate Hc. }
    destruct (constructor_defaults 0 newline style' o' world w' Hc)
      as (_ & _ & _ & _ & _ & _ & _ & _ & _ & Hfont & _).
    assert (Hnone : available world !! fontKey (Font.name (_font o')) = None).
    { vm_compute in Hc. injection Hc as <- _. vm_compute. reflexivity. }
    exists o', w'.
    destruct Hfont as [Hreg|(Hin & _ & Hcur)].
    + exfalso. rewrite Hnone in Hreg. by destruct Hreg.
    + split_and!; [reflexivity|exact Hnone|exact Hin|exact Hcur].
Defined.

Lemma constructor_without_font_witness :
  let style := mkStyle FontUndefined None None : Style num in
  (style_font style = FontUndefined \/ style_font style = FontString EmptyString)
  /\ available world !! "null"%string = None
  /\ exists o', constructor 0 "ab" style world = Failed TypeError o' world.
Proof.
  intros style.
  assert (Hs : style_font style = FontUndefined \/ style_font style = FontString EmptyString)
    by (left; reflexivity).
  assert (Hn : available world !! "null"%string = None) by (vm_compute; reflexivity).
  split; [exact Hs|]. split; [exact Hn|].
  destruct (constructor_without_font 0 "ab" style world Hs Hn) as (o' & Hc & _).
  exists o'. exact Hc.
Defined.

Lemma layout_depends_on_its_inputs_only_witness :
  let oa := object "ab" (Some 0) in
  let ob :=
    mkBitmapText 1 false true (Some 0) (Some 0) "ab" (Some 0) (Some 0) (Some 0)
      (Point.mk (Some 1) (Some 1))
      (Font.mk (Some "sample"%string) (Some 16) 255 "right") [] 255 in
  exists oa' wa' ob' wb',
    updateText oa world = Done tt oa' wa'
    /\ updateText ob wa' = Done tt ob' wb'
    /\ _textWidth ob' = _textWidth oa'
    /\ _textHeight ob' = _textHeight oa'.
Proof.
  intros oa ob.
  destruct (updateText oa world) as [[] oa' wa'|e oa' wa'] eqn:Hu.
  2:{ exfalso. vm_compute in Hu. discriminate Hu. }
  assert (Hav : available world = available wa').
  { vm_compute in Hu. injection Hu as _ <-. reflexivity. }
  destruct (layout_depends_on_its_inputs_only oa ob oa' world wa' wa' Hav
              eq_refl eq_refl eq_refl eq_refl eq_refl Hu)
    as (ob' & wb' & _ & _ & Hub & _ & _ & _ & Hw & Hh & _).
  exists oa', wa', ob', wb'. split_and!; [reflexivity|exact Hub|exact Hw|exact Hh].
Defined.

Lemma quads_of_a_pass_witness :
  let o := object "ab" (Some 0) in
  Forall coherent (pageMeshDataPool world)
  /\ exists o' w' ps,
      updateText o world = Done tt o' w'
      /\ passOf o world = Some ps
      /\ StronglySorted N.lt (map fst (finalPages ps)).
Proof.
  intros o.
  assert (Hpool : Forall coherent (pageMeshDataPool world)) by (vm_compute; constructor).
  split; [exact Hpool|].
  destruct (updateText o world) as [[] o' w'|e o' w'] eqn:Hu.
  2:{ exfalso. vm_compute in Hu. discriminate Hu. }
  destruct (quads_of_a_pass o o' world w' Hpool Hu) as (data & ps & _ & Hp & Hs & _).
  exists o', w', ps. split_and!; [reflexivity|exact Hp|exact Hs].
Defined.

Lemma lines_are_laid_out_on_their_own_witness :
  ngt (Some 0) nzero = false
  /\ exists s q s1 q1 s2 q2,
      scan font (String.append "ab" (String LF "ba")) (Some 0) (Some 0) (mkCharPool [] 0)
      = Scanned s q
      /\ scan font "ab" (Some 0) (Some 0) (mkCharPool [] 0) = Scanned s1 q1
      /\ scan font "ba" (Some 0) (Some 0) (mkCharPool [] 0) = Scanned s2 q2
      /\ map placedAt (chars s) = map placedAt (chars s1) ++ map placedAt (chars s2).
Proof.
  assert (Hn : ngt (Some 0) nzero = false) by reflexivity.
  split; [exact Hn|].
  exact (lines_are_laid_out_on_their_own font (Some 0) (Some 0) "ab" "ba"
           (mkCharPool [] 0) (mkCharPool [] 0) (mkCharPool [] 0) Hn).
Defined.

Lemma max_line_height_without_wrap_witness :
  let o := object "ab" (Some 0) in
  available world !! fontKey (Font.name (_font o)) = Some font
  /\ ngt (maxWidthOf o font) nzero = false
  /\ exists o' w',
      updateText o world = Done tt o' w' /\ _maxLineHeight o' = Some 12.
Proof.
  intros o.
  assert (Hf : available world !! fontKey (Font.name (_font o)) = Some font)
    by (vm_compute; reflexivity).
  assert (Hn : ngt (maxWidthOf o font) nzero = false) by (vm_compute; reflexivity).
  split; [exact Hf|]. split; [exact Hn|].
  destruct (max_line_height_without_wrap o world font Hf Hn) as (o' & w' & ps & Hu & Hp & Hm).
  exists o', w'. split; [exact Hu|]. rewrite Hm.
  - vm_compute. reflexivity.
  - vm_compute in Hp. injection Hp as <-. discriminate.
Defined.

Lemma records_go_back_without_wrap_witness :
  let o := object "ab" (Some 0) in
  available world !! fontKey (Font.name (_font o)) = Some font
  /\ ngt (maxWidthOf o font) nzero = false
  /\ exists o' w',
      updateText o world = Done tt o' w' /\ length (charRenderDataPool w') = 2%nat.
Proof.
  intros o.
  assert (Hf : available world !! fontKey (Font.name (_font o)) = Some font)
    by (vm_compute; reflexivity).
  assert (Hn : ngt (maxWidthOf o font) nzero = false) by (vm_compute; reflexivity).
  split; [exact Hf|]. split; [exact Hn|].
  destruct (records_go_back_without_wrap o world font Hf Hn)
    as (o' & w' & ps & Hu & Hp & Hlen & _).
  exists o', w'. split; [exact Hu|]. rewrite Hlen.
  vm_compute in Hp. injection Hp as <-. reflexivity.
Defined.

Lemma slots_beyond_the_draw_size_are_untouched_witness :
  exists o1 w1 o2 w2 ps d,
    updateText (object "aa" (Some 0)) world = Done tt o1 w1
    /\ Forall coherent (pageMeshDataPool w1)
    /\ updateText (set_text "a" o1) w1 = Done tt o2 w2
    /\ passOf (set_text "a" o1) w1 = Some ps
    /\ pagesLookup 1%N (finalPages ps) = Some d
    /\ PageMeshData.total d = 1%nat
    /\ beyond d
       = (Some [Some 10; Some 0; Some 18; Some 0; Some 18; Some 12; Some 10; Some 12],
          Some [Some 0; Some 0; Some 1; Some 0; Some 1; Some 1; Some 0; Some 1],
          Some [4; 5; 6; 4; 6; 7]).
Proof.
  assert (Hrun : exists o1 w1 o2 w2 ps d d0,
             updateText (object "aa" (Some 0)) world = Done tt o1 w1
             /\ updateText (set_text "a" o1) w1 = Done tt o2 w2
             /\ passOf (set_text "a" o1) w1 = Some ps
             /\ pagesLookup 1%N (finalPages ps) = Some d
             /\ pagesLookup 1%N (sizePages (pagesMeshData (batching ps))) = Some d0
             /\ PageMeshData.total d = 1%nat
             /\ beyond d0
                = (Some [Some 10; Some 0; Some 18; Some 0; Some 18; Some 12;
                         Some 10; Some 12],
                   Some [Some 0; Some 0; Some 1; Some 0; Some 1; Some 1; Some 0; Some 1],
                   Some [4; 5; 6; 4; 6; 7])
             /\ Forall coherent (pageMeshDataPool w1)).
  { do 7 eexists. split; [vm_compute; reflexivity|].
    split; [vm_compute; reflexivity|].
    split; [vm_compute; reflexivity|].
    split; [vm_compute; reflexivity|].
    split; [vm_compute; reflexivity|].
    split; [vm_compute; reflexivity|].
    split; [vm_compute; reflexivity|].
    apply Forall_cons. split; [|constructor].
    intros ix Hix. vm_compute in Hix. injection Hix as <-.
    do 2 eexists. split; [vm_compute; reflexivity|].
    split; [vm_compute; reflexivity|]. split; vm_compute; reflexivity. }
  destruct Hrun as (o1 & w1 & o2 & w2 & ps & d & d0 & Hu1 & Hu2 & Hp & Hl & Hl0 & Ht
                    & Hb0 & Hpool).
  destruct (slots_beyond_the_draw_size_are_untouched (set_text "a" o1) o2 w1 w2 Hpool Hu2)
    as (ps' & Hp' & Hb).
  rewrite Hp in Hp'. injection Hp' as <-.
  destruct (Hb 1%N d Hl) as (d0' & Hl0' & _ & Hd).
  rewrite Hl0 in Hl0'. injection Hl0' as <-.
  exists o1, w1, o2, w2, ps, d.
  split_and!; [exact Hu1|exact Hpool|exact Hu2|exact Hp|exact Hl|exact Ht|].
  rewrite Hd. exact Hb0.
Defined.
